(** * hellcart-race: the simulation core of [src/components/RaceTrack.tsx]

    A shallow embedding of the [GoCart] component's per-frame logic
    (track queries, recovery and damage policy, cart-to-cart collision
    scan, rule-based steering, the [useFrame] update) and the properties
    of it that the specification states.

    Modelling conventions.
    - A JavaScript [number] is a real number ([R]): rounding, NaN and the
      infinities of IEEE doubles are outside the model.  The one place the
      source uses [Infinity] (the initial "closest distance" of the
      nearest-point scans) is an [option R] whose [None] is [Infinity].
    - [Math.sqrt], [Math.sin], [Math.cos], [Math.max], [Math.min] and
      [Math.abs] are the Standard Library's functions; [Math.atan2] and
      [Math.floor] are defined below from [atan] and [up].
    - A [THREE.Vector3] is a record of three numbers.  The component never
      mutates a vector another reference can see (it clones first), so
      vectors are values.
    - React state: a callback reads the state of the render it was created
      in (the snapshot) and queues updates; queued updates are applied in
      order, a later [setX] overriding an earlier one, and [setX(prev => ..)]
      reading the queued value.  Every stateful function below therefore
      takes the snapshot [s] and the pending state [c] and returns the new
      pending state.
    - [allCartPositions] is a JavaScript [Map]: iteration is in insertion
      order and [set] on an existing key keeps the key's place.  It is an
      association list.
    - Reading [trackPoints[i]] out of range gives [undefined], and the read
      of its [x] raises; a raised exception is [None]. *)

From Stdlib Require Import Reals Lra Lia ZArith List String Bool Psatz.
Import ListNotations.

Open Scope R_scope.

(** ** Numbers *)

Definition Rltb (a b : R) : bool := if Rlt_dec a b then true else false.
Definition Rleb (a b : R) : bool := if Rle_dec a b then true else false.

(** [d < closestDistance] where [closestDistance] may still be [Infinity]. *)
Definition ltInf (d : R) (closest : option R) : bool :=
  match closest with
  | None => true
  | Some c => Rltb d c
  end.

(** [Math.atan2 y x] on real arguments. *)
Definition atan2 (y x : R) : R :=
  if Rlt_dec 0 x then atan (y / x)
  else if Rlt_dec x 0 then
         (if Rle_dec 0 y then atan (y / x) + PI else atan (y / x) - PI)
  else if Rlt_dec 0 y then PI / 2
  else if Rlt_dec y 0 then - (PI / 2)
  else 0.

(** [Math.floor]. *)
Definition floor (x : R) : Z := (up x - 1)%Z.

(** ** Vectors *)

Record Vector3 := mkVec { vx : R; vy : R; vz : R }.

Definition subVectors (a b : Vector3) : Vector3 :=
  mkVec (vx a - vx b) (vy a - vy b) (vz a - vz b).

Definition addVec (a b : Vector3) : Vector3 :=
  mkVec (vx a + vx b) (vy a + vy b) (vz a + vz b).

Definition multiplyScalar (a : Vector3) (k : R) : Vector3 :=
  mkVec (vx a * k) (vy a * k) (vz a * k).

Definition length (a : Vector3) : R :=
  sqrt (vx a * vx a + vy a * vy a + vz a * vz a).

(** [v.normalize()] is [v.divideScalar(v.length() || 1)], and
    [divideScalar(k)] is [multiplyScalar(1 / k)]. *)
Definition normalize (a : Vector3) : Vector3 :=
  let l := length a in
  multiplyScalar a (1 / (if Req_dec_T l 0 then 1 else l)).

(** The horizontal distance the source writes out at every use:
    [Math.sqrt((a.x - x) ** 2 + (a.z - z) ** 2)]. *)
Definition dist2d (ax az x z : R) : R :=
  sqrt ((ax - x) ^ 2 + (az - z) ^ 2).

(** ** Track queries *)

Section Track.

Variable trackPoints : list Vector3.

(** [getTrackHeightAt]: a scan keeping [(closestDistance, closestHeight)]. *)
Definition heightStep (x z : R) (acc : option R * R) (point : Vector3)
  : option R * R :=
  let distance := dist2d (vx point) (vz point) x z in
  if ltInf distance (fst acc) then (Some distance, vy point) else acc.

Definition getTrackHeightAt (x z : R) : R :=
  snd (fold_left (heightStep x z) trackPoints (None, 0)).

(** The nearest-point loop of [isPositionValid] and [resetToTrackCenter]
    (the same text in both): the loop variables are
    [closestDistance], [closestTrackPoint] and [closestIndex]. *)
Record Closest := mkClosest {
  closestDistance : option R;
  closestTrackPoint : option Vector3;
  closestIndex : nat
}.

Fixpoint closestLoop (x z : R) (pts : list Vector3) (i : nat) (acc : Closest)
  : Closest :=
  match pts with
  | [] => acc
  | point :: rest =>
      let distance := dist2d (vx point) (vz point) x z in
      closestLoop x z rest (S i)
        (if ltInf distance (closestDistance acc)
         then mkClosest (Some distance) (Some point) i
         else acc)
  end.

Definition findClosest (x z : R) : Closest :=
  closestLoop x z trackPoints 0%nat (mkClosest None (nth_error trackPoints 0) 0).

Definition cartRadius : R := 0.8.
Definition trackWidth : R := 12.

Definition isPositionValid (x z : R) : option bool :=
  let cl := findClosest x z in
  match closestTrackPoint cl with
  | None => None
  | Some closest =>
      let nextIndex := ((closestIndex cl + 1) mod List.length trackPoints)%nat in
      match nth_error trackPoints nextIndex with
      | None => None
      | Some nextPoint =>
          let direction := normalize (subVectors nextPoint closest) in
          let perpendicular := mkVec (- vz direction) 0 (vx direction) in
          let innerPoint :=
            addVec closest (multiplyScalar perpendicular (- trackWidth / 2)) in
          let outerPoint :=
            addVec closest (multiplyScalar perpendicular (trackWidth / 2)) in
          let distanceFromCenter := dist2d (vx closest) (vz closest) x z in
          let maxDistanceFromCenter := trackWidth / 2 - cartRadius in
          let distToInner := dist2d (vx innerPoint) (vz innerPoint) x z in
          let distToOuter := dist2d (vx outerPoint) (vz outerPoint) x z in
          Some (Rleb distanceFromCenter maxDistanceFromCenter
                && Rltb cartRadius distToInner
                && Rltb cartRadius distToOuter)
      end
  end.

End Track.

(** ** The component's props and state *)

Inductive AiStyle := aggressive | normal | cautious.

(** [onCartCollision] is an optional callback; [onCartCollision] below
    records whether it was passed.  (In [Track], [handleCartCollision] is
    passed to every cart.) *)
Record Props := mkProps {
  trackPoints : list Vector3;
  isPlayer : bool;
  aiStyle : AiStyle;
  cartId : string;
  onCartCollision : bool;
  startPosition : Vector3
}.

(** The [useState] cells of the second [GoCart] (the first one lacks
    [laps], [wallHits], [cartHits] and [lastCheckpoint], and is otherwise
    the same text). *)
Record Cart := mkCart {
  position : Vector3;
  rotation : R;
  velocity : R;
  angularVelocity : R;
  currentTrackIndex : nat;
  isPaused : bool;
  pauseTimeLeft : R;
  hitPoints : Z;
  isStunned : bool;
  stunTimeLeft : R;
  laps : nat;
  wallHits : nat;
  cartHits : nat;
  lastCheckpoint : Z
}.

(** The state of a freshly mounted cart: the initial values of the
    [useState] calls. *)
Definition initialCart (pr : Props) : Cart :=
  mkCart (startPosition pr) (PI / 2) 0 0 0 false 0 10 false 0 0 0 0 (-1).

Definition setPosition (v : Vector3) (c : Cart) : Cart :=
  mkCart v (rotation c) (velocity c) (angularVelocity c) (currentTrackIndex c)
    (isPaused c) (pauseTimeLeft c) (hitPoints c) (isStunned c) (stunTimeLeft c)
    (laps c) (wallHits c) (cartHits c) (lastCheckpoint c).
Definition setRotation (v : R) (c : Cart) : Cart :=
  mkCart (position c) v (velocity c) (angularVelocity c) (currentTrackIndex c)
    (isPaused c) (pauseTimeLeft c) (hitPoints c) (isStunned c) (stunTimeLeft c)
    (laps c) (wallHits c) (cartHits c) (lastCheckpoint c).
Definition setVelocity (v : R) (c : Cart) : Cart :=
  mkCart (position c) (rotation c) v (angularVelocity c) (currentTrackIndex c)
    (isPaused c) (pauseTimeLeft c) (hitPoints c) (isStunned c) (stunTimeLeft c)
    (laps c) (wallHits c) (cartHits c) (lastCheckpoint c).
Definition setAngularVelocity (v : R) (c : Cart) : Cart :=
  mkCart (position c) (rotation c) (velocity c) v (currentTrackIndex c)
    (isPaused c) (pauseTimeLeft c) (hitPoints c) (isStunned c) (stunTimeLeft c)
    (laps c) (wallHits c) (cartHits c) (lastCheckpoint c).
Definition setCurrentTrackIndex (v : nat) (c : Cart) : Cart :=
  mkCart (position c) (rotation c) (velocity c) (angularVelocity c) v
    (isPaused c) (pauseTimeLeft c) (hitPoints c) (isStunned c) (stunTimeLeft c)
    (laps c) (wallHits c) (cartHits c) (lastCheckpoint c).
Definition setIsPaused (v : bool) (c : Cart) : Cart :=
  mkCart (position c) (rotation c) (velocity c) (angularVelocity c)
    (currentTrackIndex c) v (pauseTimeLeft c) (hitPoints c) (isStunned c)
    (stunTimeLeft c) (laps c) (wallHits c) (cartHits c) (lastCheckpoint c).
Definition setPauseTimeLeft (v : R) (c : Cart) : Cart :=
  mkCart (position c) (rotation c) (velocity c) (angularVelocity c)
    (currentTrackIndex c) (isPaused c) v (hitPoints c) (isStunned c)
    (stunTimeLeft c) (laps c) (wallHits c) (cartHits c) (lastCheckpoint c).
Definition setHitPoints (v : Z) (c : Cart) : Cart :=
  mkCart (position c) (rotation c) (velocity c) (angularVelocity c)
    (currentTrackIndex c) (isPaused c) (pauseTimeLeft c) v (isStunned c)
    (stunTimeLeft c) (laps c) (wallHits c) (cartHits c) (lastCheckpoint c).
Definition setIsStunned (v : bool) (c : Cart) : Cart :=
  mkCart (position c) (rotation c) (velocity c) (angularVelocity c)
    (currentTrackIndex c) (isPaused c) (pauseTimeLeft c) (hitPoints c) v
    (stunTimeLeft c) (laps c) (wallHits c) (cartHits c) (lastCheckpoint c).
Definition setStunTimeLeft (v : R) (c : Cart) : Cart :=
  mkCart (position c) (rotation c) (velocity c) (angularVelocity c)
    (currentTrackIndex c) (isPaused c) (pauseTimeLeft c) (hitPoints c)
    (isStunned c) v (laps c) (wallHits c) (cartHits c) (lastCheckpoint c).
Definition setLaps (v : nat) (c : Cart) : Cart :=
  mkCart (position c) (rotation c) (velocity c) (angularVelocity c)
    (currentTrackIndex c) (isPaused c) (pauseTimeLeft c) (hitPoints c)
    (isStunned c) (stunTimeLeft c) v (wallHits c) (cartHits c) (lastCheckpoint c).
Definition setWallHits (v : nat) (c : Cart) : Cart :=
  mkCart (position c) (rotation c) (velocity c) (angularVelocity c)
    (currentTrackIndex c) (isPaused c) (pauseTimeLeft c) (hitPoints c)
    (isStunned c) (stunTimeLeft c) (laps c) v (cartHits c) (lastCheckpoint c).
Definition setCartHits (v : nat) (c : Cart) : Cart :=
  mkCart (position c) (rotation c) (velocity c) (angularVelocity c)
    (currentTrackIndex c) (isPaused c) (pauseTimeLeft c) (hitPoints c)
    (isStunned c) (stunTimeLeft c) (laps c) (wallHits c) v (lastCheckpoint c).
Definition setLastCheckpoint (v : Z) (c : Cart) : Cart :=
  mkCart (position c) (rotation c) (velocity c) (angularVelocity c)
    (currentTrackIndex c) (isPaused c) (pauseTimeLeft c) (hitPoints c)
    (isStunned c) (stunTimeLeft c) (laps c) (wallHits c) (cartHits c) v.

(** ** Recovery and damage policy *)

(** [resetToTrackCenter]: [s] is the snapshot the closure reads
    ([position]), [c] the pending state the setters update. *)
Definition resetToTrackCenter (pr : Props) (s c : Cart) : option Cart :=
  let cl := findClosest (trackPoints pr) (vx (position s)) (vz (position s)) in
  match closestTrackPoint cl with
  | None => None
  | Some closest =>
      let trackHeight :=
        getTrackHeightAt (trackPoints pr) (vx closest) (vz closest) in
      let newPosition := mkVec (vx closest) (trackHeight + 0.5) (vz closest) in
      let nextIndex :=
        ((closestIndex cl + 1) mod List.length (trackPoints pr))%nat in
      match nth_error (trackPoints pr) nextIndex with
      | None => None
      | Some nextPoint =>
          let newRotation :=
            atan2 (vx nextPoint - vx closest) (vz nextPoint - vz closest) in
          let c := setPosition newPosition c in
          let c := setRotation newRotation c in
          let c := setVelocity 0 c in
          let c := setAngularVelocity 0 c in
          let c := setCurrentTrackIndex (closestIndex cl) c in
          let c := setIsPaused true c in
          let c := setPauseTimeLeft 3.0 c in
          Some (setWallHits (wallHits c + 1) c)
      end
  end.

Definition resetToStart (pr : Props) (c : Cart) : Cart :=
  let startRotation := PI / 2 in
  let c := setPosition (startPosition pr) c in
  let c := setRotation startRotation c in
  let c := setVelocity 0 c in
  let c := setAngularVelocity 0 c in
  let c := setCurrentTrackIndex 0 c in
  let c := setHitPoints 10 c in
  let c := setIsPaused false c in
  let c := setPauseTimeLeft 0 c in
  let c := setIsStunned false c in
  let c := setStunTimeLeft 0 c in
  setLastCheckpoint (-1) c.

(** [takeDamage]; the boolean records whether [resetToStart] was invoked. *)
Definition takeDamage (pr : Props) (s c : Cart) : Cart * bool :=
  let newHitPoints := (hitPoints s - 1)%Z in
  let c := setHitPoints newHitPoints c in
  let c := setIsStunned true c in
  let c := setStunTimeLeft 0.1 c in
  let c := setVelocity 0 c in
  let c := setAngularVelocity 0 c in
  let c := setCartHits (cartHits c + 1) c in
  if (newHitPoints <=? 0)%Z then (resetToStart pr c, true) else (c, false).

(** One call of [takeDamage] followed by the re-render that commits its
    updates: the next call sees the new state. *)
Definition applyDamage (pr : Props) (s : Cart) : Cart := fst (takeDamage pr s s).

(** [n] consecutive calls, each on the state the previous one committed,
    with the log of which calls invoked [resetToStart]. *)
Fixpoint applyDamageTimes (pr : Props) (n : nat) (s : Cart) : Cart * list bool :=
  match n with
  | O => (s, [])
  | S n' =>
      let (s1, reset) := takeDamage pr s s in
      let (s2, log) := applyDamageTimes pr n' s1 in
      (s2, reset :: log)
  end.

(** ** The shared position map and the collision scan *)

Definition PosMap := list (string * Vector3).

(** [Map.prototype.set]. *)
Fixpoint mapSet (k : string) (v : Vector3) (m : PosMap) : PosMap :=
  match m with
  | [] => [(k, v)]
  | (k', v') :: rest =>
      if String.eqb k' k then (k, v) :: rest else (k', v') :: mapSet k v rest
  end.

Definition collisionRadius : R := 1.5.

(** [checkCartCollisions]: the result is the returned boolean and the
    log of the calls of [onCartCollision] (the ids it was called with, in
    order). *)
Fixpoint checkCartCollisions (pr : Props) (newPos : Vector3)
  (allCartPositions : PosMap) : bool * list string :=
  match allCartPositions with
  | [] => (false, [])
  | (otherId, otherPos) :: rest =>
      if negb (String.eqb otherId (cartId pr)) then
        let distance := dist2d (vx newPos) (vz newPos) (vx otherPos) (vz otherPos) in
        if Rltb distance collisionRadius
        then (true, if onCartCollision pr then [otherId] else [])
        else checkCartCollisions pr newPos rest
      else checkCartCollisions pr newPos rest
  end.

(** ** Rule-based steering *)

Record Keys := mkKeys {
  forward : bool;
  backward : bool;
  left : bool;
  right : bool
}.

Definition lookaheadDistance (style : AiStyle) : R :=
  match style with aggressive => 8 | cautious => 12 | normal => 10 end.

Definition speedTarget (style : AiStyle) : R :=
  match style with aggressive => 0.35 | cautious => 0.25 | normal => 0.3 end.

Definition turnThreshold (style : AiStyle) : R :=
  match style with aggressive => 0.1 | cautious => 0.05 | normal => 0.08 end.

(** [while (angleDiff > Math.PI) angleDiff -= 2 * Math.PI]; every test of
    the loop condition costs one unit of fuel, and [None] is a loop that
    has not ended within the fuel. *)
Fixpoint whileAbove (fuel : nat) (angleDiff : R) : option R :=
  match fuel with
  | O => None
  | S fuel' =>
      if Rlt_dec PI angleDiff then whileAbove fuel' (angleDiff - 2 * PI)
      else Some angleDiff
  end.

(** [while (angleDiff < -Math.PI) angleDiff += 2 * Math.PI]. *)
Fixpoint whileBelow (fuel : nat) (angleDiff : R) : option R :=
  match fuel with
  | O => None
  | S fuel' =>
      if Rlt_dec angleDiff (- PI) then whileBelow fuel' (angleDiff + 2 * PI)
      else Some angleDiff
  end.

Definition normalizeWith (fuel : nat) (angleDiff : R) : option R :=
  match whileAbove fuel angleDiff with
  | None => None
  | Some a => whileBelow fuel a
  end.

(** Fuel that suffices for both loops (see [normalizeWith_enough]). *)
Definition loopFuel (angleDiff : R) : nat :=
  S (Z.to_nat (up (Rabs angleDiff / (2 * PI)))).

Definition normalizeAngle (angleDiff : R) : option R :=
  normalizeWith (loopFuel angleDiff) angleDiff.

(** The two lines of [getAIControls] before the normalisation:
    [let angleDiff = targetDirection - rotation]. *)
Definition angleDifference (targetDirection rotation : R) : option R :=
  normalizeAngle (targetDirection - rotation).

(** [Math.floor(lookaheadDistance / 3)], used as an index offset. *)
Definition lookaheadSteps (style : AiStyle) : nat :=
  Z.to_nat (floor (lookaheadDistance style / 3)).

(** The target selection of [getAIControls]: the argument of
    [setCurrentTrackIndex] when it is called, the index the final
    [targetPoint] is read at, and that point. *)
Record Targeting := mkTargeting {
  advancedIndex : option nat;
  targetIndex : nat;
  targetPoint : Vector3
}.

Definition aiTarget (pr : Props) (s : Cart) : option Targeting :=
  match nth_error (trackPoints pr) (currentTrackIndex s) with
  | None => None
  | Some firstTarget =>
      let distanceToTarget :=
        dist2d (vx firstTarget) (vz firstTarget)
               (vx (position s)) (vz (position s)) in
      let n := List.length (trackPoints pr) in
      let idx :=
        ((currentTrackIndex s + lookaheadSteps (aiStyle pr)) mod n)%nat in
      match nth_error (trackPoints pr) idx with
      | None => None
      | Some tp =>
          Some (mkTargeting
                  (if Rltb distanceToTarget 3
                   then Some ((currentTrackIndex s + 1) mod n)%nat
                   else None)
                  idx tp)
      end
  end.

Definition noKeys : Keys := mkKeys false false false false.

Definition getAIControls (pr : Props) (s c : Cart) : option (Keys * Cart) :=
  if isPlayer pr then Some (noKeys, c) else
  match aiTarget pr s with
  | None => None
  | Some tg =>
      let c := match advancedIndex tg with
               | Some i => setCurrentTrackIndex i c
               | None => c
               end in
      let targetDirection :=
        atan2 (vx (targetPoint tg) - vx (position s))
              (vz (targetPoint tg) - vz (position s)) in
      match angleDifference targetDirection (rotation s) with
      | None => None
      | Some angleDiff =>
          let needsForward := Rltb (velocity s) (speedTarget (aiStyle pr)) in
          let needsLeft := Rltb (turnThreshold (aiStyle pr)) angleDiff in
          let needsRight := Rltb angleDiff (- turnThreshold (aiStyle pr)) in
          Some (mkKeys needsForward false needsLeft needsRight, c)
      end
  end.

(** ** The frame update *)

Definition maxSpeed : R := 0.4.
Definition acceleration : R := 0.8.
Definition deceleration : R := 1.2.
Definition friction : R := 0.96.
Definition maxTurnSpeed : R := 0.08.
Definition turnAcceleration : R := 0.15.
Definition turnFriction : R := 0.9.

(** "Handle acceleration/deceleration" and "Apply friction". *)
Definition updateVelocity (controls : Keys) (delta velocity : R) : R :=
  (if forward controls then Rmin maxSpeed (velocity + acceleration * delta)
   else if backward controls
        then Rmax (- maxSpeed * 0.6) (velocity - deceleration * delta)
   else if Rlt_dec 0 velocity
        then Rmax 0 (velocity - deceleration * delta)
        else Rmin 0 (velocity + deceleration * delta))
  * friction.

(** "Handle turning with speed-dependent responsiveness". *)
Definition updateAngularVelocity (controls : Keys) (delta newVelocity w : R) : R :=
  let speedFactor := Rabs newVelocity / maxSpeed in
  let effectiveTurnSpeed := maxTurnSpeed * speedFactor in
  if left controls
  then Rmin effectiveTurnSpeed (w + turnAcceleration * delta)
  else if right controls
       then Rmax (- effectiveTurnSpeed) (w - turnAcceleration * delta)
       else w * turnFriction.

(** The locals of [useFrame] up to the wall check. *)
Record Motion := mkMotion {
  newVelocity : R;
  newAngularVelocity : R;
  newRotation : R;
  tentativePosition : Vector3
}.

Definition motion (controls : Keys) (delta : R) (s : Cart) : Motion :=
  let v := updateVelocity controls delta (velocity s) in
  let w := updateAngularVelocity controls delta v (angularVelocity s) in
  let r := rotation s + w in
  mkMotion v w r
    (mkVec (vx (position s) + sin r * v) (vy (position s))
           (vz (position s) + cos r * v)).

(** "Check for lap completion". *)
Definition checkpointOf (pr : Props) (index : nat) : Z :=
  let checkpointSize := INR (List.length (trackPoints pr)) / 4 in
  floor (INR index / checkpointSize).

Definition currentCheckpoint (pr : Props) (s : Cart) : Z :=
  checkpointOf pr (currentTrackIndex s).

Definition lapAccounting (pr : Props) (s c : Cart) : Cart :=
  let cp := currentCheckpoint pr s in
  if negb (cp =? lastCheckpoint s)%Z then
    let c := if ((cp =? 0)%Z && (lastCheckpoint s =? 3)%Z)%bool
             then setLaps (laps c + 1) c else c in
    setLastCheckpoint cp c
  else c.

(** [const controls = isPlayer ? keys : getAIControls()], with the state
    updates [getAIControls] has queued. *)
Definition frameControls (pr : Props) (keys : Keys) (s : Cart)
  : option (Keys * Cart) :=
  if isPlayer pr then Some (keys, s) else getAIControls pr s s.

(** What one call of the [useFrame] callback leaves behind: the cart's
    state after the re-render, the shared map, and the ids
    [onCartCollision] was called with.  The writes to the scene graph
    ([groupRef.current]) and the [onPositionChange] / [onStatsUpdate]
    callbacks feed the renderer and are not part of the result. *)
Record FrameResult := mkFrameResult {
  cart : Cart;
  positions : PosMap;
  signalled : list string
}.

(** The countdown of the pause and the stun: [setT(prev => ...)] with
    [setFlag(false)] when the new time is not positive. *)
Definition countdown (delta prev : R) : R := Rmax 0 (prev - delta).

Definition useFrame (pr : Props) (mounted : bool) (keys : Keys) (delta : R)
  (s : Cart) (m : PosMap) : option FrameResult :=
  if negb mounted then Some (mkFrameResult s m []) else
  if isPaused s then
    let newTime := countdown delta (pauseTimeLeft s) in
    let c := if Rleb newTime 0 then setIsPaused false s else s in
    Some (mkFrameResult (setPauseTimeLeft newTime c) m [])
  else if isStunned s then
    let newTime := countdown delta (stunTimeLeft s) in
    let c := if Rleb newTime 0 then setIsStunned false s else s in
    Some (mkFrameResult (setStunTimeLeft newTime c) m [])
  else
    match frameControls pr keys s with
    | None => None
    | Some (controls, c) =>
        let mo := motion controls delta s in
        let tentative := tentativePosition mo in
        match isPositionValid (trackPoints pr) (vx tentative) (vz tentative) with
        | None => None
        | Some false =>
            match resetToTrackCenter pr s c with
            | None => None
            | Some c => Some (mkFrameResult c m [])
            end
        | Some true =>
            let (hit, sig) := checkCartCollisions pr tentative m in
            let moved := if hit then position s else tentative in
            let trackHeight :=
              getTrackHeightAt (trackPoints pr) (vx moved) (vz moved) in
            let newPosition := mkVec (vx moved) (trackHeight + 0.5) (vz moved) in
            let c := setPosition newPosition c in
            let c := setRotation (newRotation mo) c in
            let c := setVelocity (newVelocity mo) c in
            let c := setAngularVelocity (newAngularVelocity mo) c in
            let m := mapSet (cartId pr) newPosition m in
            Some (mkFrameResult (lapAccounting pr s c) m sig)
        end
    end.

(** * Vocabulary of the statements *)

(** Which way a call of [useFrame] goes: the early returns of the source
    in order, [Raises] for a read of an absent track point, and [Drives]
    for a frame that runs to the end. *)
Inductive FrameKind :=
  Unmounted | PausedFrame | StunnedFrame | Raises | WallHit | Drives.

Definition frameKind (pr : Props) (mounted : bool) (keys : Keys) (delta : R)
  (s : Cart) : FrameKind :=
  if negb mounted then Unmounted else
  if isPaused s then PausedFrame else
  if isStunned s then StunnedFrame else
  match frameControls pr keys s with
  | None => Raises
  | Some (controls, _) =>
      let tentative := tentativePosition (motion controls delta s) in
      match isPositionValid (trackPoints pr) (vx tentative) (vz tentative) with
      | None => Raises
      | Some false => WallHit
      | Some true => Drives
      end
  end.

(** An entry of the map the scan reports: another cart's, within the
    radius of [newPos]. *)
Definition inRadius (pr : Props) (newPos : Vector3) (e : string * Vector3) : Prop :=
  fst e <> cartId pr
  /\ dist2d (vx newPos) (vz newPos) (vx (snd e)) (vz (snd e)) < 1.5.

Definition notOwn (pr : Props) (e : string * Vector3) : bool :=
  negb (String.eqb (fst e) (cartId pr)).

(** The horizontal distance from the point [(x, z)] to a track point, as
    the nearest-point loops compute it. *)
Definition distTo (x z : R) (p : Vector3) : R := dist2d (vx p) (vz p) x z.

(** [i] is the index of the track point nearest to [(x, z)], and the
    lowest such index: no point is nearer and every earlier point is
    strictly farther. *)
Definition nearestAt (track : list Vector3) (x z : R) (i : nat) (p : Vector3)
  : Prop :=
  nth_error track i = Some p
  /\ forall j q, nth_error track j = Some q ->
       distTo x z p <= distTo x z q
       /\ ((j < i)%nat -> distTo x z p < distTo x z q).

(** The state of the scan after the points of [pre]. *)
Definition scanned (x z : R) (pre : list Vector3) (acc : Closest) : Prop :=
  (pre = [] /\ closestDistance acc = None)
  \/ exists p,
       closestDistance acc = Some (distTo x z p)
       /\ closestTrackPoint acc = Some p
       /\ nearestAt pre x z (closestIndex acc) p.

(** The accounting of a frame that finds the cart on track index [i],
    and of a run of such frames. *)
Definition observeIndex (pr : Props) (s : Cart) (i : nat) : Cart :=
  let s' := setCurrentTrackIndex i s in lapAccounting pr s' s'.

Definition observe (pr : Props) (indices : list nat) (s : Cart) : Cart :=
  fold_left (observeIndex pr) indices s.

(** The cart [s] after [k] hits that did not reset it. *)
Definition damaged (s : Cart) (k : nat) : Cart :=
  match k with
  | O => s
  | S _ =>
      mkCart (position s) (rotation s) 0 0 (currentTrackIndex s) (isPaused s)
        (pauseTimeLeft s) (hitPoints s - Z.of_nat k) true 0.1 (laps s)
        (wallHits s) (cartHits s + k) (lastCheckpoint s)
  end.

(** The laps a run of observed checkpoints adds, starting from the last
    recorded checkpoint [last]. *)
Fixpoint lapsOver (last : Z) (checkpoints : list Z) : nat :=
  match checkpoints with
  | [] => 0
  | cp :: rest =>
      ((if ((cp =? 0)%Z && (last =? 3)%Z)%bool then 1 else 0)
       + lapsOver cp rest)%nat
  end.

(** The velocity after [frames] frames of [forward] held down at 60
    frames a second, from rest: the velocity update of [useFrame] iterated. *)
Definition forwardKeys : Keys := mkKeys true false false false.

Definition accelerate (frames : nat) : R :=
  Nat.iter frames (updateVelocity forwardKeys (1 / 60)) 0.

(** What can happen to a cart between two renders: a frame (with the
    shared map as the other carts left it) or a hit by another cart. *)
Inductive Event :=
| FrameEvent (mounted : bool) (keys : Keys) (delta : R) (m : PosMap)
| DamageEvent.

Definition stepEvent (pr : Props) (e : Event) (s : Cart) : option Cart :=
  match e with
  | FrameEvent mounted keys delta m =>
      match useFrame pr mounted keys delta s m with
      | Some out => Some (cart out)
      | None => None
      end
  | DamageEvent => Some (applyDamage pr s)
  end.

Definition hitsWall (pr : Props) (e : Event) (s : Cart) : Prop :=
  match e with
  | FrameEvent mounted keys delta _ =>
      frameKind pr mounted keys delta s = WallHit
  | DamageEvent => False
  end.

(** The states a cart reaches from its initial state without a wall hit. *)
Inductive reachesWithoutWall (pr : Props) : Cart -> Prop :=
| reaches_initial : reachesWithoutWall pr (initialCart pr)
| reaches_step (s s' : Cart) (e : Event) :
    reachesWithoutWall pr s ->
    ~ hitsWall pr e s ->
    stepEvent pr e s = Some s' ->
    reachesWithoutWall pr s'.

(** * A small scenario

    A four-point track along the x axis (height 1 everywhere), a player
    cart and an aggressive AI cart on it.  The statements below are
    evaluated on it. *)

Definition demoTrack : list Vector3 :=
  [mkVec 0 1 0; mkVec 10 1 0; mkVec 20 1 0; mkVec 30 1 0].

Definition demoPlayer : Props :=
  mkProps demoTrack true normal "player" true (mkVec 0 1 0).

Definition demoAI : Props :=
  mkProps demoTrack false aggressive "ai1" true (mkVec 0 1 0).

(** A cart at rest at [(x, 1.5, 0)], heading [PI / 2], on track index 0. *)
Definition restingAt (x : R) : Cart :=
  mkCart (mkVec x 1.5 0) (PI / 2) 0 0 0 false 0 10 false 0 0 0 0 (-1).

(** Goals about absolute values of linear expressions. *)
Ltac solve_abs :=
  repeat match goal with
         | |- context [Rabs ?x] => unfold Rabs at 1; destruct (Rcase_abs x)
         end;
  lra.

(** * The rest of the component file

    The code around the frame update: the keyboard hook, the bank angle
    handed to the renderer, the generated centerline and its boundary
    points, the follow camera, and the [Track] component that mounts the
    three carts on one shared position map. *)

(** ** [useKeyboardControls] *)

Inductive KeyboardEvent :=
| KeyDown (code : string)
| KeyUp (code : string).

(** [handleKeyDown]: the [switch] on [event.code], each case a
    [setKeys(prev => ({ ...prev, flag: true }))]. *)
Definition handleKeyDown (code : string) (prev : Keys) : Keys :=
  if String.eqb code "ArrowUp"
  then mkKeys true (backward prev) (left prev) (right prev)
  else if String.eqb code "ArrowDown"
  then mkKeys (forward prev) true (left prev) (right prev)
  else if String.eqb code "ArrowLeft"
  then mkKeys (forward prev) (backward prev) true (right prev)
  else if String.eqb code "ArrowRight"
  then mkKeys (forward prev) (backward prev) (left prev) true
  else prev.

Definition handleKeyUp (code : string) (prev : Keys) : Keys :=
  if String.eqb code "ArrowUp"
  then mkKeys false (backward prev) (left prev) (right prev)
  else if String.eqb code "ArrowDown"
  then mkKeys (forward prev) false (left prev) (right prev)
  else if String.eqb code "ArrowLeft"
  then mkKeys (forward prev) (backward prev) false (right prev)
  else if String.eqb code "ArrowRight"
  then mkKeys (forward prev) (backward prev) (left prev) false
  else prev.

Definition handleKeyboardEvent (prev : Keys) (e : KeyboardEvent) : Keys :=
  match e with
  | KeyDown code => handleKeyDown code prev
  | KeyUp code => handleKeyUp code prev
  end.

(** The [keys] the hook returns after the window has delivered [events],
    starting from the initial state of the [useState]. *)
Definition useKeyboardControls (events : list KeyboardEvent) : Keys :=
  fold_left handleKeyboardEvent events noKeys.

(** ** [getTrackSlope] *)

Definition sampleDistance : R := 1.0.

(** The heights sampled to the left and to the right of [(x, z)]. *)
Definition sampleHeights (track : list Vector3) (x z : R) (direction : Vector3)
  : R * R :=
  let normalizedDirection := normalize direction in
  let perpendicular :=
    mkVec (- vz normalizedDirection) 0 (vx normalizedDirection) in
  let leftX := x + vx perpendicular * sampleDistance in
  let leftZ := z + vz perpendicular * sampleDistance in
  let rightX := x - vx perpendicular * sampleDistance in
  let rightZ := z - vz perpendicular * sampleDistance in
  (getTrackHeightAt track leftX leftZ, getTrackHeightAt track rightX rightZ).

(** The result is the pair [(pitchX, pitchZ)]. *)
Definition getTrackSlope (track : list Vector3) (x z : R) (direction : Vector3)
  : R * R :=
  let (leftHeight, rightHeight) := sampleHeights track x z direction in
  let bankDiff := rightHeight - leftHeight in
  let roll := atan2 bankDiff (sampleDistance * 2) in
  let clampedRoll := Rmax (- PI / 4) (Rmin (PI / 4) roll) in
  (0, clampedRoll).

(** ** [createTrackPath] and [createTrackGeometry] *)

Definition radiusX : R := 45.
Definition radiusZ : R := 30.
Definition numPoints : nat := 32.

(** The body of the loop of [createTrackPath] for index [i]. *)
Definition trackPathPoint (i : nat) : Vector3 :=
  let angle := INR i / INR numPoints * PI * 2 in
  let x := cos angle * radiusX in
  let z := sin angle * radiusZ in
  let heightVariation1 := sin (angle * 2) * 2 in
  let heightVariation2 := cos (angle * 3) * 1.5 in
  let heightVariation3 := sin (angle * 5) * 0.8 in
  let totalHeight := Rmax 0 (heightVariation1 + heightVariation2 + heightVariation3) in
  mkVec x totalHeight z.

Definition createTrackPath : list Vector3 :=
  map trackPathPoint (seq 0 numPoints).

(** The body of the [forEach] of [createTrackGeometry]: the inner and the
    outer boundary point at [point], whose index is [index]. *)
Definition boundaryAt (track : list Vector3) (index : nat) (point : Vector3)
  : option (Vector3 * Vector3) :=
  let nextIndex := ((index + 1) mod List.length track)%nat in
  match nth_error track nextIndex with
  | None => None
  | Some nextPoint =>
      let direction := normalize (subVectors nextPoint point) in
      let perpendicular := mkVec (- vz direction) 0 (vx direction) in
      Some (addVec point (multiplyScalar perpendicular (- trackWidth / 2)),
            addVec point (multiplyScalar perpendicular (trackWidth / 2)))
  end.

(** The [forEach] from index [index] on, pushing onto [innerPoints] and
    [outerPoints]. *)
Fixpoint boundaryLoop (track pts : list Vector3) (index : nat)
  (innerPoints outerPoints : list Vector3)
  : option (list Vector3 * list Vector3) :=
  match pts with
  | [] => Some (innerPoints, outerPoints)
  | point :: rest =>
      match boundaryAt track index point with
      | None => None
      | Some (innerPoint, outerPoint) =>
          boundaryLoop track rest (S index)
            (innerPoints ++ [innerPoint]) (outerPoints ++ [outerPoint])
      end
  end.

Definition createTrackGeometry (track : list Vector3)
  : option (list Vector3 * list Vector3) :=
  boundaryLoop track track 0 [] [].

(** ** [CameraController] *)

Definition cameraDistance : R := 8.
Definition cameraHeight : R := 4.

(** The argument of [camera.position.set] in one frame, or [None] when the
    frame leaves the camera alone. *)
Definition cameraFrame (cartPosition : Vector3) (cartRotation : R)
  (isOverview : bool) : option Vector3 :=
  if negb isOverview then
    let cameraX := vx cartPosition - sin cartRotation * cameraDistance in
    let cameraZ := vz cartPosition - cos cartRotation * cameraDistance in
    Some (mkVec cameraX (vy cartPosition + cameraHeight) cameraZ)
  else None.

(** ** [Track]: the carts on the shared map *)

(** [Map.prototype.get]. *)
Fixpoint mapGet {A : Type} (k : string) (m : list (string * A)) : option A :=
  match m with
  | [] => None
  | (k', v) :: rest => if String.eqb k' k then Some v else mapGet k rest
  end.

(** An entry of [cartRefs]: the [takeDamage] of the stored object, if it
    has one, as a change of the carts' states. *)
Definition CartRef := option (list Cart -> list Cart).

Definition handleCartCollision (cartRefs : list (string * CartRef))
  (targetCartId : string) (carts : list Cart) : list Cart :=
  match mapGet targetCartId cartRefs with
  | Some (Some takeDamageOf) => takeDamageOf carts
  | _ => carts
  end.

(** [cartRefs] is created empty ([useRef(new Map())]) and nothing in the
    file writes to it. *)
Definition trackCartRefs : list (string * CartRef) := [].

Definition playerProps : Props :=
  mkProps createTrackPath true normal "player" true (mkVec 45 1.0 0).
Definition ai1Props : Props :=
  mkProps createTrackPath false aggressive "ai1" true (mkVec 45 1.0 (-4.95)).
Definition ai2Props : Props :=
  mkProps createTrackPath false cautious "ai2" true (mkVec 45 1.0 4.95).

(** The three [GoCart] elements of [Track], in the order they are mounted. *)
Definition roster : list Props := [playerProps; ai1Props; ai2Props].

Fixpoint replaceNth {A : Type} (i : nat) (v : A) (l : list A) : list A :=
  match l, i with
  | [], _ => []
  | _ :: rest, O => v :: rest
  | x :: rest, S i' => x :: replaceNth i' v rest
  end.

(** One rendered frame of [Track]: the [useFrame] callbacks of the carts
    run one after the other on the shared map; every id a cart signals
    goes through [handleCartCollision].  [mounted i] tells whether cart
    [i] has its scene node, [keys] is the keyboard state. *)
Fixpoint tickCarts (todo : list (nat * Props)) (mounted : nat -> bool)
  (keys : Keys) (delta : R) (carts : list Cart) (m : PosMap)
  : option (list Cart * PosMap) :=
  match todo with
  | [] => Some (carts, m)
  | (i, pr) :: rest =>
      match nth_error carts i with
      | None => None
      | Some s =>
          match useFrame pr (mounted i) keys delta s m with
          | None => None
          | Some out =>
              let carts := replaceNth i (cart out) carts in
              let carts :=
                fold_left (fun cs id => handleCartCollision trackCartRefs id cs)
                          (signalled out) carts in
              tickCarts rest mounted keys delta carts (positions out)
          end
      end
  end.

Definition tick (mounted : nat -> bool) (keys : Keys) (delta : R)
  (race : list Cart * PosMap) : option (list Cart * PosMap) :=
  tickCarts (combine (seq 0 (List.length roster)) roster) mounted keys delta
    (fst race) (snd race).

(** The race as [Track] mounts it: every cart in its initial state, the
    map empty. *)
Definition initialRace : list Cart * PosMap := (map initialCart roster, []).

(** * Vocabulary of the further statements *)

(** Whether the key [code] is down after [events]: its last event
    decides, and it starts up. *)
Fixpoint heldAfter (code : string) (held : bool) (events : list KeyboardEvent)
  : bool :=
  match events with
  | [] => held
  | KeyDown c :: rest => heldAfter code (if String.eqb c code then true else held) rest
  | KeyUp c :: rest => heldAfter code (if String.eqb c code then false else held) rest
  end.

(** An event whose time step is not negative. *)
Definition timeAdvances (e : Event) : Prop :=
  match e with
  | FrameEvent _ _ delta _ => 0 <= delta
  | DamageEvent => True
  end.

(** The states a cart reaches from its initial state by frames (with the
    map in any state the other carts left it in) and hits. *)
Inductive reachable (pr : Props) : Cart -> Prop :=
| reachable_initial : reachable pr (initialCart pr)
| reachable_step (s s' : Cart) (e : Event) :
    reachable pr s ->
    timeAdvances e ->
    stepEvent pr e s = Some s' ->
    reachable pr s'.

Fixpoint runEvents (pr : Props) (events : list Event) (s : Cart) : option Cart :=
  match events with
  | [] => Some s
  | e :: rest =>
      match stepEvent pr e s with
      | Some s' => runEvents pr rest s'
      | None => None
      end
  end.

(** A frame of a mounted cart with time step [delta]. *)
Definition frameOf (delta : R) (e : Event) : Prop :=
  exists keys m, e = FrameEvent true keys delta m.

(** The races [Track] reaches from [initialRace], frame by frame. *)
Inductive raceReachable : list Cart * PosMap -> Prop :=
| race_initial : raceReachable initialRace
| race_tick (race race' : list Cart * PosMap) (mounted : nat -> bool)
    (keys : Keys) (delta : R) :
    raceReachable race ->
    0 <= delta ->
    tick mounted keys delta race = Some race' ->
    raceReachable race'.

(** A cart of the race that no hit has ever reached. *)
Definition unharmed (pr : Props) (c : Cart) : Prop :=
  reachable pr c
  /\ hitPoints c = 10%Z /\ cartHits c = 0%nat
  /\ isStunned c = false /\ stunTimeLeft c = 0.

(** The shapes of one step of a cart, read off the branches of
    [useFrame] and [takeDamage]: the state [s'] that follows [s]. *)
Definition pausedStep (s s' : Cart) : Prop :=
  isPaused s = true
  /\ exists delta,
       0 <= delta
       /\ s' = setPauseTimeLeft (countdown delta (pauseTimeLeft s))
                 (if Rleb (countdown delta (pauseTimeLeft s)) 0
                  then setIsPaused false s else s).

Definition stunnedStep (s s' : Cart) : Prop :=
  isPaused s = false /\ isStunned s = true
  /\ exists delta,
       0 <= delta
       /\ s' = setStunTimeLeft (countdown delta (stunTimeLeft s))
                 (if Rleb (countdown delta (stunTimeLeft s)) 0
                  then setIsStunned false s else s).

Definition wallStep (pr : Props) (s s' : Cart) : Prop :=
  isPaused s = false /\ isStunned s = false
  /\ exists closest nextPoint,
       let i := closestIndex (findClosest (trackPoints pr)
                                (vx (position s)) (vz (position s))) in
       nearestAt (trackPoints pr) (vx (position s)) (vz (position s)) i closest
       /\ s' = mkCart
                 (mkVec (vx closest)
                    (getTrackHeightAt (trackPoints pr) (vx closest) (vz closest)
                     + 0.5)
                    (vz closest))
                 (atan2 (vx nextPoint - vx closest) (vz nextPoint - vz closest))
                 0 0 i true 3.0 (hitPoints s) (isStunned s) (stunTimeLeft s)
                 (laps s) (wallHits s + 1) (cartHits s) (lastCheckpoint s).

Definition driveStep (pr : Props) (s s' : Cart) : Prop :=
  isPaused s = false /\ isStunned s = false
  /\ exists keys delta controls c0 (hit : bool),
       0 <= delta
       /\ frameControls pr keys s = Some (controls, c0)
       /\ isPositionValid (trackPoints pr)
            (vx (tentativePosition (motion controls delta s)))
            (vz (tentativePosition (motion controls delta s))) = Some true
       /\ position s'
          = (let moved := if hit then position s
                          else tentativePosition (motion controls delta s) in
             mkVec (vx moved)
               (getTrackHeightAt (trackPoints pr) (vx moved) (vz moved) + 0.5)
               (vz moved))
       /\ velocity s' = updateVelocity controls delta (velocity s)
       /\ angularVelocity s'
          = updateAngularVelocity controls delta (velocity s') (angularVelocity s)
       /\ rotation s' = rotation s + angularVelocity s'
       /\ currentTrackIndex s' = currentTrackIndex c0
       /\ isPaused s' = false /\ pauseTimeLeft s' = pauseTimeLeft s
       /\ isStunned s' = false /\ stunTimeLeft s' = stunTimeLeft s
       /\ hitPoints s' = hitPoints s
       /\ wallHits s' = wallHits s
       /\ cartHits s' = cartHits s
       /\ laps s' = laps (lapAccounting pr s s)
       /\ lastCheckpoint s' = lastCheckpoint (lapAccounting pr s s).

Definition hitStep (pr : Props) (s s' : Cart) : Prop :=
  ((1 < hitPoints s)%Z
   /\ s' = mkCart (position s) (rotation s) 0 0 (currentTrackIndex s) (isPaused s)
             (pauseTimeLeft s) (hitPoints s - 1) true 0.1 (laps s) (wallHits s)
             (cartHits s + 1) (lastCheckpoint s))
  \/ ((hitPoints s <= 1)%Z
      /\ s' = mkCart (startPosition pr) (PI / 2) 0 0 0 false 0 10 false 0 (laps s)
                (wallHits s) (cartHits s + 1) (-1)).

(** A state the scenario's player reaches: the initial state after one hit. *)
Definition demoHitOnce : Cart := applyDamage demoPlayer (initialCart demoPlayer).

(** A cart just reset by a wall hit at track point 0 of the scenario, and
    one just stunned by a hit. *)
Definition demoPaused : Cart :=
  mkCart (mkVec 0 1.5 0) 0 0 0 0 true 3.0 10 false 0 0 1 0 (-1).
Definition demoStunned : Cart :=
  mkCart (mkVec 0 1.5 0) 0 0 0 0 false 0 9 true 0.1 0 0 1 (-1).
Definition demoTick (delta : R) : Event := FrameEvent true noKeys delta [].

(** The velocity after [frames] frames of length [delta] with [forward]
    held down, from rest. *)
Definition accelerateWith (delta : R) (frames : nat) : R :=
  Nat.iter frames (updateVelocity forwardKeys delta) 0.

(** A cart of the scenario on the axis of the track, at [(x, 1.5, 0)],
    with heading [r], velocity [v] and angular velocity [w]. *)
Definition movingAt (x r v w : R) : Cart :=
  mkCart (mkVec x 1.5 0) r v w 0 false 0 10 false 0 0 0 0 (-1).

(** The shared map with another cart one unit ahead of track point 0. *)
Definition demoOther : PosMap := [("ai1"%string, mkVec 1 1.5 0)].

Definition forwardLeftKeys : Keys := mkKeys true false true false.

(** The frames of a mounted cart with [forward] held down at 60 frames a
    second, one for each state of the shared map in [maps]. *)
Definition forwardFrames (maps : list PosMap) : list Event :=
  map (FrameEvent true forwardKeys (1 / 60)) maps.

(** The player of the scenario [k] frames into a straight run from track
    point 0 with [forward] held down: on the axis of the track, heading
    along it, no wall hit so far. *)
Definition cruising (k : nat) (s : Cart) : Prop :=
  vz (position s) = 0
  /\ 0 <= vx (position s) <= 0.32 * INR k
  /\ rotation s = PI / 2
  /\ angularVelocity s = 0
  /\ velocity s = accelerate k
  /\ isPaused s = false /\ isStunned s = false
  /\ wallHits s = 0%nat.
(** * Properties *)

(** ** Comparisons *)

Lemma Rltb_true (a b : R) : Rltb a b = true <-> a < b.
Proof. unfold Rltb; destruct (Rlt_dec a b); split; intros; try easy; lra. Qed.

Lemma Rltb_false (a b : R) : Rltb a b = false <-> ~ a < b.
Proof. unfold Rltb; destruct (Rlt_dec a b); split; intros; try easy; lra. Qed.

Lemma Rleb_true (a b : R) : Rleb a b = true <-> a <= b.
Proof. unfold Rleb; destruct (Rle_dec a b); split; intros; try easy; lra. Qed.

Lemma Rleb_false (a b : R) : Rleb a b = false <-> ~ a <= b.
Proof. unfold Rleb; destruct (Rle_dec a b); split; intros; try easy; lra. Qed.

Lemma dist2d_nonneg (ax az x z : R) : 0 <= dist2d ax az x z.
Proof. unfold dist2d; apply sqrt_pos. Qed.

Lemma dist2d_same (x z : R) : dist2d x z x z = 0.
Proof.
  unfold dist2d.
  replace ((x - x) ^ 2 + (z - z) ^ 2) with 0 by ring.
  apply sqrt_0.
Qed.

(** ** The collision scan *)

Lemma checkCartCollisions_cons (pr : Props) (newPos : Vector3)
  (e : string * Vector3) (m : PosMap) :
  (inRadius pr newPos e ->
   checkCartCollisions pr newPos (e :: m)
   = (true, if onCartCollision pr then [fst e] else []))
  /\ (~ inRadius pr newPos e ->
      checkCartCollisions pr newPos (e :: m) = checkCartCollisions pr newPos m).
Proof.
  destruct e as [otherId otherPos]; unfold inRadius; simpl.
  destruct (String.eqb_spec otherId (cartId pr)) as [E | E]; simpl.
  - split; [intros [H _]; contradiction | reflexivity].
  - unfold collisionRadius.
    destruct (Rltb _ 1.5) eqn:L.
    + split; [reflexivity | ].
      apply Rltb_true in L. intros H; exfalso; apply H; split; assumption.
    + apply Rltb_false in L.
      split; [intros [_ H]; contradiction | reflexivity].
Qed.

Lemma inRadius_dec (pr : Props) (newPos : Vector3) (e : string * Vector3) :
  inRadius pr newPos e \/ ~ inRadius pr newPos e.
Proof.
  unfold inRadius.
  destruct (string_dec (fst e) (cartId pr)) as [E | E].
  - right; intros [H _]; contradiction.
  - destruct (Rlt_dec (dist2d (vx newPos) (vz newPos) (vx (snd e)) (vz (snd e))) 1.5).
    + left; split; assumption.
    + right; intros [_ H]; contradiction.
Qed.

(** The scan stops at the first entry in the radius: the map splits
    around it, nothing before it is in the radius, and the callback log
    holds that entry's id and nothing else. *)
Lemma checkCartCollisions_first (pr : Props) (newPos : Vector3) (m : PosMap) :
  (exists pre e post,
      m = pre ++ e :: post
      /\ inRadius pr newPos e
      /\ (forall e', In e' pre -> ~ inRadius pr newPos e')
      /\ checkCartCollisions pr newPos m
         = (true, if onCartCollision pr then [fst e] else []))
  \/ ((forall e', In e' m -> ~ inRadius pr newPos e')
      /\ checkCartCollisions pr newPos m = (false, [])).
Proof.
  induction m as [| e m IH].
  - right; split; [intros e' [] | reflexivity].
  - destruct (checkCartCollisions_cons pr newPos e m) as [Hin Hout].
    destruct (inRadius_dec pr newPos e) as [H | H].
    + left; exists [], e, m.
      split; [reflexivity |]. split; [exact H |]. split; [intros e' [] | exact (Hin H)].
    + rewrite (Hout H).
      destruct IH as [(pre & e0 & post & -> & He0 & Hpre & Hres) | [Hnone Hres]].
      * left; exists (e :: pre), e0, post.
        split; [reflexivity |]. split; [exact He0 |]. split; [| exact Hres].
        intros e' [<- | Hi]; [exact H | exact (Hpre e' Hi)].
      * right; split; [| exact Hres].
        intros e' [<- | Hi]; [exact H | exact (Hnone e' Hi)].
Qed.

Lemma checkCartCollisions_filter (pr : Props) (newPos : Vector3) (m : PosMap) :
  checkCartCollisions pr newPos (filter (notOwn pr) m)
  = checkCartCollisions pr newPos m.
Proof.
  induction m as [| [otherId otherPos] m IH]; [reflexivity |].
  simpl; unfold notOwn at 1; simpl.
  destruct (negb (otherId =? cartId pr)%string) eqn:E; [| exact IH].
  simpl; rewrite E, IH; reflexivity.
Qed.

(** C1. [checkCartCollisions] returns true exactly when the map holds an
    entry of another id whose horizontal distance to the tentative
    position is below 1.5.  Entries under the cart's own id are never
    compared (dropping them changes nothing), so another cart at the very
    same position (distance 0) is a collision.  The scan stops at the
    first entry in the radius: [onCartCollision] is called with that
    entry's id and with no other, at most once per call. *)
Theorem checkCartCollisions_correct (pr : Props) (newPos : Vector3) (m : PosMap) :
  let r := checkCartCollisions pr newPos m in
  (fst r = true <->
   exists otherId otherPos,
     In (otherId, otherPos) m
     /\ otherId <> cartId pr
     /\ dist2d (vx newPos) (vz newPos) (vx otherPos) (vz otherPos) < 1.5)
  /\ checkCartCollisions pr newPos (filter (notOwn pr) m) = r
  /\ (forall otherId otherPos,
        In (otherId, otherPos) m -> otherId <> cartId pr ->
        vx otherPos = vx newPos -> vz otherPos = vz newPos -> fst r = true)
  /\ ((exists pre e post,
          m = pre ++ e :: post
          /\ inRadius pr newPos e
          /\ (forall e', In e' pre -> ~ inRadius pr newPos e')
          /\ r = (true, if onCartCollision pr then [fst e] else []))
      \/ r = (false, []))
  /\ (List.length (snd r) <= 1)%nat.
Proof.
  intros r.
  assert (Hiff : fst r = true <->
                 exists otherId otherPos,
                   In (otherId, otherPos) m
                   /\ otherId <> cartId pr
                   /\ dist2d (vx newPos) (vz newPos) (vx otherPos) (vz otherPos) < 1.5).
  { subst r.
    destruct (checkCartCollisions_first pr newPos m)
      as [(pre & [id q] & post & -> & [Hid Hd] & _ & ->) | [Hnone ->]]; simpl in *.
    - split; [intros _ | reflexivity].
      exists id, q. split; [apply in_elt | split; assumption].
    - split; [discriminate |].
      intros (id & q & Hin & Hid & Hd).
      exfalso; apply (Hnone (id, q) Hin); split; assumption. }
  split; [exact Hiff |].
  split; [apply checkCartCollisions_filter |].
  split.
  { intros id q Hin Hid Hx Hz. apply Hiff. exists id, q.
    split; [exact Hin | split; [exact Hid |]].
    rewrite Hx, Hz, dist2d_same. lra. }
  subst r.
  destruct (checkCartCollisions_first pr newPos m)
    as [(pre & e & post & Hm & He & Hpre & Hr) | [Hnone Hr]]; rewrite Hr.
  - split.
    + left; exists pre, e, post. repeat split; try assumption; apply He.
    + simpl; destruct (onCartCollision pr); simpl; lia.
  - split; [right; reflexivity | simpl; lia].
Qed.

(** Two other carts on the very spot of the tentative position, behind the
    cart's own entry: the first of them is reported, and only it. *)
Example collision_at_same_place :
  checkCartCollisions demoPlayer (mkVec 0 1.5 0)
    [("player"%string, mkVec 0 1.5 0); ("ai1"%string, mkVec 0 1.5 0);
     ("ai2"%string, mkVec 0 1.5 0)]
  = (true, ["ai1"%string]).
Proof.
  destruct (checkCartCollisions_cons demoPlayer (mkVec 0 1.5 0)
              ("player"%string, mkVec 0 1.5 0)
              [("ai1"%string, mkVec 0 1.5 0); ("ai2"%string, mkVec 0 1.5 0)])
    as [_ Hskip].
  rewrite Hskip by (intros [H _]; apply H; reflexivity).
  destruct (checkCartCollisions_cons demoPlayer (mkVec 0 1.5 0)
              ("ai1"%string, mkVec 0 1.5 0) [("ai2"%string, mkVec 0 1.5 0)])
    as [Hhit _].
  rewrite Hhit; [reflexivity |].
  split; [discriminate |].
  cbn [snd vx vz]. rewrite dist2d_same. lra.
Qed.

(** ** The angle normalisation *)

Lemma whileAbove_enough (n : nat) :
  forall a, a <= PI + 2 * PI * INR n ->
  exists r k,
    (forall fuel, (S n <= fuel)%nat -> whileAbove fuel a = Some r)
    /\ r = a - 2 * PI * INR k
    /\ r <= PI
    /\ (a <= PI -> r = a)
    /\ (PI < a -> - PI < r).
Proof.
  induction n as [| n IH]; intros a Ha.
  - simpl in Ha. exists a, 0%nat.
    split; [| simpl; repeat split; intros; lra].
    intros [| fuel] Hf; [lia |]. simpl.
    destruct (Rlt_dec PI a); [lra | reflexivity].
  - destruct (Rlt_dec PI a) as [Hgt | Hle].
    + rewrite S_INR in Ha.
      destruct (IH (a - 2 * PI)) as (r & k & Hrun & Hk & Hr & Hsame & Hlow); [lra |].
      exists r, (S k). rewrite S_INR.
      split; [| split; [lra | split; [lra | split; [intros; lra |]]]].
      * intros [| fuel] Hf; [lia |]. simpl.
        destruct (Rlt_dec PI a); [| lra]. apply Hrun; lia.
      * intros _. destruct (Rlt_dec PI (a - 2 * PI)) as [H | H].
        -- apply Hlow, H.
        -- rewrite Hsame by lra. lra.
    + exists a, 0%nat.
      split; [| simpl; repeat split; intros; lra].
      intros [| fuel] Hf; [lia |]. simpl.
      destruct (Rlt_dec PI a); [lra | reflexivity].
Qed.

Lemma whileBelow_enough (n : nat) :
  forall a, - PI - 2 * PI * INR n <= a ->
  exists r k,
    (forall fuel, (S n <= fuel)%nat -> whileBelow fuel a = Some r)
    /\ r = a + 2 * PI * INR k
    /\ - PI <= r
    /\ (- PI <= a -> r = a)
    /\ (a < - PI -> r < PI).
Proof.
  induction n as [| n IH]; intros a Ha.
  - simpl in Ha. exists a, 0%nat.
    split; [| simpl; repeat split; intros; lra].
    intros [| fuel] Hf; [lia |]. simpl.
    destruct (Rlt_dec a (- PI)); [lra | reflexivity].
  - destruct (Rlt_dec a (- PI)) as [Hlt | Hge].
    + rewrite S_INR in Ha.
      destruct (IH (a + 2 * PI)) as (r & k & Hrun & Hk & Hr & Hsame & Hup); [lra |].
      exists r, (S k). rewrite S_INR.
      split; [| split; [lra | split; [lra | split; [intros; lra |]]]].
      * intros [| fuel] Hf; [lia |]. simpl.
        destruct (Rlt_dec a (- PI)); [| lra]. apply Hrun; lia.
      * intros _. destruct (Rlt_dec (a + 2 * PI) (- PI)) as [H | H].
        -- apply Hup, H.
        -- rewrite Hsame by lra. lra.
    + exists a, 0%nat.
      split; [| simpl; repeat split; intros; lra].
      intros [| fuel] Hf; [lia |]. simpl.
      destruct (Rlt_dec a (- PI)); [lra | reflexivity].
Qed.

Lemma loopFuel_bound (a : R) :
  exists n, loopFuel a = S n /\ Rabs a < 2 * PI * INR n.
Proof.
  unfold loopFuel. set (q := Rabs a / (2 * PI)).
  exists (Z.to_nat (up q)). split; [reflexivity |].
  pose proof PI_RGT_0 as Hpi.
  destruct (archimed q) as [Hup _].
  assert (Hq : 0 <= q).
  { unfold q. apply Rmult_le_pos; [apply Rabs_pos |].
    left; apply Rinv_0_lt_compat; lra. }
  assert (Hz : (0 <= up q)%Z).
  { apply le_IZR. lra. }
  rewrite INR_IZR_INZ, Z2Nat.id by exact Hz.
  assert (Ha : Rabs a = q * (2 * PI)).
  { unfold q. field. lra. }
  rewrite Ha. nra.
Qed.

(** Both loops end, within [loopFuel] tests each and with the same result
    for any larger fuel; the result differs from the input by a whole
    number of turns and lies between [-PI] and [PI], both included. *)
Lemma normalizeWith_enough (a : R) :
  exists r (k : Z),
    (forall fuel, (loopFuel a <= fuel)%nat -> normalizeWith fuel a = Some r)
    /\ r = a + 2 * PI * IZR k
    /\ - PI <= r <= PI.
Proof.
  destruct (loopFuel_bound a) as (n & Hn & Hb).
  pose proof PI_RGT_0 as Hpi.
  assert (Habs : - Rabs a <= a <= Rabs a).
  { split; [pose proof (Rle_abs (- a)) as H; rewrite Rabs_Ropp in H; lra
           | apply Rle_abs]. }
  destruct (whileAbove_enough n a) as (r1 & k1 & Hrun1 & Hk1 & Hr1 & Hsame1 & Hlow1);
    [lra |].
  assert (Hpre : - PI - 2 * PI * INR n <= r1).
  { destruct (Rlt_dec PI a) as [H | H].
    - specialize (Hlow1 H). pose proof (pos_INR n). nra.
    - rewrite Hsame1 by lra. lra. }
  destruct (whileBelow_enough n r1 Hpre) as (r2 & k2 & Hrun2 & Hk2 & Hr2 & Hsame2 & Hup2).
  exists r2, (Z.of_nat k2 - Z.of_nat k1)%Z.
  split; [| split].
  - intros fuel Hf. unfold normalizeWith.
    rewrite Hrun1 by lia. apply Hrun2; lia.
  - rewrite minus_IZR, <- !INR_IZR_INZ. lra.
  - split; [exact Hr2 |].
    destruct (Rlt_dec r1 (- PI)) as [H | H].
    + specialize (Hup2 H). lra.
    + rewrite Hsame2 by lra. exact Hr1.
Qed.

Lemma angleDifference_total (targetDirection rotation : R) :
  exists r, angleDifference targetDirection rotation = Some r.
Proof.
  destruct (normalizeWith_enough (targetDirection - rotation))
    as (r & _ & Hrun & _).
  exists r. unfold angleDifference, normalizeAngle. apply Hrun. lia.
Qed.

(** C6, as the code has it.  For every desired and current heading the
    two normalisation loops end (within [loopFuel] tests each, and any
    larger fuel gives the same result) and return the difference shifted
    by a whole number of turns into the closed interval from [-PI] to
    [PI].  The lower end is included: see [angleDifference_lower_end]. *)
Theorem angleDifference_range (targetDirection rotation : R) :
  exists r (k : Z),
    angleDifference targetDirection rotation = Some r
    /\ (forall fuel,
          (loopFuel (targetDirection - rotation) <= fuel)%nat ->
          normalizeWith fuel (targetDirection - rotation) = Some r)
    /\ r = targetDirection - rotation + 2 * PI * IZR k
    /\ - PI <= r <= PI.
Proof.
  destruct (normalizeWith_enough (targetDirection - rotation))
    as (r & k & Hrun & Hk & Hr).
  exists r, k. split; [| split; [exact Hrun | split; [exact Hk | exact Hr]]].
  unfold angleDifference, normalizeAngle. apply Hrun. lia.
Qed.

Lemma angleDifference_at_minus_pi : angleDifference 0 PI = Some (- PI).
Proof.
  unfold angleDifference, normalizeAngle.
  destruct (loopFuel_bound (0 - PI)) as (n & -> & _).
  pose proof PI_RGT_0 as Hpi.
  unfold normalizeWith; simpl.
  destruct (Rlt_dec PI (0 - PI)); [lra |].
  destruct (Rlt_dec (0 - PI) (- PI)); [lra |].
  f_equal; lra.
Qed.

(** C6, as the claim has it, fails: desired heading 0 against current
    heading [PI] gives the difference [-PI], which neither loop touches
    and which is not in the half-open interval. *)
Lemma angleDifference_lower_end :
  ~ (exists r, angleDifference 0 PI = Some r /\ - PI < r <= PI).
Proof.
  intros (r & Hr & Hlt & _).
  rewrite angleDifference_at_minus_pi in Hr.
  injection Hr as <-. lra.
Qed.

(** ** Damage *)

Lemma takeDamage_alive (pr : Props) (s : Cart) :
  (1 < hitPoints s)%Z ->
  takeDamage pr s s
  = (mkCart (position s) (rotation s) 0 0 (currentTrackIndex s) (isPaused s)
       (pauseTimeLeft s) (hitPoints s - 1) true 0.1 (laps s) (wallHits s)
       (cartHits s + 1) (lastCheckpoint s), false).
Proof.
  intros H. unfold takeDamage.
  destruct (Z.leb_spec (hitPoints s - 1) 0); [lia | reflexivity].
Qed.

Lemma takeDamage_fatal (pr : Props) (s : Cart) :
  (hitPoints s <= 1)%Z ->
  takeDamage pr s s
  = (mkCart (startPosition pr) (PI / 2) 0 0 0 false 0 10 false 0 (laps s)
       (wallHits s) (cartHits s + 1) (-1), true).
Proof.
  intros H. unfold takeDamage.
  destruct (Z.leb_spec (hitPoints s - 1) 0); [reflexivity | lia].
Qed.

Lemma damaged_succ (s : Cart) (k : nat) :
  mkCart (position (damaged s k)) (rotation (damaged s k)) 0 0
    (currentTrackIndex (damaged s k)) (isPaused (damaged s k))
    (pauseTimeLeft (damaged s k)) (hitPoints (damaged s k) - 1) true 0.1
    (laps (damaged s k)) (wallHits (damaged s k)) (cartHits (damaged s k) + 1)
    (lastCheckpoint (damaged s k))
  = damaged s (S k).
Proof.
  destruct k as [| k]; simpl.
  - reflexivity.
  - f_equal; lia.
Qed.

Lemma applyDamageTimes_snoc (pr : Props) (n : nat) :
  forall s,
    applyDamageTimes pr (S n) s
    = (fst (takeDamage pr (fst (applyDamageTimes pr n s))
              (fst (applyDamageTimes pr n s))),
       snd (applyDamageTimes pr n s)
       ++ [snd (takeDamage pr (fst (applyDamageTimes pr n s))
                  (fst (applyDamageTimes pr n s)))]).
Proof.
  induction n as [| n IH]; intros s.
  - simpl. destruct (takeDamage pr s s); reflexivity.
  - change (applyDamageTimes pr (S (S n)) s)
      with (let (s1, reset) := takeDamage pr s s in
            let (s2, log) := applyDamageTimes pr (S n) s1 in (s2, reset :: log)).
    change (applyDamageTimes pr (S n) s)
      with (let (s1, reset) := takeDamage pr s s in
            let (s2, log) := applyDamageTimes pr n s1 in (s2, reset :: log)).
    destruct (takeDamage pr s s) as [s1 reset].
    rewrite (IH s1).
    destruct (applyDamageTimes pr n s1) as [s2 log]. reflexivity.
Qed.

(** While hit points remain, [k] calls take [k] hit points and never
    reset. *)
Lemma applyDamageTimes_alive (pr : Props) (k : nat) :
  forall s,
    (Z.of_nat k < hitPoints s)%Z ->
    applyDamageTimes pr k s = (damaged s k, repeat false k).
Proof.
  induction k as [| k IH]; intros s Hk.
  - reflexivity.
  - rewrite applyDamageTimes_snoc, IH by lia.
    cbn [fst snd].
    assert (Hb : hitPoints (damaged s k) = (hitPoints s - Z.of_nat k)%Z).
    { destruct k; simpl; lia. }
    rewrite takeDamage_alive by lia.
    rewrite damaged_succ.
    f_equal. change (repeat false (S k)) with (false :: repeat false k).
    clear. induction k; simpl; [reflexivity | f_equal; assumption].
Qed.

(** C3.  Ten consecutive calls of [takeDamage] on a cart with 10 hit
    points invoke [resetToStart] once, on the tenth call, which leaves the
    hit points at 10, the cart at its start position with heading [PI / 2],
    both velocities 0, the pause and the stun cleared and the last
    checkpoint at -1.  Each of the first nine calls takes one hit point,
    sets the stun timer to 0.1, zeroes both velocities and counts one cart
    hit, without invoking [resetToStart] (position, heading, track index
    and last checkpoint stay as they were). *)
Theorem takeDamage_ten_times (pr : Props) (s : Cart) :
  hitPoints s = 10%Z ->
  snd (applyDamageTimes pr 10 s)
  = [false; false; false; false; false; false; false; false; false; true]
  /\ (let s10 := fst (applyDamageTimes pr 10 s) in
      hitPoints s10 = 10%Z
      /\ position s10 = startPosition pr
      /\ rotation s10 = PI / 2
      /\ velocity s10 = 0
      /\ angularVelocity s10 = 0
      /\ isPaused s10 = false
      /\ pauseTimeLeft s10 = 0
      /\ isStunned s10 = false
      /\ stunTimeLeft s10 = 0
      /\ lastCheckpoint s10 = (-1)%Z
      /\ cartHits s10 = (cartHits s + 10)%nat)
  /\ (forall k, (1 <= k <= 9)%nat ->
      let before := fst (applyDamageTimes pr (k - 1) s) in
      let after := fst (applyDamageTimes pr k s) in
      takeDamage pr before before = (after, false)
      /\ hitPoints before = (10 - Z.of_nat (k - 1))%Z
      /\ hitPoints after = (hitPoints before - 1)%Z
      /\ isStunned after = true
      /\ stunTimeLeft after = 0.1
      /\ velocity after = 0
      /\ angularVelocity after = 0
      /\ cartHits after = (cartHits before + 1)%nat
      /\ position after = position s
      /\ rotation after = rotation s
      /\ currentTrackIndex after = currentTrackIndex s
      /\ isPaused after = isPaused s
      /\ pauseTimeLeft after = pauseTimeLeft s
      /\ lastCheckpoint after = lastCheckpoint s).
Proof.
  intros Hhp.
  assert (Hk : forall k, (k <= 9)%nat ->
               applyDamageTimes pr k s = (damaged s k, repeat false k)).
  { intros k Hk. apply applyDamageTimes_alive. lia. }
  assert (H9 : hitPoints (damaged s 9) = 1%Z /\ cartHits (damaged s 9) = (cartHits s + 9)%nat).
  { simpl. split; lia. }
  destruct H9 as [H9 C9].
  assert (H10 : applyDamageTimes pr 10 s
                = (fst (takeDamage pr (damaged s 9) (damaged s 9)),
                   repeat false 9 ++ [true])).
  { rewrite (applyDamageTimes_snoc pr 9 s), (Hk 9%nat) by lia.
    cbn [fst snd].
    rewrite (takeDamage_fatal pr (damaged s 9)) by lia. reflexivity. }
  split; [rewrite H10; reflexivity |].
  split.
  { rewrite H10, (takeDamage_fatal pr (damaged s 9)) by lia.
    cbn [fst snd position rotation velocity angularVelocity hitPoints isPaused
           pauseTimeLeft isStunned stunTimeLeft lastCheckpoint cartHits].
    repeat (split; [reflexivity |]). lia. }
  intros k Hr. cbv zeta.
  rewrite (Hk k), (Hk (k - 1)%nat) by lia. cbn [fst snd].
  assert (Hb : hitPoints (damaged s (k - 1)) = (10 - Z.of_nat (k - 1))%Z).
  { destruct (k - 1)%nat; cbn [damaged hitPoints]; lia. }
  split.
  { rewrite takeDamage_alive by lia. rewrite damaged_succ.
    replace (S (k - 1)) with k by lia. reflexivity. }
  split; [exact Hb |].
  destruct k as [| k]; [lia |].
  split; [rewrite Hb; cbn [damaged hitPoints]; lia |].
  repeat (split; [reflexivity |]).
  split; [| repeat split; reflexivity].
  replace (S k - 1)%nat with k by lia.
  destruct k; cbn [damaged cartHits]; lia.
Qed.

Lemma takeDamage_ten_times_witness :
  snd (applyDamageTimes demoPlayer 10 (initialCart demoPlayer))
  = [false; false; false; false; false; false; false; false; false; true]
  /\ hitPoints (fst (applyDamageTimes demoPlayer 10 (initialCart demoPlayer)))
     = 10%Z.
Proof.
  destruct (takeDamage_ten_times demoPlayer (initialCart demoPlayer) eq_refl)
    as (Hlog & (Hhp & _) & _).
  split; [exact Hlog | exact Hhp].
Defined.

(** ** The nearest-point scan *)

Lemma scanned_step (x z : R) (pre : list Vector3) (acc : Closest) (point : Vector3) :
  scanned x z pre acc ->
  scanned x z (pre ++ [point])
    (if ltInf (dist2d (vx point) (vz point) x z) (closestDistance acc)
     then mkClosest (Some (dist2d (vx point) (vz point) x z)) (Some point)
            (List.length pre)
     else acc).
Proof.
  intros [[-> Hnone] | (p & Hd & Hp & Hnth & Hmin)]; right.
  - rewrite Hnone; simpl. exists point.
    split; [reflexivity |]. split; [reflexivity |]. split; [reflexivity |].
    intros [| j] q Hq; simpl in Hq.
    + injection Hq as <-. split; [lra | lia].
    + destruct j; discriminate.
  - rewrite Hd; simpl. fold (distTo x z point).
    assert (Hk : (closestIndex acc < List.length pre)%nat).
    { apply nth_error_Some. rewrite Hnth. discriminate. }
    assert (Hsplit : forall j q, nth_error (pre ++ [point]) j = Some q ->
                     ((j < List.length pre)%nat /\ nth_error pre j = Some q)
                     \/ (j = List.length pre /\ q = point)).
    { intros j q Hq. destruct (Nat.lt_ge_cases j (List.length pre)) as [Hj | Hj].
      - left. rewrite nth_error_app1 in Hq by exact Hj. auto.
      - right. rewrite nth_error_app2 in Hq by exact Hj.
        destruct (j - List.length pre)%nat as [| d] eqn:E; simpl in Hq.
        + injection Hq as <-. split; [lia | reflexivity].
        + destruct d; discriminate. }
    destruct (Rltb (distTo x z point) (distTo x z p)) eqn:L.
    + apply Rltb_true in L. exists point; simpl.
      split; [reflexivity |]. split; [reflexivity |]. split.
      * rewrite nth_error_app2 by lia. rewrite Nat.sub_diag. reflexivity.
      * intros j q Hq. destruct (Hsplit j q Hq) as [[Hj Hq'] | [-> ->]].
        -- destruct (Hmin j q Hq') as [Hle _]. split; intros; lra.
        -- split; [lra | lia].
    + apply Rltb_false in L. exists p.
      split; [exact Hd |]. split; [exact Hp |]. split.
      * rewrite nth_error_app1 by exact Hk. exact Hnth.
      * intros j q Hq. destruct (Hsplit j q Hq) as [[Hj Hq'] | [-> ->]].
        -- apply Hmin, Hq'.
        -- split; [lra | lia].
Qed.

Lemma closestLoop_scanned (x z : R) (pts : list Vector3) :
  forall pre acc,
    scanned x z pre acc ->
    scanned x z (pre ++ pts) (closestLoop x z pts (List.length pre) acc).
Proof.
  induction pts as [| point rest IH]; intros pre acc Hs; simpl.
  - rewrite app_nil_r. exact Hs.
  - pose proof (scanned_step x z pre acc point Hs) as Hs'.
    specialize (IH (pre ++ [point]) _ Hs').
    rewrite <- app_assoc in IH; simpl in IH.
    rewrite length_app in IH; simpl in IH.
    rewrite Nat.add_1_r in IH. exact IH.
Qed.

(** On a track that is not empty the scan ends on the nearest point,
    lowest index first. *)
Lemma findClosest_nearest (track : list Vector3) (x z : R) :
  track <> [] ->
  exists p,
    closestDistance (findClosest track x z) = Some (distTo x z p)
    /\ closestTrackPoint (findClosest track x z) = Some p
    /\ nearestAt track x z (closestIndex (findClosest track x z)) p.
Proof.
  intros Hne. unfold findClosest.
  pose proof (closestLoop_scanned x z track []
                (mkClosest None (nth_error track 0) 0)) as H.
  simpl in H.
  destruct H as [[-> _] | H]; [left; auto | | exact H].
  contradiction.
Qed.

Lemma findClosest_empty (x z : R) : closestTrackPoint (findClosest [] x z) = None.
Proof. reflexivity. Qed.

Lemma nextIndex_defined (track : list Vector3) (i : nat) :
  track <> [] ->
  exists q, nth_error track ((i + 1) mod List.length track)%nat = Some q.
Proof.
  intros Hne.
  destruct (nth_error track ((i + 1) mod List.length track)%nat) as [q |] eqn:E.
  - exists q; reflexivity.
  - apply nth_error_None in E.
    assert (List.length track <> 0)%nat by (destruct track; simpl; [contradiction | lia]).
    pose proof (Nat.mod_upper_bound (i + 1) (List.length track)). lia.
Qed.

(** ** The shape of a frame *)

Lemma isPositionValid_track (track : list Vector3) (x z : R) (b : bool) :
  isPositionValid track x z = Some b -> track <> [].
Proof. intros H ->. discriminate. Qed.

(** [getAIControls] changes nothing of the pending state but the track
    index. *)
Lemma frameControls_state (pr : Props) (keys : Keys) (s : Cart)
  (controls : Keys) (c0 : Cart) :
  frameControls pr keys s = Some (controls, c0) ->
  c0 = s \/ exists i, c0 = setCurrentTrackIndex i s.
Proof.
  unfold frameControls, getAIControls.
  destruct (isPlayer pr); [intros H; injection H as _ <-; left; reflexivity |].
  destruct (aiTarget pr s) as [tg |]; [| discriminate].
  destruct (angleDifference _ _); [| discriminate].
  intros H; injection H as _ <-.
  destruct (advancedIndex tg) as [i |]; [right; exists i | left]; reflexivity.
Qed.

Lemma frameControls_player (pr : Props) (keys : Keys) (s : Cart) :
  isPlayer pr = true -> frameControls pr keys s = Some (keys, s).
Proof. unfold frameControls; intros ->; reflexivity. Qed.

(** The wall recovery on a track that is not empty. *)
Lemma resetToTrackCenter_result (pr : Props) (s c : Cart) :
  trackPoints pr <> [] ->
  exists closest nextPoint,
    let i := closestIndex (findClosest (trackPoints pr)
                             (vx (position s)) (vz (position s))) in
    nearestAt (trackPoints pr) (vx (position s)) (vz (position s)) i closest
    /\ nth_error (trackPoints pr) ((i + 1) mod List.length (trackPoints pr))%nat
       = Some nextPoint
    /\ resetToTrackCenter pr s c
       = Some (mkCart
                 (mkVec (vx closest)
                    (getTrackHeightAt (trackPoints pr) (vx closest) (vz closest) + 0.5)
                    (vz closest))
                 (atan2 (vx nextPoint - vx closest) (vz nextPoint - vz closest))
                 0 0 i true 3.0 (hitPoints c) (isStunned c) (stunTimeLeft c)
                 (laps c) (wallHits c + 1) (cartHits c) (lastCheckpoint c)).
Proof.
  intros Hne.
  destruct (findClosest_nearest (trackPoints pr) (vx (position s)) (vz (position s)) Hne)
    as (closest & _ & Hp & Hnear).
  destruct (nextIndex_defined (trackPoints pr)
              (closestIndex (findClosest (trackPoints pr)
                               (vx (position s)) (vz (position s)))) Hne)
    as (nextPoint & Hnext).
  exists closest, nextPoint. cbv zeta.
  split; [exact Hnear |]. split; [exact Hnext |].
  unfold resetToTrackCenter. rewrite Hp, Hnext. reflexivity.
Qed.

Lemma frameKind_wallHit (pr : Props) (mounted : bool) (keys : Keys) (delta : R)
  (s : Cart) (m : PosMap) :
  frameKind pr mounted keys delta s = WallHit ->
  mounted = true /\ isPaused s = false /\ isStunned s = false
  /\ trackPoints pr <> []
  /\ exists controls c0,
       frameControls pr keys s = Some (controls, c0)
       /\ isPositionValid (trackPoints pr)
            (vx (tentativePosition (motion controls delta s)))
            (vz (tentativePosition (motion controls delta s))) = Some false
       /\ useFrame pr mounted keys delta s m
          = match resetToTrackCenter pr s c0 with
            | None => None
            | Some c => Some (mkFrameResult c m [])
            end.
Proof.
  unfold frameKind, useFrame.
  destruct mounted; cbn [negb]; [| discriminate].
  destruct (isPaused s); [discriminate |].
  destruct (isStunned s); [discriminate |].
  destruct (frameControls pr keys s) as [[controls c0] |]; [| discriminate].
  cbv zeta.
  destruct (isPositionValid _ _ _) as [[|] |] eqn:V; try discriminate.
  intros _. repeat (split; [reflexivity |]).
  split; [exact (isPositionValid_track _ _ _ _ V) |].
  exists controls, c0. split; [reflexivity |]. split; [exact V | reflexivity].
Qed.

Lemma frameKind_drives (pr : Props) (mounted : bool) (keys : Keys) (delta : R)
  (s : Cart) (m : PosMap) :
  frameKind pr mounted keys delta s = Drives ->
  mounted = true /\ isPaused s = false /\ isStunned s = false
  /\ exists controls c0,
       frameControls pr keys s = Some (controls, c0)
       /\ let mo := motion controls delta s in
          let scan := checkCartCollisions pr (tentativePosition mo) m in
          let moved := if fst scan then position s else tentativePosition mo in
          let newPosition :=
            mkVec (vx moved)
              (getTrackHeightAt (trackPoints pr) (vx moved) (vz moved) + 0.5)
              (vz moved) in
          isPositionValid (trackPoints pr)
            (vx (tentativePosition mo)) (vz (tentativePosition mo)) = Some true
          /\ useFrame pr mounted keys delta s m
             = Some (mkFrameResult
                       (lapAccounting pr s
                          (setAngularVelocity (newAngularVelocity mo)
                             (setVelocity (newVelocity mo)
                                (setRotation (newRotation mo)
                                   (setPosition newPosition c0)))))
                       (mapSet (cartId pr) newPosition m)
                       (snd scan)).
Proof.
  unfold frameKind, useFrame.
  destruct mounted; cbn [negb]; [| discriminate].
  destruct (isPaused s); [discriminate |].
  destruct (isStunned s); [discriminate |].
  destruct (frameControls pr keys s) as [[controls c0] |]; [| discriminate].
  cbv zeta.
  destruct (isPositionValid _ _ _) as [[|] |] eqn:V; try discriminate.
  intros _. repeat (split; [reflexivity |]).
  exists controls, c0. split; [reflexivity |].
  split; [exact V |].
  destruct (checkCartCollisions pr _ m) as [hit sig]. reflexivity.
Qed.

(** ** The scenario, evaluated *)

Lemma dist2d_x (a b z : R) : dist2d a z b z = Rabs (a - b).
Proof.
  unfold dist2d.
  replace ((a - b) ^ 2 + (z - z) ^ 2) with (Rsqr (a - b)) by (unfold Rsqr; ring).
  apply sqrt_Rsqr_abs.
Qed.

Lemma dist2d_above (c ax az x z : R) :
  0 <= c -> c * c < (ax - x) ^ 2 + (az - z) ^ 2 -> c < dist2d ax az x z.
Proof.
  intros Hc H. unfold dist2d.
  rewrite <- (sqrt_square c Hc) at 1.
  apply sqrt_lt_1_alt. split; [nra | exact H].
Qed.

Lemma motion_at_rest (controls : Keys) (delta : R) (s : Cart) :
  forward controls = false -> backward controls = false ->
  velocity s = 0 -> 0 <= delta ->
  newVelocity (motion controls delta s) = 0
  /\ tentativePosition (motion controls delta s) = position s.
Proof.
  intros Hf Hb Hv Hd.
  assert (Hnv : updateVelocity controls delta (velocity s) = 0).
  { unfold updateVelocity, deceleration, friction. rewrite Hf, Hb, Hv.
    destruct (Rlt_dec 0 0); [lra |].
    rewrite Rmin_left by lra. lra. }
  unfold motion; simpl. rewrite Hnv. split; [reflexivity |].
  destruct (position s) as [x y z]; simpl. f_equal; ring.
Qed.

Lemma demo_closest (x : R) :
  x <= 5 ->
  closestIndex (findClosest demoTrack x 0) = 0%nat
  /\ closestTrackPoint (findClosest demoTrack x 0) = Some (mkVec 0 1 0).
Proof.
  intros Hx.
  cbv [findClosest demoTrack closestLoop ltInf closestDistance vx vz].
  rewrite !dist2d_x.
  replace (Rltb (Rabs (10 - x)) (Rabs (0 - x))) with false
    by (symmetry; apply Rltb_false; solve_abs).
  cbv [closestDistance].
  replace (Rltb (Rabs (20 - x)) (Rabs (0 - x))) with false
    by (symmetry; apply Rltb_false; solve_abs).
  cbv [closestDistance].
  replace (Rltb (Rabs (30 - x)) (Rabs (0 - x))) with false
    by (symmetry; apply Rltb_false; solve_abs).
  split; reflexivity.
Qed.

Lemma demo_valid (x : R) :
  x <= 5 -> isPositionValid demoTrack x 0 = Some (Rleb (Rabs x) 5.2).
Proof.
  intros Hx. unfold isPositionValid.
  destruct (demo_closest x Hx) as [-> ->].
  change (nth_error demoTrack ((0 + 1) mod List.length demoTrack))
    with (Some (mkVec 10 1 0)).
  assert (Hlen : length (subVectors (mkVec 10 1 0) (mkVec 0 1 0)) = 10).
  { unfold length, subVectors; simpl.
    replace ((10 - 0) * (10 - 0) + (1 - 1) * (1 - 1) + (0 - 0) * (0 - 0))
      with (10 * 10) by ring.
    apply sqrt_square; lra. }
  unfold normalize. rewrite Hlen.
  destruct (Req_dec_T 10 0) as [E | _]; [lra |].
  unfold subVectors, multiplyScalar, addVec, trackWidth, cartRadius; simpl.
  f_equal.
  replace (Rltb 0.8 _) with true
    by (symmetry; apply Rltb_true; apply dist2d_above; [lra | nra]).
  replace (Rltb 0.8 _) with true
    by (symmetry; apply Rltb_true; apply dist2d_above; [lra | nra]).
  rewrite dist2d_x, !andb_true_r.
  replace (0 - x) with (- x) by ring. rewrite Rabs_Ropp.
  replace (12 / 2 - 0.8) with 5.2 by lra.
  reflexivity.
Qed.

Lemma demo_frameKind (x : R) :
  x <= 5 ->
  frameKind demoPlayer true noKeys (1 / 60) (restingAt x)
  = if Rleb (Rabs x) 5.2 then Drives else WallHit.
Proof.
  intros Hx. unfold frameKind.
  change (isPaused (restingAt x)) with false.
  change (isStunned (restingAt x)) with false.
  cbn [negb].
  rewrite frameControls_player by reflexivity.
  destruct (motion_at_rest noKeys (1 / 60) (restingAt x)) as [_ ->];
    try reflexivity; [lra |].
  change (position (restingAt x)) with (mkVec x 1.5 0).
  change (trackPoints demoPlayer) with demoTrack.
  cbn [vx vz]. rewrite (demo_valid x Hx).
  destruct (Rleb (Rabs x) 5.2); reflexivity.
Qed.

Lemma demo_wallHit :
  frameKind demoPlayer true noKeys (1 / 60) (restingAt (-20)) = WallHit.
Proof.
  rewrite demo_frameKind by lra.
  replace (Rleb (Rabs (-20)) 5.2) with false; [reflexivity |].
  symmetry; apply Rleb_false. solve_abs.
Qed.

Lemma demo_drives :
  frameKind demoPlayer true noKeys (1 / 60) (restingAt 0) = Drives.
Proof.
  rewrite demo_frameKind by lra.
  replace (Rleb (Rabs 0) 5.2) with true; [reflexivity |].
  symmetry; apply Rleb_true. solve_abs.
Qed.

(** ** Moving carts of the scenario *)

Lemma dist2d_lt (a b c d x z : R) :
  (a - x) ^ 2 + (b - z) ^ 2 < (c - x) ^ 2 + (d - z) ^ 2 ->
  dist2d a b x z < dist2d c d x z.
Proof.
  intros H. unfold dist2d. apply sqrt_lt_1_alt. split; [| exact H].
  apply Rplus_le_le_0_compat; apply pow2_ge_0.
Qed.

Lemma dist2d_le (a b c d x z : R) :
  (a - x) ^ 2 + (b - z) ^ 2 <= (c - x) ^ 2 + (d - z) ^ 2 ->
  dist2d a b x z <= dist2d c d x z.
Proof.
  intros H. unfold dist2d. apply sqrt_le_1_alt. exact H.
Qed.

Lemma dist2d_below (c ax az x z : R) :
  0 <= c -> (ax - x) ^ 2 + (az - z) ^ 2 < c * c -> dist2d ax az x z < c.
Proof.
  intros Hc H. unfold dist2d.
  rewrite <- (sqrt_square c Hc) at 1.
  apply sqrt_lt_1_alt. split; [| exact H].
  apply Rplus_le_le_0_compat; apply pow2_ge_0.
Qed.

Lemma dist2d_within (c ax az x z : R) :
  0 <= c -> (ax - x) ^ 2 + (az - z) ^ 2 <= c * c -> dist2d ax az x z <= c.
Proof.
  intros Hc H. unfold dist2d.
  rewrite <- (sqrt_square c Hc) at 1.
  apply sqrt_le_1_alt. exact H.
Qed.

(** The nearest point with the lowest index is unique, so it is the one
    the scan ends on. *)
Lemma nearestAt_unique (track : list Vector3) (x z : R) (i j : nat)
  (p q : Vector3) :
  nearestAt track x z i p -> nearestAt track x z j q -> i = j /\ p = q.
Proof.
  intros [Hp Hmin] [Hq Hmin'].
  destruct (Hmin j q Hq) as [Hle Hlt].
  destruct (Hmin' i p Hp) as [Hle' Hlt'].
  destruct (Nat.lt_trichotomy i j) as [H | [H | H]].
  - specialize (Hlt' H). lra.
  - subst j. split; [reflexivity | congruence].
  - specialize (Hlt H). lra.
Qed.

Lemma findClosest_at (track : list Vector3) (x z : R) (i : nat) (p : Vector3) :
  nearestAt track x z i p ->
  closestIndex (findClosest track x z) = i
  /\ closestTrackPoint (findClosest track x z) = Some p.
Proof.
  intros Hn.
  assert (Hne : track <> []).
  { intros ->. destruct Hn as [H _]. destruct i; discriminate. }
  destruct (findClosest_nearest track x z Hne) as (p' & _ & Hp' & Hn').
  destruct (nearestAt_unique track x z _ i p' p Hn' Hn) as [Hi E].
  subst p'. split; [exact Hi | exact Hp'].
Qed.

(** A position within 5 along and 1 across of its nearest track point,
    where the step to the next point is level, 10 long and along x, is
    valid. *)
Lemma valid_on_level_step (track : list Vector3) (i : nat) (a b x z : R) :
  nearestAt track x z i (mkVec a 1 0) ->
  nth_error track ((i + 1) mod List.length track)%nat = Some (mkVec b 1 0) ->
  b - a = 10 -> -5 <= x - a <= 5 -> -1 <= z <= 1 ->
  isPositionValid track x z = Some true.
Proof.
  intros Hn Hnext Hb Hx Hz.
  destruct (findClosest_at track x z i (mkVec a 1 0) Hn) as [Hi Hp].
  unfold isPositionValid. rewrite Hp, Hi, Hnext.
  assert (Hlen : length (subVectors (mkVec b 1 0) (mkVec a 1 0)) = 10).
  { unfold length, subVectors; cbn [vx vy vz]. rewrite Hb.
    replace (10 * 10 + (1 - 1) * (1 - 1) + (0 - 0) * (0 - 0))
      with (10 * 10) by ring.
    apply sqrt_square; lra. }
  unfold normalize. rewrite Hlen.
  destruct (Req_dec_T 10 0) as [E | _]; [lra |].
  unfold subVectors, multiplyScalar, addVec, trackWidth, cartRadius.
  cbn [vx vy vz]. rewrite Hb.
  f_equal.
  assert (Hax : 0 <= (a - x) ^ 2) by apply pow2_ge_0.
  assert (Hlow : 0 <= (z + 1) * (z + 11)) by (apply Rmult_le_pos; lra).
  assert (Hhigh : 0 <= (1 - z) * (11 - z)) by (apply Rmult_le_pos; lra).
  replace (Rleb _ _) with true
    by (symmetry; apply Rleb_true; apply dist2d_within; [lra | nra]).
  replace (Rltb 0.8 _) with true
    by (symmetry; apply Rltb_true; apply dist2d_above; [lra | nra]).
  replace (Rltb 0.8 _) with true
    by (symmetry; apply Rltb_true; apply dist2d_above; [lra | nra]).
  reflexivity.
Qed.

Lemma demo_nearest (x z : R) :
  (x <= 5 -> nearestAt demoTrack x z 0 (mkVec 0 1 0))
  /\ (5 < x <= 15 -> nearestAt demoTrack x z 1 (mkVec 10 1 0))
  /\ (15 < x <= 25 -> nearestAt demoTrack x z 2 (mkVec 20 1 0)).
Proof.
  split; [| split]; intros Hx; (split; [reflexivity |]);
    intros j q Hq; unfold demoTrack in Hq;
    destruct j as [| [| [| [| j]]]]; cbn [nth_error] in Hq;
    try (destruct j; discriminate);
    injection Hq as <-; unfold distTo; cbn [vx vz];
    (split; [apply dist2d_le; nra | intros Hj; try lia; apply dist2d_lt; nra]).
Qed.

(** The strip of the scenario's track a cart can drive along. *)
Lemma demo_strip_valid (x z : R) :
  -1 <= x <= 25 -> -1 <= z <= 1 -> isPositionValid demoTrack x z = Some true.
Proof.
  intros Hx Hz.
  destruct (demo_nearest x z) as (H0 & H1 & H2).
  destruct (Rle_dec x 5) as [L5 | L5]; [| destruct (Rle_dec x 15) as [L15 | L15]].
  - apply (valid_on_level_step demoTrack 0 0 10 x z);
      [apply H0; lra | reflexivity | lra | lra | lra].
  - apply (valid_on_level_step demoTrack 1 10 20 x z);
      [apply H1; lra | reflexivity | lra | lra | lra].
  - apply (valid_on_level_step demoTrack 2 20 30 x z);
      [apply H2; lra | reflexivity | lra | lra | lra].
Qed.

Lemma turn_bounds (r v : R) :
  - Rabs v <= sin r * v <= Rabs v /\ - Rabs v <= cos r * v <= Rabs v.
Proof.
  pose proof (SIN_bound r) as [Hs1 Hs2].
  pose proof (COS_bound r) as [Hc1 Hc2].
  unfold Rabs; destruct (Rcase_abs v); split; split; nra.
Qed.

(** The player's cart on the axis of the scenario's track, between
    x = -0.5 and x = 24, drives whatever the keys. *)
Lemma demo_moving_drives (keys : Keys) (delta : R) (s : Cart) :
  isPaused s = false -> isStunned s = false ->
  vz (position s) = 0 -> -0.5 <= vx (position s) <= 24 ->
  Rabs (updateVelocity keys delta (velocity s)) <= 0.5 ->
  frameKind demoPlayer true keys delta s = Drives.
Proof.
  intros Hp Hs Hz Hx Hv. unfold frameKind. rewrite Hp, Hs. cbn [negb].
  rewrite frameControls_player by reflexivity.
  unfold motion. cbn [tentativePosition vx vz].
  set (v' := updateVelocity keys delta (velocity s)) in *.
  set (r' := rotation s + updateAngularVelocity keys delta v' (angularVelocity s)).
  destruct (turn_bounds r' v') as [Hsin Hcos].
  change (trackPoints demoPlayer) with demoTrack.
  rewrite demo_strip_valid; [reflexivity | lra | lra].
Qed.

Lemma updateVelocity_forward (keys : Keys) (delta v : R) :
  forward keys = true -> v + 0.8 * delta <= 0.4 ->
  updateVelocity keys delta v = (v + 0.8 * delta) * 0.96.
Proof.
  intros Hf Hv. unfold updateVelocity, maxSpeed, acceleration, friction.
  rewrite Hf, Rmin_right by lra. reflexivity.
Qed.

Lemma demo_other_near (p : Vector3) :
  (vx p - 1) ^ 2 + (vz p - 0) ^ 2 < 1.5 * 1.5 ->
  fst (checkCartCollisions demoPlayer p demoOther) = true.
Proof.
  intros H.
  destruct (checkCartCollisions_cons demoPlayer p ("ai1"%string, mkVec 1 1.5 0) [])
    as [Hin _].
  unfold demoOther. rewrite Hin; [reflexivity |].
  split; [discriminate |]. cbn [snd vx vz].
  apply dist2d_below; [lra | exact H].
Qed.

(** The tentative position is [|v|] away from the position before. *)
Lemma step_length (x z r v : R) :
  dist2d (x + sin r * v) (z + cos r * v) x z = Rabs v.
Proof.
  unfold dist2d.
  replace ((x + sin r * v - x) ^ 2 + (z + cos r * v - z) ^ 2)
    with (Rsqr v * (Rsqr (sin r) + Rsqr (cos r))) by (unfold Rsqr; ring).
  rewrite sin2_cos2, Rmult_1_r. apply sqrt_Rsqr_abs.
Qed.

(** The velocities one frame of a sixtieth of a second computes from
    velocity 0.3: with [forward] held, and coasting. *)
Lemma demo_moving_speeds :
  updateVelocity forwardLeftKeys (1 / 60) 0.3 = 0.3008
  /\ updateAngularVelocity forwardLeftKeys (1 / 60) 0.3008 0 = 0.0025
  /\ updateVelocity forwardKeys (1 / 60) 0.3 = 0.3008
  /\ updateVelocity noKeys (1 / 60) 0.3 = 0.2688
  /\ updateAngularVelocity noKeys (1 / 60) 0.2688 0.05 = 0.045.
Proof.
  split; [| split; [| split; [| split]]].
  - rewrite updateVelocity_forward by first [lra | reflexivity]. lra.
  - unfold updateAngularVelocity, maxSpeed, maxTurnSpeed, turnAcceleration.
    cbn [left forwardLeftKeys].
    rewrite Rabs_right by lra. rewrite Rmin_right by lra. lra.
  - rewrite updateVelocity_forward by first [lra | reflexivity]. lra.
  - unfold updateVelocity, deceleration, friction. cbn [forward backward noKeys].
    destruct (Rlt_dec 0 0.3); [| lra]. rewrite Rmax_right by lra. lra.
  - unfold updateAngularVelocity, turnFriction. cbn [left right noKeys]. lra.
Qed.

Lemma demo_moving_kind (keys : Keys) (w : R) :
  Rabs (updateVelocity keys (1 / 60) 0.3) <= 0.5 ->
  frameKind demoPlayer true keys (1 / 60) (movingAt 0 (PI / 2) 0.3 w) = Drives.
Proof.
  intros Hv. apply demo_moving_drives; try reflexivity.
  - change (-0.5 <= 0 <= 24). lra.
  - exact Hv.
Qed.

Lemma demo_moving_bump :
  fst (checkCartCollisions demoPlayer
         (tentativePosition
            (motion forwardLeftKeys (1 / 60) (movingAt 0 (PI / 2) 0.3 0)))
         demoOther) = true.
Proof.
  apply demo_other_near. unfold motion. cbn [tentativePosition vx vz].
  change (velocity (movingAt 0 (PI / 2) 0.3 0)) with 0.3.
  change (vx (position (movingAt 0 (PI / 2) 0.3 0))) with 0.
  change (vz (position (movingAt 0 (PI / 2) 0.3 0))) with 0.
  destruct demo_moving_speeds as (-> & _).
  match goal with
  | |- context [sin ?r] => destruct (turn_bounds r 0.3008) as [Hs Hc]
  end.
  rewrite Rabs_right in Hs, Hc by lra.
  match goal with
  | |- context [sin ?r * ?v] =>
      set (a := sin r * v) in *; set (b := cos r * v) in *
  end.
  assert (Ha : 0 <= (a + 0.3008) * (0.3008 - a)) by (apply Rmult_le_pos; lra).
  assert (Hb : 0 <= (b + 0.3008) * (0.3008 - b)) by (apply Rmult_le_pos; lra).
  nra.
Qed.

(** ** The wall recovery *)

(** C4.  A frame whose tentative position fails [isPositionValid] does
    what [resetToTrackCenter] does and nothing else: the position becomes
    the track point nearest to the position the cart had before the frame
    (lowest index first), at the height [getTrackHeightAt] gives there
    plus 0.5; the heading is [atan2] of the step from that point to the
    next one (index + 1 modulo the number of points); both velocities are
    0; the pause lasts 3.0 seconds; one wall hit is counted; the hit
    points, the stun, the laps, the cart hits and the last checkpoint stay;
    the shared map is not written and no collision is signalled. *)
Theorem wall_hit_recovers (pr : Props) (mounted : bool) (keys : Keys)
  (delta : R) (s : Cart) (m : PosMap) :
  frameKind pr mounted keys delta s = WallHit ->
  exists out closest nextPoint,
    let i := closestIndex (findClosest (trackPoints pr)
                             (vx (position s)) (vz (position s))) in
    useFrame pr mounted keys delta s m = Some out
    /\ resetToTrackCenter pr s s = Some (cart out)
    /\ positions out = m
    /\ signalled out = []
    /\ nearestAt (trackPoints pr) (vx (position s)) (vz (position s)) i closest
    /\ nth_error (trackPoints pr) ((i + 1) mod List.length (trackPoints pr))%nat
       = Some nextPoint
    /\ position (cart out)
       = mkVec (vx closest)
           (getTrackHeightAt (trackPoints pr) (vx closest) (vz closest) + 0.5)
           (vz closest)
    /\ rotation (cart out)
       = atan2 (vx nextPoint - vx closest) (vz nextPoint - vz closest)
    /\ velocity (cart out) = 0
    /\ angularVelocity (cart out) = 0
    /\ isPaused (cart out) = true
    /\ pauseTimeLeft (cart out) = 3.0
    /\ wallHits (cart out) = (wallHits s + 1)%nat
    /\ hitPoints (cart out) = hitPoints s
    /\ currentTrackIndex (cart out) = i
    /\ isStunned (cart out) = isStunned s
    /\ stunTimeLeft (cart out) = stunTimeLeft s
    /\ laps (cart out) = laps s
    /\ cartHits (cart out) = cartHits s
    /\ lastCheckpoint (cart out) = lastCheckpoint s.
Proof.
  intros Hk.
  destruct (frameKind_wallHit pr mounted keys delta s m Hk)
    as (_ & _ & _ & Hne & controls & c0 & Hc & _ & Hrun).
  destruct (resetToTrackCenter_result pr s c0 Hne)
    as (closest & nextPoint & Hnear & Hnext & Hreset).
  destruct (resetToTrackCenter_result pr s s Hne)
    as (closest' & nextPoint' & Hnear' & Hnext' & Hreset').
  cbv zeta in *.
  assert (closest' = closest).
  { destruct Hnear as [H1 _], Hnear' as [H2 _]. congruence. }
  assert (nextPoint' = nextPoint) by congruence.
  subst closest' nextPoint'.
  rewrite Hreset in Hrun.
  eexists; exists closest, nextPoint. cbv zeta.
  split; [exact Hrun |]. simpl.
  assert (Hsame : hitPoints c0 = hitPoints s /\ isStunned c0 = isStunned s
                  /\ stunTimeLeft c0 = stunTimeLeft s /\ laps c0 = laps s
                  /\ wallHits c0 = wallHits s /\ cartHits c0 = cartHits s
                  /\ lastCheckpoint c0 = lastCheckpoint s).
  { destruct (frameControls_state pr keys s controls c0 Hc) as [-> | [i ->]];
      repeat split; reflexivity. }
  destruct Hsame as (-> & -> & -> & -> & -> & -> & ->).
  split; [exact Hreset' |].
  repeat (split; [first [reflexivity | assumption] |]). reflexivity.
Qed.

Lemma wall_hit_recovers_witness :
  frameKind demoPlayer true noKeys (1 / 60) (restingAt (-20)) = WallHit
  /\ exists out,
       useFrame demoPlayer true noKeys (1 / 60) (restingAt (-20)) [] = Some out
       /\ position (cart out) = mkVec 0 (1 + 0.5) 0
       /\ wallHits (cart out) = 1%nat
       /\ hitPoints (cart out) = 10%Z.
Proof.
  split; [exact demo_wallHit |].
  destruct (wall_hit_recovers demoPlayer true noKeys (1 / 60) (restingAt (-20)) []
              demo_wallHit)
    as (out & closest & nextPoint & Hrun & _ & _ & _ & [Hnth _] & _ & Hpos & _ & _
        & _ & _ & _ & Hw & Hh & _).
  exists out. split; [exact Hrun |].
  split; [| split; [exact Hw | exact Hh]].
  rewrite Hpos.
  cbv zeta in Hnth. simpl in Hnth.
  destruct (demo_closest (-20)) as [Hi _]; [lra |].
  rewrite Hi in Hnth. injection Hnth as <-.
  simpl. f_equal.
  unfold getTrackHeightAt, demoTrack, heightStep; simpl.
  rewrite !dist2d_x.
  replace (Rltb (Rabs (10 - 0)) (Rabs (0 - 0))) with false
    by (symmetry; apply Rltb_false; solve_abs).
  simpl.
  replace (Rltb (Rabs (20 - 0)) (Rabs (0 - 0))) with false
    by (symmetry; apply Rltb_false; solve_abs).
  simpl.
  replace (Rltb (Rabs (30 - 0)) (Rabs (0 - 0))) with false
    by (symmetry; apply Rltb_false; solve_abs).
  reflexivity.
Defined.

(** ** Cart collisions and laps *)

Lemma lapAccounting_keeps (pr : Props) (s c : Cart) :
  position (lapAccounting pr s c) = position c
  /\ rotation (lapAccounting pr s c) = rotation c
  /\ velocity (lapAccounting pr s c) = velocity c
  /\ angularVelocity (lapAccounting pr s c) = angularVelocity c
  /\ currentTrackIndex (lapAccounting pr s c) = currentTrackIndex c
  /\ hitPoints (lapAccounting pr s c) = hitPoints c
  /\ wallHits (lapAccounting pr s c) = wallHits c.
Proof.
  unfold lapAccounting.
  destruct (negb _); [destruct (_ && _)%bool |]; repeat split; reflexivity.
Qed.

Lemma lapAccounting_counts (pr : Props) (s c : Cart) :
  let cp := currentCheckpoint pr s in
  (cp <> lastCheckpoint s ->
   lastCheckpoint (lapAccounting pr s c) = cp
   /\ (cp = 0%Z /\ lastCheckpoint s = 3%Z ->
       laps (lapAccounting pr s c) = (laps c + 1)%nat)
   /\ (~ (cp = 0%Z /\ lastCheckpoint s = 3%Z) ->
       laps (lapAccounting pr s c) = laps c))
  /\ (cp = lastCheckpoint s -> lapAccounting pr s c = c).
Proof.
  intros cp. unfold lapAccounting. fold cp.
  destruct (Z.eqb_spec cp (lastCheckpoint s)) as [E | E]; simpl.
  - split; [intros H; contradiction | reflexivity].
  - split; [intros _ | intros H; contradiction].
    destruct (Z.eqb_spec cp 0) as [E0 | E0];
      destruct (Z.eqb_spec (lastCheckpoint s) 3) as [E3 | E3]; simpl;
      (split; [reflexivity |]); split; intros H; try reflexivity;
      solve [ destruct H; contradiction | exfalso; apply H; split; assumption ].
Qed.

(** C5.  A frame that passes the wall check and detects a cart collision
    leaves the cart's x and z where they were before the frame, stores
    the linear velocity, the angular velocity and the heading computed in
    the frame, and sets y to the track height at (x, z) plus 0.5. *)
Theorem cart_collision_keeps_place (pr : Props) (mounted : bool) (keys : Keys)
  (delta : R) (s : Cart) (m : PosMap) (controls : Keys) (c0 : Cart) :
  frameKind pr mounted keys delta s = Drives ->
  frameControls pr keys s = Some (controls, c0) ->
  fst (checkCartCollisions pr (tentativePosition (motion controls delta s)) m)
  = true ->
  exists out,
    useFrame pr mounted keys delta s m = Some out
    /\ vx (position (cart out)) = vx (position s)
    /\ vz (position (cart out)) = vz (position s)
    /\ vy (position (cart out))
       = getTrackHeightAt (trackPoints pr) (vx (position s)) (vz (position s)) + 0.5
    /\ velocity (cart out) = updateVelocity controls delta (velocity s)
    /\ angularVelocity (cart out)
       = updateAngularVelocity controls delta (velocity (cart out))
           (angularVelocity s)
    /\ rotation (cart out) = rotation s + angularVelocity (cart out).
Proof.
  intros Hk Hc Hhit.
  destruct (frameKind_drives pr mounted keys delta s m Hk)
    as (_ & _ & _ & controls' & c0' & Hc' & H).
  rewrite Hc in Hc'. injection Hc' as <- <-.
  cbv zeta in H. destruct H as [_ Hrun].
  rewrite Hhit in Hrun.
  eexists. split; [exact Hrun |]. cbn [cart].
  match goal with
  | |- context [lapAccounting pr s ?c] =>
      destruct (lapAccounting_keeps pr s c) as (-> & -> & -> & -> & _)
  end.
  repeat split; reflexivity.
Qed.

Lemma cart_collision_keeps_place_witness :
  exists out,
    useFrame demoPlayer true forwardLeftKeys (1 / 60)
      (movingAt 0 (PI / 2) 0.3 0) demoOther = Some out
    /\ dist2d
         (vx (tentativePosition
                (motion forwardLeftKeys (1 / 60) (movingAt 0 (PI / 2) 0.3 0))))
         (vz (tentativePosition
                (motion forwardLeftKeys (1 / 60) (movingAt 0 (PI / 2) 0.3 0))))
         0 0 = 0.3008
    /\ vx (position (cart out)) = 0
    /\ vz (position (cart out)) = 0
    /\ velocity (cart out) = 0.3008
    /\ angularVelocity (cart out) = 0.0025
    /\ rotation (cart out) = PI / 2 + 0.0025.
Proof.
  destruct demo_moving_speeds as (Hv & Hw & _).
  assert (Hk : frameKind demoPlayer true forwardLeftKeys (1 / 60)
                 (movingAt 0 (PI / 2) 0.3 0) = Drives).
  { apply demo_moving_kind. rewrite Hv, Rabs_right; lra. }
  destruct (cart_collision_keeps_place demoPlayer true forwardLeftKeys (1 / 60)
              (movingAt 0 (PI / 2) 0.3 0) demoOther forwardLeftKeys
              (movingAt 0 (PI / 2) 0.3 0) Hk
              (frameControls_player demoPlayer forwardLeftKeys
                 (movingAt 0 (PI / 2) 0.3 0) eq_refl)
              demo_moving_bump)
    as (out & Hrun & Hx & Hz & _ & Hvel & Hang & Hrot).
  change (velocity (movingAt 0 (PI / 2) 0.3 0)) with 0.3 in Hvel.
  rewrite Hv in Hvel. rewrite Hvel in Hang.
  change (angularVelocity (movingAt 0 (PI / 2) 0.3 0)) with 0 in Hang.
  rewrite Hw in Hang. rewrite Hang in Hrot.
  exists out. split; [exact Hrun |].
  split.
  { unfold motion. cbn [tentativePosition vx vz].
    change (vx (position (movingAt 0 (PI / 2) 0.3 0))) with 0.
    change (vz (position (movingAt 0 (PI / 2) 0.3 0))) with 0.
    rewrite step_length.
    change (velocity (movingAt 0 (PI / 2) 0.3 0)) with 0.3.
    rewrite Hv. apply Rabs_right. lra. }
  split; [exact Hx |]. split; [exact Hz |].
  split; [exact Hvel |]. split; [exact Hang | exact Hrot].
Defined.

Lemma floor_unique (x : R) (k : Z) : IZR k <= x < IZR k + 1 -> floor x = k.
Proof.
  intros [Hlo Hhi]. unfold floor.
  assert (H : (k + 1)%Z = up x).
  { apply tech_up; rewrite plus_IZR; lra. }
  rewrite <- H. lia.
Qed.

(** With [N] track points the checkpoint of index [i] is the integer
    quotient of [4 * i] by [N]. *)
Lemma checkpointOf_quotient (pr : Props) (i : nat) :
  trackPoints pr <> [] ->
  checkpointOf pr i = Z.of_nat (4 * i / List.length (trackPoints pr)).
Proof.
  intros Hne. unfold checkpointOf.
  set (n := List.length (trackPoints pr)).
  assert (Hn : (n <> 0)%nat).
  { subst n. destruct (trackPoints pr); simpl; [contradiction | lia]. }
  assert (HN : 0 < INR n) by (apply lt_0_INR; lia).
  pose proof (Nat.div_mod (4 * i) n Hn) as Hdm.
  pose proof (Nat.mod_upper_bound (4 * i) n Hn) as Hr.
  set (q := (4 * i / n)%nat) in *. set (r := ((4 * i) mod n)%nat) in *.
  assert (Hx : INR i / (INR n / 4) = INR q + INR r / INR n).
  { apply (f_equal INR) in Hdm.
    rewrite plus_INR, !mult_INR in Hdm. simpl (INR 4) in Hdm.
    field_simplify; [| lra | lra].
    apply (Rmult_eq_reg_r (INR n)); [| lra].
    field_simplify; [| lra | lra]. lra. }
  apply floor_unique. rewrite Hx, <- INR_IZR_INZ.
  assert (Hlo : 0 <= INR r / INR n).
  { apply Rmult_le_pos; [apply pos_INR | left; apply Rinv_0_lt_compat, HN]. }
  assert (Hhi : INR r / INR n < 1).
  { apply (Rmult_lt_reg_r (INR n)); [exact HN |].
    unfold Rdiv. rewrite Rmult_assoc, Rinv_l, Rmult_1_r, Rmult_1_l by lra.
    apply lt_INR, Hr. }
  lra.
Qed.

Lemma observeIndex_counts (pr : Props) (s : Cart) (i : nat) :
  let cp := checkpointOf pr i in
  lastCheckpoint (observeIndex pr s i) = cp
  /\ laps (observeIndex pr s i)
     = (laps s + if ((cp =? 0)%Z && (lastCheckpoint s =? 3)%Z)%bool
                 then 1 else 0)%nat.
Proof.
  intros cp. unfold observeIndex, lapAccounting, currentCheckpoint; simpl.
  fold cp.
  destruct (Z.eqb_spec cp (lastCheckpoint s)) as [E | E]; simpl.
  - split; [symmetry; exact E |].
    destruct (Z.eqb_spec cp 0) as [E0 | E0];
      destruct (Z.eqb_spec (lastCheckpoint s) 3) as [E3 | E3]; simpl; lia.
  - split; [reflexivity |].
    destruct ((cp =? 0)%Z && (lastCheckpoint s =? 3)%Z)%bool; simpl; lia.
Qed.

Lemma observe_laps (pr : Props) (indices : list nat) :
  forall s,
    laps (observe pr indices s)
    = (laps s + lapsOver (lastCheckpoint s) (map (checkpointOf pr) indices))%nat.
Proof.
  induction indices as [| i rest IH]; intros s.
  - simpl. lia.
  - change (observe pr (i :: rest) s) with (observe pr rest (observeIndex pr s i)).
    rewrite IH.
    destruct (observeIndex_counts pr s i) as [-> ->].
    cbn [map lapsOver]. lia.
Qed.

(** C2.  In a frame that reaches the lap accounting with a checkpoint
    different from the last recorded one, the last checkpoint becomes the
    current one, and the lap counter goes up by one when the step is from
    checkpoint 3 to checkpoint 0 and stays for every other step.  Observed
    from a cart whose last checkpoint is not 3, the checkpoints
    0, 1, 2, 3, 0 add one lap and the checkpoints 0, 1, 2, 1, 0 add none. *)
Theorem lap_counting (pr : Props) :
  (forall mounted keys delta s m,
      frameKind pr mounted keys delta s = Drives ->
      currentCheckpoint pr s <> lastCheckpoint s ->
      exists out,
        useFrame pr mounted keys delta s m = Some out
        /\ lastCheckpoint (cart out) = currentCheckpoint pr s
        /\ (lastCheckpoint s = 3%Z /\ currentCheckpoint pr s = 0%Z ->
            laps (cart out) = (laps s + 1)%nat)
        /\ (~ (lastCheckpoint s = 3%Z /\ currentCheckpoint pr s = 0%Z) ->
            laps (cart out) = laps s))
  /\ (forall s indices,
        lastCheckpoint s <> 3%Z ->
        map (checkpointOf pr) indices = [0; 1; 2; 3; 0]%Z ->
        laps (observe pr indices s) = (laps s + 1)%nat)
  /\ (forall s indices,
        lastCheckpoint s <> 3%Z ->
        map (checkpointOf pr) indices = [0; 1; 2; 1; 0]%Z ->
        laps (observe pr indices s) = laps s).
Proof.
  split; [| split].
  - intros mounted keys delta s m Hk Hcp.
    destruct (frameKind_drives pr mounted keys delta s m Hk)
      as (_ & _ & _ & controls & c0 & Hc & H).
    cbv zeta in H. destruct H as [_ Hrun].
    eexists. split; [exact Hrun |]. simpl.
    match goal with
    | |- context [lapAccounting pr s ?c] =>
        destruct (lapAccounting_counts pr s c) as [Hcount _];
        assert (Hl : laps c = laps s)
    end.
    { destruct (frameControls_state pr keys s controls c0 Hc) as [-> | [i ->]];
        reflexivity. }
    destruct (Hcount Hcp) as (Hlast & Hinc & Hstay).
    split; [exact Hlast |]. rewrite <- Hl. split.
    + intros [H3 H0]. apply Hinc. split; assumption.
    + intros Hn. apply Hstay. intros [H0 H3]. apply Hn. split; assumption.
  - intros s indices Hs Hseq.
    rewrite observe_laps, Hseq. cbn [lapsOver].
    destruct (Z.eqb_spec (lastCheckpoint s) 3); [contradiction |].
    reflexivity.
  - intros s indices Hs Hseq.
    rewrite observe_laps, Hseq. cbn [lapsOver].
    destruct (Z.eqb_spec (lastCheckpoint s) 3); [contradiction |].
    cbn. lia.
Qed.

(** The frames that return before the lap accounting (not mounted,
    paused, stunned, wall hit) leave the lap counter and the last
    checkpoint as they were, whatever the current checkpoint is. *)
Lemma lap_count_outside_accounting (pr : Props) (mounted : bool) (keys : Keys)
  (delta : R) (s : Cart) (m : PosMap) (out : FrameResult) :
  useFrame pr mounted keys delta s m = Some out ->
  frameKind pr mounted keys delta s <> Drives ->
  laps (cart out) = laps s /\ lastCheckpoint (cart out) = lastCheckpoint s.
Proof.
  intros Hrun Hk.
  unfold frameKind in Hk. unfold useFrame in Hrun.
  destruct mounted; cbn [negb] in *;
    [| injection Hrun as <-; split; reflexivity].
  destruct (isPaused s).
  { injection Hrun as <-. cbn [cart]. destruct (Rleb _ 0); split; reflexivity. }
  destruct (isStunned s).
  { injection Hrun as <-. cbn [cart]. destruct (Rleb _ 0); split; reflexivity. }
  destruct (frameControls pr keys s) as [[controls c0] |] eqn:Hc; [| discriminate].
  cbv zeta in *.
  destruct (isPositionValid _ _ _) as [[|] |] eqn:V; try discriminate;
    [contradiction |].
  destruct (resetToTrackCenter_result pr s c0 (isPositionValid_track _ _ _ _ V))
    as (closest & nextPoint & _ & _ & Hreset).
  cbv zeta in Hreset. rewrite Hreset in Hrun. injection Hrun as <-.
  cbn [cart laps lastCheckpoint].
  destruct (frameControls_state pr keys s controls c0 Hc) as [-> | [i ->]];
    split; reflexivity.
Qed.

Lemma lap_counting_witness :
  laps (observe demoPlayer [0; 1; 2; 3; 0]%nat (restingAt 0)) = 1%nat
  /\ laps (observe demoPlayer [0; 1; 2; 1; 0]%nat (restingAt 0)) = 0%nat
  /\ exists out,
       useFrame demoPlayer true noKeys (1 / 60) (restingAt 0) [] = Some out
       /\ lastCheckpoint (cart out) = 0%Z
       /\ laps (cart out) = 0%nat.
Proof.
  destruct (lap_counting demoPlayer) as (Hframe & Hfwd & Hback).
  assert (Hcp : forall i, checkpointOf demoPlayer i = Z.of_nat (4 * i / 4)).
  { intros i. apply (checkpointOf_quotient demoPlayer i). discriminate. }
  split; [| split].
  - apply (Hfwd (restingAt 0) [0; 1; 2; 3; 0]%nat); [discriminate |].
    cbn [map]. rewrite !Hcp. reflexivity.
  - apply (Hback (restingAt 0) [0; 1; 2; 1; 0]%nat); [discriminate |].
    cbn [map]. rewrite !Hcp. reflexivity.
  - assert (H0 : currentCheckpoint demoPlayer (restingAt 0) = 0%Z).
    { unfold currentCheckpoint. rewrite Hcp. reflexivity. }
    destruct (Hframe true noKeys (1 / 60) (restingAt 0) [] demo_drives)
      as (out & Hrun & Hlast & _ & Hstay).
    + rewrite H0. discriminate.
    + exists out. split; [exact Hrun |]. split; [rewrite Hlast; exact H0 |].
      rewrite Hstay; [reflexivity |]. intros [H3 _]. discriminate H3.
Defined.

(** ** Acceleration *)

Lemma accelerate_closed_form (n : nat) : accelerate n = 0.32 * (1 - 0.96 ^ n).
Proof.
  induction n as [| n IH].
  - unfold accelerate; simpl. lra.
  - change (accelerate (S n))
      with (updateVelocity forwardKeys (1 / 60) (accelerate n)).
    rewrite IH. unfold updateVelocity, maxSpeed, acceleration, friction.
    cbn [forward forwardKeys].
    assert (Hp : 0 <= 0.96 ^ n) by (apply pow_le; lra).
    rewrite Rmin_right by lra.
    rewrite <- tech_pow_Rmult. lra.
Qed.

Lemma pow_096_60 : 0.08 < 0.96 ^ 60 < 0.09.
Proof.
  assert (H5 : 0.96 ^ 5 = 0.8153726976) by lra.
  assert (H10 : 0.66 < 0.96 ^ 10 < 0.67).
  { replace (0.96 ^ 10) with (0.96 ^ 5 * 0.96 ^ 5) by (rewrite <- pow_add; reflexivity).
    rewrite H5. lra. }
  assert (H20 : 0.441 < 0.96 ^ 20 < 0.443).
  { replace (0.96 ^ 20) with (0.96 ^ 10 * 0.96 ^ 10) by (rewrite <- pow_add; reflexivity).
    nra. }
  assert (H40 : 0.194 < 0.96 ^ 40 < 0.197).
  { replace (0.96 ^ 40) with (0.96 ^ 20 * 0.96 ^ 20) by (rewrite <- pow_add; reflexivity).
    nra. }
  replace (0.96 ^ 60) with (0.96 ^ 40 * 0.96 ^ 20) by (rewrite <- pow_add; reflexivity).
  nra.
Qed.

(** The velocity formula iterated: sixty frames of [forward] at a
    sixtieth of a second each, from rest, leave the velocity at
    0.32 (1 - 0.96^60), about 0.2924: above 0 and below the top speed 0.4,
    which the cap never touches on the way. *)
Lemma accelerate_sixty :
  (forall v, updateVelocity forwardKeys (1 / 60) v
             = Rmin 0.4 (v + 0.8 * (1 / 60)) * 0.96)
  /\ accelerate 60 = 0.32 * (1 - 0.96 ^ 60)
  /\ 0.29 < accelerate 60 < 0.295
  /\ (forall n, accelerate (S n) = (accelerate n + 0.8 * (1 / 60)) * 0.96).
Proof.
  pose proof pow_096_60 as Hp.
  split; [intros v; reflexivity |].
  split; [apply accelerate_closed_form |].
  split; [rewrite accelerate_closed_form; lra |].
  intros n. rewrite !accelerate_closed_form.
  rewrite <- tech_pow_Rmult. lra.
Qed.

Lemma accelerate_sixty_not_zero : accelerate 60 <> Rmin maxSpeed 0.
Proof.
  pose proof pow_096_60 as Hp.
  rewrite accelerate_closed_form. unfold maxSpeed.
  rewrite Rmin_right by lra. lra.
Qed.

Lemma accelerate_range (n : nat) : 0 <= accelerate n < 0.32.
Proof.
  rewrite accelerate_closed_form.
  assert (Hp : 0 < 0.96 ^ n) by (apply pow_lt; lra).
  assert (Hq : 0.96 ^ n <= 1).
  { rewrite <- (pow1 n). apply pow_incr. lra. }
  lra.
Qed.

(** ** Steering *)

Lemma lookaheadSteps_values (style : AiStyle) :
  lookaheadSteps style
  = match style with aggressive => 2 | normal => 3 | cautious => 4 end%nat.
Proof.
  unfold lookaheadSteps, lookaheadDistance.
  destruct style.
  - rewrite (floor_unique (8 / 3) 2); [reflexivity | lra].
  - rewrite (floor_unique (10 / 3) 3); [reflexivity | lra].
  - rewrite (floor_unique (12 / 3) 4); [reflexivity | lra].
Qed.

Lemma index_defined (track : list Vector3) (i : nat) :
  track <> [] -> exists q, nth_error track (i mod List.length track)%nat = Some q.
Proof.
  intros Hne.
  destruct (nth_error track (i mod List.length track)%nat) as [q |] eqn:E.
  - exists q; reflexivity.
  - apply nth_error_None in E.
    assert (List.length track <> 0)%nat by (destruct track; simpl; [contradiction | lia]).
    pose proof (Nat.mod_upper_bound i (List.length track)). lia.
Qed.

(** The target selection, evaluated. *)
Lemma aiTarget_eval (pr : Props) (s : Cart) (firstTarget : Vector3) :
  nth_error (trackPoints pr) (currentTrackIndex s) = Some firstTarget ->
  let n := List.length (trackPoints pr) in
  let distanceToTarget :=
    dist2d (vx firstTarget) (vz firstTarget) (vx (position s)) (vz (position s)) in
  let idx := ((currentTrackIndex s + lookaheadSteps (aiStyle pr)) mod n)%nat in
  exists tp,
    nth_error (trackPoints pr) idx = Some tp
    /\ aiTarget pr s
       = Some (mkTargeting
                 (if Rltb distanceToTarget 3
                  then Some ((currentTrackIndex s + 1) mod n)%nat
                  else None)
                 idx tp).
Proof.
  intros Hfirst n d idx.
  assert (Hne : trackPoints pr <> []).
  { intros E. rewrite E in Hfirst. destruct (currentTrackIndex s); discriminate. }
  destruct (index_defined (trackPoints pr)
              (currentTrackIndex s + lookaheadSteps (aiStyle pr)) Hne) as (tp & Htp).
  exists tp. split; [exact Htp |].
  unfold aiTarget. rewrite Hfirst. cbv zeta. rewrite Htp. reflexivity.
Qed.

(** C8, as the code has it.  For an AI cart whose tracked index is on the
    track, the target is the track point at the tracked index the frame
    started with plus [floor(lookahead / 3)] (2, 3 or 4 by style), modulo
    the number of points, whether or not the index advances; the index
    advances by 1 (modulo the number of points) exactly when the point at
    the tracked index is less than 3 units away, and otherwise stays. *)
Theorem ai_target (pr : Props) (s c : Cart) (firstTarget : Vector3) :
  isPlayer pr = false ->
  nth_error (trackPoints pr) (currentTrackIndex s) = Some firstTarget ->
  let n := List.length (trackPoints pr) in
  let distanceToTarget :=
    dist2d (vx firstTarget) (vz firstTarget) (vx (position s)) (vz (position s)) in
  exists tg controls c',
    aiTarget pr s = Some tg
    /\ getAIControls pr s c = Some (controls, c')
    /\ targetIndex tg
       = ((currentTrackIndex s + lookaheadSteps (aiStyle pr)) mod n)%nat
    /\ lookaheadSteps (aiStyle pr)
       = match aiStyle pr with aggressive => 2 | normal => 3 | cautious => 4 end%nat
    /\ nth_error (trackPoints pr) (targetIndex tg) = Some (targetPoint tg)
    /\ (distanceToTarget < 3 ->
        advancedIndex tg = Some ((currentTrackIndex s + 1) mod n)%nat
        /\ c' = setCurrentTrackIndex ((currentTrackIndex s + 1) mod n)%nat c)
    /\ (~ distanceToTarget < 3 -> advancedIndex tg = None /\ c' = c).
Proof.
  intros Hai Hfirst n d.
  destruct (aiTarget_eval pr s firstTarget Hfirst) as (tp & Htp & Htg).
  cbv zeta in Htp, Htg. fold n d in Htg.
  destruct (angleDifference_total
              (atan2 (vx tp - vx (position s)) (vz tp - vz (position s)))
              (rotation s)) as (angleDiff & Hangle).
  eexists; eexists; eexists.
  split; [exact Htg |].
  split.
  { unfold getAIControls. rewrite Hai, Htg.
    cbn [advancedIndex targetPoint]. rewrite Hangle. reflexivity. }
  cbn [targetIndex targetPoint advancedIndex].
  split; [reflexivity |].
  split; [apply lookaheadSteps_values |].
  split; [exact Htp |].
  split.
  - intros Hd. apply Rltb_true in Hd. rewrite Hd. split; reflexivity.
  - intros Hd. apply Rltb_false in Hd. rewrite Hd. split; reflexivity.
Qed.

Lemma demo_ai_first :
  nth_error (trackPoints demoAI) (currentTrackIndex (restingAt 0))
  = Some (mkVec 0 1 0).
Proof. reflexivity. Qed.

Lemma demo_ai_near :
  dist2d (vx (mkVec 0 1 0)) (vz (mkVec 0 1 0))
    (vx (position (restingAt 0))) (vz (position (restingAt 0))) < 3.
Proof.
  change (dist2d 0 0 0 0 < 3). rewrite dist2d_same. lra.
Qed.

Lemma ai_target_witness :
  exists tg,
    aiTarget demoAI (restingAt 0) = Some tg
    /\ targetIndex tg = 2%nat
    /\ advancedIndex tg = Some 1%nat.
Proof.
  destruct (ai_target demoAI (restingAt 0) (restingAt 0) (mkVec 0 1 0)
              eq_refl demo_ai_first)
    as (tg & controls & c' & Htg & _ & Hidx & Hsteps & _ & Hnear & _).
  exists tg. split; [exact Htg |].
  split.
  - rewrite Hidx, Hsteps. reflexivity.
  - destruct (Hnear demo_ai_near) as [-> _]. reflexivity.
Defined.

(** C8, as the claim has it, fails: on the four-point track the
    aggressive AI cart at point 0 advances its index to 1, and its target
    is the point at index 0 + 2 = 2, not the point at index 1 + 2 = 3. *)
Lemma ai_target_not_from_advanced_index :
  ~ (forall pr s tg i,
        isPlayer pr = false ->
        aiTarget pr s = Some tg ->
        advancedIndex tg = Some i ->
        nth_error (trackPoints pr)
          ((i + lookaheadSteps (aiStyle pr)) mod List.length (trackPoints pr))%nat
        = Some (targetPoint tg)).
Proof.
  intros H.
  destruct (aiTarget_eval demoAI (restingAt 0) (mkVec 0 1 0) demo_ai_first)
    as (tp & Htp & Htg).
  cbv zeta in Htp, Htg.
  pose proof demo_ai_near as Hnear. apply Rltb_true in Hnear.
  rewrite Hnear in Htg.
  specialize (H demoAI (restingAt 0) _ _ eq_refl Htg eq_refl).
  cbn [targetPoint] in H.
  rewrite (lookaheadSteps_values (aiStyle demoAI)) in H, Htp.
  cbn in H, Htp.
  rewrite <- Htp in H. injection H as Hx. lra.
Qed.

(** ** Coasting *)

Lemma updateVelocity_coasts (controls : Keys) (delta v : R) :
  forward controls = false -> backward controls = false -> 0 < delta ->
  let v' := updateVelocity controls delta v in
  (v' = 0 \/ (0 < v /\ 0 < v') \/ (v < 0 /\ v' < 0))
  /\ Rabs v' <= Rabs v
  /\ (v <> 0 -> Rabs v' < Rabs v).
Proof.
  intros Hf Hb Hd v'. subst v'.
  unfold updateVelocity, deceleration, friction. rewrite Hf, Hb.
  destruct (Rlt_dec 0 v) as [Hv | Hv].
  - unfold Rmax. destruct (Rle_dec 0 (v - 1.2 * delta)) as [H | H].
    + split; [| split; [| intros _]; solve_abs].
      destruct (Rtotal_order (v - 1.2 * delta) 0) as [H0 | [H0 | H0]];
        [lra | left; lra | right; left; split; lra].
    + split; [left; lra |]. split; [| intros _]; solve_abs.
  - unfold Rmin. destruct (Rle_dec 0 (v + 1.2 * delta)) as [H | H].
    + split; [left; lra |]. split; [| intros Hn]; solve_abs.
    + split; [right; right; split; lra |]. split; [| intros _]; solve_abs.
Qed.

Lemma updateAngularVelocity_coasts (controls : Keys) (delta nv w : R) :
  left controls = false -> right controls = false ->
  let w' := updateAngularVelocity controls delta nv w in
  w' = w * 0.9
  /\ (w' = 0 \/ (0 < w /\ 0 < w') \/ (w < 0 /\ w' < 0))
  /\ Rabs w' <= Rabs w
  /\ (w <> 0 -> Rabs w' < Rabs w).
Proof.
  intros Hl Hr w'. subst w'.
  unfold updateAngularVelocity, turnFriction. rewrite Hl, Hr.
  split; [reflexivity |].
  split.
  - destruct (Rtotal_order w 0) as [H | [H | H]];
      [right; right | left | right; left]; try split; lra.
  - split; [| intros Hn]; solve_abs.
Qed.

(** What a frame that runs to the end stores. *)
Lemma drives_stores_motion (pr : Props) (mounted : bool) (keys : Keys)
  (delta : R) (s : Cart) (m : PosMap) (controls : Keys) (c0 : Cart) :
  frameKind pr mounted keys delta s = Drives ->
  frameControls pr keys s = Some (controls, c0) ->
  exists out,
    useFrame pr mounted keys delta s m = Some out
    /\ velocity (cart out) = updateVelocity controls delta (velocity s)
    /\ angularVelocity (cart out)
       = updateAngularVelocity controls delta (velocity (cart out))
           (angularVelocity s)
    /\ rotation (cart out) = rotation s + angularVelocity (cart out)
    /\ currentTrackIndex (cart out) = currentTrackIndex c0
    /\ hitPoints (cart out) = hitPoints c0
    /\ wallHits (cart out) = wallHits c0.
Proof.
  intros Hk Hc.
  destruct (frameKind_drives pr mounted keys delta s m Hk)
    as (_ & _ & _ & controls' & c0' & Hc' & H).
  rewrite Hc in Hc'. injection Hc' as <- <-.
  cbv zeta in H. destruct H as [_ Hrun].
  eexists. split; [exact Hrun |]. cbn [cart].
  match goal with
  | |- context [lapAccounting pr s ?c] =>
      destruct (lapAccounting_keeps pr s c) as (_ & -> & -> & -> & -> & -> & ->)
  end.
  repeat split; reflexivity.
Qed.

(** C9.  In a frame that is neither paused nor stunned, with none of the
    four controls held and a positive time step, the stored linear
    velocity is 0 or has the sign of the previous one and is no larger in
    magnitude (smaller when the previous one was not 0), and the same holds
    of the angular velocity: neither crosses zero. *)
Theorem coasting_never_overshoots (pr : Props) (mounted : bool) (keys : Keys)
  (delta : R) (s : Cart) (m : PosMap) (controls : Keys) (c0 : Cart) :
  frameKind pr mounted keys delta s = Drives
  \/ frameKind pr mounted keys delta s = WallHit ->
  frameControls pr keys s = Some (controls, c0) ->
  forward controls = false -> backward controls = false ->
  left controls = false -> right controls = false ->
  0 < delta ->
  exists out,
    useFrame pr mounted keys delta s m = Some out
    /\ (let v := velocity s in
        let v' := velocity (cart out) in
        (v' = 0 \/ (0 < v /\ 0 < v') \/ (v < 0 /\ v' < 0))
        /\ Rabs v' <= Rabs v
        /\ (v <> 0 -> Rabs v' < Rabs v))
    /\ (let w := angularVelocity s in
        let w' := angularVelocity (cart out) in
        (w' = 0 \/ (0 < w /\ 0 < w') \/ (w < 0 /\ w' < 0))
        /\ Rabs w' <= Rabs w
        /\ (w <> 0 -> Rabs w' < Rabs w)).
Proof.
  intros [Hk | Hk] Hc Hf Hb Hl Hr Hd.
  - destruct (drives_stores_motion pr mounted keys delta s m controls c0 Hk Hc)
      as (out & Hrun & Hv & Hw & _).
    exists out. split; [exact Hrun |]. cbv zeta. rewrite Hw, Hv.
    split.
    + apply (updateVelocity_coasts controls delta (velocity s) Hf Hb Hd).
    + apply (updateAngularVelocity_coasts controls delta
               (updateVelocity controls delta (velocity s)) (angularVelocity s)
               Hl Hr).
  - destruct (frameKind_wallHit pr mounted keys delta s m Hk)
      as (_ & _ & _ & Hne & controls' & c0' & _ & _ & Hrun).
    destruct (resetToTrackCenter_result pr s c0' Hne)
      as (closest & nextPoint & _ & _ & Hreset).
    cbv zeta in Hreset. rewrite Hreset in Hrun.
    eexists. split; [exact Hrun |]. cbn [cart velocity angularVelocity].
    split; (split; [left; reflexivity |]); (split; [| intros Hn]); solve_abs.
Qed.

Lemma coasting_never_overshoots_witness :
  exists out,
    useFrame demoPlayer true noKeys (1 / 60) (movingAt 0 (PI / 2) 0.3 0.05) []
    = Some out
    /\ velocity (cart out) = 0.2688
    /\ angularVelocity (cart out) = 0.045
    /\ Rabs (velocity (cart out)) < Rabs 0.3
    /\ Rabs (angularVelocity (cart out)) < Rabs 0.05.
Proof.
  destruct demo_moving_speeds as (_ & _ & _ & Hv & Hw).
  assert (Hk : frameKind demoPlayer true noKeys (1 / 60)
                 (movingAt 0 (PI / 2) 0.3 0.05) = Drives).
  { apply demo_moving_kind. rewrite Hv, Rabs_right; lra. }
  destruct (coasting_never_overshoots demoPlayer true noKeys (1 / 60)
              (movingAt 0 (PI / 2) 0.3 0.05) [] noKeys
              (movingAt 0 (PI / 2) 0.3 0.05)
              (or_introl Hk)
              (frameControls_player demoPlayer noKeys
                 (movingAt 0 (PI / 2) 0.3 0.05) eq_refl)
              eq_refl eq_refl eq_refl eq_refl)
    as (out & Hrun & (_ & _ & Hvs) & (_ & _ & Hws)); [lra |].
  destruct (drives_stores_motion demoPlayer true noKeys (1 / 60)
              (movingAt 0 (PI / 2) 0.3 0.05) [] noKeys
              (movingAt 0 (PI / 2) 0.3 0.05) Hk
              (frameControls_player demoPlayer noKeys
                 (movingAt 0 (PI / 2) 0.3 0.05) eq_refl))
    as (out' & Hrun' & Hvel & Hang & _).
  rewrite Hrun in Hrun'. injection Hrun' as <-.
  change (velocity (movingAt 0 (PI / 2) 0.3 0.05)) with 0.3 in Hvel, Hvs.
  change (angularVelocity (movingAt 0 (PI / 2) 0.3 0.05)) with 0.05 in Hang, Hws.
  rewrite Hv in Hvel. rewrite Hvel in Hang. rewrite Hw in Hang.
  exists out. split; [exact Hrun |].
  split; [exact Hvel |]. split; [exact Hang |].
  split; [apply Hvs; lra | apply Hws; lra].
Defined.

(** ** The player's track index *)

Lemma lapAccounting_result (pr : Props) (s c : Cart) :
  laps (lapAccounting pr s c)
  = (laps c + if ((currentCheckpoint pr s =? 0)%Z
                  && (lastCheckpoint s =? 3)%Z
                  && negb (currentCheckpoint pr s =? lastCheckpoint s)%Z)%bool
              then 1 else 0)%nat
  /\ lastCheckpoint (lapAccounting pr s c)
     = (if (currentCheckpoint pr s =? lastCheckpoint s)%Z
        then lastCheckpoint c else currentCheckpoint pr s).
Proof.
  unfold lapAccounting.
  destruct (Z.eqb_spec (currentCheckpoint pr s) (lastCheckpoint s)) as [E | E];
    cbn [negb].
  - rewrite andb_false_r. split; [lia | reflexivity].
  - rewrite andb_true_r.
    destruct ((currentCheckpoint pr s =? 0)%Z && (lastCheckpoint s =? 3)%Z)%bool;
      split; cbn; try reflexivity; lia.
Qed.

Lemma checkpointOf_zero (pr : Props) : checkpointOf pr 0 = 0%Z.
Proof.
  unfold checkpointOf. apply floor_unique. simpl (INR 0).
  unfold Rdiv at 1. rewrite Rmult_0_l. simpl. lra.
Qed.

(** A frame of the player's cart that is not a wall hit: the track index
    stays, and the lap count and last checkpoint either stay or are those
    of the lap accounting. *)
Lemma player_frame (pr : Props) (mounted : bool) (keys : Keys) (delta : R)
  (s : Cart) (m : PosMap) (out : FrameResult) :
  isPlayer pr = true ->
  useFrame pr mounted keys delta s m = Some out ->
  frameKind pr mounted keys delta s <> WallHit ->
  currentTrackIndex (cart out) = currentTrackIndex s
  /\ ((laps (cart out) = laps s /\ lastCheckpoint (cart out) = lastCheckpoint s)
      \/ (laps (cart out) = laps (lapAccounting pr s s)
          /\ lastCheckpoint (cart out) = lastCheckpoint (lapAccounting pr s s))).
Proof.
  intros Hp Hrun Hk.
  destruct (frameKind pr mounted keys delta s) eqn:K; try contradiction.
  - unfold frameKind in K. unfold useFrame in Hrun.
    destruct mounted; cbn [negb] in *.
    + destruct (isPaused s); [discriminate |].
      destruct (isStunned s); [discriminate |].
      destruct (frameControls pr keys s) as [[? ?] |]; [| discriminate].
      cbv zeta in K. destruct (isPositionValid _ _ _) as [[|] |]; discriminate.
    + injection Hrun as <-. cbn [cart]. split; [reflexivity | left; split; reflexivity].
  - unfold frameKind in K. unfold useFrame in Hrun.
    destruct mounted; cbn [negb] in *; [| discriminate].
    destruct (isPaused s).
    + injection Hrun as <-. cbn [cart].
      destruct (Rleb _ 0); split; try reflexivity; left; split; reflexivity.
    + destruct (isStunned s); [discriminate |].
      destruct (frameControls pr keys s) as [[? ?] |]; [| discriminate].
      cbv zeta in K. destruct (isPositionValid _ _ _) as [[|] |]; discriminate.
  - unfold frameKind in K. unfold useFrame in Hrun.
    destruct mounted; cbn [negb] in *; [| discriminate].
    destruct (isPaused s); [discriminate |].
    destruct (isStunned s).
    + injection Hrun as <-. cbn [cart].
      destruct (Rleb _ 0); split; try reflexivity; left; split; reflexivity.
    + destruct (frameControls pr keys s) as [[? ?] |]; [| discriminate].
      cbv zeta in K. destruct (isPositionValid _ _ _) as [[|] |]; discriminate.
  - exfalso. unfold frameKind in K. unfold useFrame in Hrun.
    destruct mounted; cbn [negb] in *; [| discriminate].
    destruct (isPaused s); [discriminate |].
    destruct (isStunned s); [discriminate |].
    destruct (frameControls pr keys s) as [[? ?] |]; [| discriminate].
    cbv zeta in *. destruct (isPositionValid _ _ _) as [[|] |]; discriminate.
  - destruct (frameKind_drives pr mounted keys delta s m K)
      as (_ & _ & _ & controls & c0 & Hc & H).
    rewrite (frameControls_player pr keys s Hp) in Hc. injection Hc as <- <-.
    cbv zeta in H. destruct H as [_ Hrun'].
    rewrite Hrun in Hrun'. injection Hrun' as ->. cbn [cart].
    match goal with
    | |- context [lapAccounting pr s ?c] =>
        destruct (lapAccounting_keeps pr s c) as (_ & _ & _ & _ & -> & _);
        destruct (lapAccounting_result pr s c) as [-> ->]
    end.
    destruct (lapAccounting_result pr s s) as [-> ->].
    split; [reflexivity | right; split; reflexivity].
Qed.

Lemma applyDamage_index (pr : Props) (s : Cart) :
  currentTrackIndex (applyDamage pr s)
  = (if (hitPoints s - 1 <=? 0)%Z then 0%nat else currentTrackIndex s)
  /\ laps (applyDamage pr s) = laps s
  /\ lastCheckpoint (applyDamage pr s)
     = (if (hitPoints s - 1 <=? 0)%Z then (-1)%Z else lastCheckpoint s).
Proof.
  unfold applyDamage, takeDamage.
  destruct (hitPoints s - 1 <=? 0)%Z; repeat split; reflexivity.
Qed.

(** From the initial state, and as long as no frame hits the wall, the
    player's cart stays on track index 0 with no lap counted. *)
Lemma reachesWithoutWall_player (pr : Props) (s : Cart) :
  isPlayer pr = true ->
  reachesWithoutWall pr s ->
  currentTrackIndex s = 0%nat /\ laps s = 0%nat
  /\ (lastCheckpoint s = (-1)%Z \/ lastCheckpoint s = 0%Z).
Proof.
  intros Hp Hreach.
  induction Hreach as [| s s' e Hreach (Hi & Hl & Hc) Hwall Hstep].
  - repeat split; try reflexivity. left; reflexivity.
  - destruct e as [mounted keys delta m |]; cbn [stepEvent hitsWall] in *.
    + destruct (useFrame pr mounted keys delta s m) as [out |] eqn:Hrun;
        [| discriminate].
      injection Hstep as <-.
      destruct (player_frame pr mounted keys delta s m out Hp Hrun Hwall)
        as (Hi' & [[Hl' Hc'] | [Hl' Hc']]).
      * rewrite Hi', Hl', Hc'. auto.
      * destruct (lapAccounting_result pr s s) as [Hl2 Hc2].
        rewrite Hi', Hl', Hc', Hl2, Hc2.
        unfold currentCheckpoint. rewrite Hi, checkpointOf_zero.
        destruct Hc as [-> | ->]; cbn; repeat split; auto; lia.
    + injection Hstep as <-.
      destruct (applyDamage_index pr s) as (-> & -> & ->).
      destruct (hitPoints s - 1 <=? 0)%Z; auto.
Qed.

(** C10.  For the player's cart, a frame whose tentative position passes
    the wall check leaves the track index (and so the checkpoint) as it
    was, and so does every frame that is not a wall hit.  The index
    changes in a wall hit, to the index of the nearest track point, and in
    a hit by another cart that takes the last hit point, to 0.  From the
    initial state and without a wall hit the index stays 0, the checkpoint
    0 and the lap counter 0. *)
Theorem player_index_changes_only_by_reset (pr : Props) :
  isPlayer pr = true ->
  (forall mounted keys delta s m,
      frameKind pr mounted keys delta s = Drives ->
      exists out,
        useFrame pr mounted keys delta s m = Some out
        /\ currentTrackIndex (cart out) = currentTrackIndex s
        /\ currentCheckpoint pr (cart out) = currentCheckpoint pr s)
  /\ (forall mounted keys delta s m out,
        useFrame pr mounted keys delta s m = Some out ->
        frameKind pr mounted keys delta s <> WallHit ->
        currentTrackIndex (cart out) = currentTrackIndex s)
  /\ (forall mounted keys delta s m,
        frameKind pr mounted keys delta s = WallHit ->
        exists out,
          useFrame pr mounted keys delta s m = Some out
          /\ currentTrackIndex (cart out)
             = closestIndex (findClosest (trackPoints pr)
                               (vx (position s)) (vz (position s))))
  /\ (forall s,
        currentTrackIndex (applyDamage pr s)
        = if (hitPoints s - 1 <=? 0)%Z then 0%nat else currentTrackIndex s)
  /\ (forall s,
        reachesWithoutWall pr s ->
        currentTrackIndex s = 0%nat
        /\ currentCheckpoint pr s = 0%Z
        /\ laps s = 0%nat).
Proof.
  intros Hp.
  split; [| split; [| split; [| split]]].
  - intros mounted keys delta s m Hk.
    destruct (drives_stores_motion pr mounted keys delta s m keys s Hk
                (frameControls_player pr keys s Hp))
      as (out & Hrun & _ & _ & _ & Hi & _).
    exists out. split; [exact Hrun |]. split; [exact Hi |].
    unfold currentCheckpoint. rewrite Hi. reflexivity.
  - intros mounted keys delta s m out Hrun Hk.
    apply (player_frame pr mounted keys delta s m out Hp Hrun Hk).
  - intros mounted keys delta s m Hk.
    destruct (frameKind_wallHit pr mounted keys delta s m Hk)
      as (_ & _ & _ & Hne & controls & c0 & _ & _ & Hrun).
    destruct (resetToTrackCenter_result pr s c0 Hne)
      as (closest & nextPoint & _ & _ & Hreset).
    cbv zeta in Hreset. rewrite Hreset in Hrun.
    eexists. split; [exact Hrun | reflexivity].
  - intros s. apply applyDamage_index.
  - intros s Hreach.
    destruct (reachesWithoutWall_player pr s Hp Hreach) as (Hi & Hl & _).
    split; [exact Hi |]. split; [| exact Hl].
    unfold currentCheckpoint. rewrite Hi. apply checkpointOf_zero.
Qed.

Lemma player_index_changes_only_by_reset_witness :
  exists out,
    useFrame demoPlayer true noKeys (1 / 60) (restingAt 0) [] = Some out
    /\ currentTrackIndex (cart out) = 0%nat.
Proof.
  destruct (player_index_changes_only_by_reset demoPlayer eq_refl)
    as (Hdrive & _).
  destruct (Hdrive true noKeys (1 / 60) (restingAt 0) [] demo_drives)
    as (out & Hrun & Hi & _).
  exists out. split; [exact Hrun | exact Hi].
Defined.

(** * Further properties *)

(** ** Every way a frame can go *)

Lemma frameKind_raises (pr : Props) (mounted : bool) (keys : Keys) (delta : R)
  (s : Cart) (m : PosMap) :
  frameKind pr mounted keys delta s = Raises ->
  useFrame pr mounted keys delta s m = None.
Proof.
  unfold frameKind, useFrame.
  destruct mounted; cbn [negb]; [| discriminate].
  destruct (isPaused s); [discriminate |].
  destruct (isStunned s); [discriminate |].
  destruct (frameControls pr keys s) as [[controls c0] |]; [| reflexivity].
  cbv zeta.
  destruct (isPositionValid _ _ _) as [[|] |]; try discriminate. reflexivity.
Qed.

Lemma frameKind_idle (pr : Props) (mounted : bool) (keys : Keys) (delta : R)
  (s : Cart) (m : PosMap) :
  (frameKind pr mounted keys delta s = Unmounted ->
   mounted = false /\ useFrame pr mounted keys delta s m = Some (mkFrameResult s m []))
  /\ (frameKind pr mounted keys delta s = PausedFrame ->
      mounted = true /\ isPaused s = true
      /\ useFrame pr mounted keys delta s m
         = Some (mkFrameResult
                   (setPauseTimeLeft (countdown delta (pauseTimeLeft s))
                      (if Rleb (countdown delta (pauseTimeLeft s)) 0
                       then setIsPaused false s else s)) m []))
  /\ (frameKind pr mounted keys delta s = StunnedFrame ->
      mounted = true /\ isPaused s = false /\ isStunned s = true
      /\ useFrame pr mounted keys delta s m
         = Some (mkFrameResult
                   (setStunTimeLeft (countdown delta (stunTimeLeft s))
                      (if Rleb (countdown delta (stunTimeLeft s)) 0
                       then setIsStunned false s else s)) m [])).
Proof.
  unfold frameKind, useFrame.
  destruct mounted; cbn [negb].
  - destruct (isPaused s).
    { split; [discriminate |]. split; [| discriminate]. intros _. auto. }
    destruct (isStunned s).
    { split; [discriminate |]. split; [discriminate |]. intros _. auto. }
    destruct (frameControls pr keys s) as [[controls c0] |];
      [| repeat split; discriminate].
    cbv zeta. destruct (isPositionValid _ _ _) as [[|] |]; repeat split; discriminate.
  - split; [intros _; auto |]. split; discriminate.
Qed.

(** The state a wall hit leaves, field by field. *)
Lemma wallHit_cart (pr : Props) (mounted : bool) (keys : Keys) (delta : R)
  (s : Cart) (m : PosMap) :
  frameKind pr mounted keys delta s = WallHit ->
  exists closest nextPoint,
    let i := closestIndex (findClosest (trackPoints pr)
                             (vx (position s)) (vz (position s))) in
    nearestAt (trackPoints pr) (vx (position s)) (vz (position s)) i closest
    /\ nth_error (trackPoints pr) ((i + 1) mod List.length (trackPoints pr))%nat
       = Some nextPoint
    /\ useFrame pr mounted keys delta s m
       = Some (mkFrameResult
                 (mkCart
                    (mkVec (vx closest)
                       (getTrackHeightAt (trackPoints pr) (vx closest) (vz closest)
                        + 0.5)
                       (vz closest))
                    (atan2 (vx nextPoint - vx closest) (vz nextPoint - vz closest))
                    0 0 i true 3.0 (hitPoints s) (isStunned s) (stunTimeLeft s)
                    (laps s) (wallHits s + 1) (cartHits s) (lastCheckpoint s))
                 m []).
Proof.
  intros Hk.
  destruct (frameKind_wallHit pr mounted keys delta s m Hk)
    as (_ & _ & _ & Hne & controls & c0 & Hc & _ & Hrun).
  destruct (resetToTrackCenter_result pr s c0 Hne)
    as (closest & nextPoint & Hnear & Hnext & Hreset).
  exists closest, nextPoint. cbv zeta in *.
  split; [exact Hnear |]. split; [exact Hnext |].
  rewrite Hrun, Hreset.
  destruct (frameControls_state pr keys s controls c0 Hc) as [-> | [i ->]];
    reflexivity.
Qed.

Lemma lapAccounting_keeps_flags (pr : Props) (s c : Cart) :
  isPaused (lapAccounting pr s c) = isPaused c
  /\ pauseTimeLeft (lapAccounting pr s c) = pauseTimeLeft c
  /\ isStunned (lapAccounting pr s c) = isStunned c
  /\ stunTimeLeft (lapAccounting pr s c) = stunTimeLeft c
  /\ cartHits (lapAccounting pr s c) = cartHits c.
Proof.
  unfold lapAccounting.
  destruct (negb _); [destruct (_ && _)%bool |]; repeat split; reflexivity.
Qed.

(** The fields a frame that runs to the end does not touch, and where
    the others come from. *)
Lemma drives_cart (pr : Props) (mounted : bool) (keys : Keys) (delta : R)
  (s : Cart) (m : PosMap) :
  frameKind pr mounted keys delta s = Drives ->
  exists out controls c0,
    frameControls pr keys s = Some (controls, c0)
    /\ useFrame pr mounted keys delta s m = Some out
    /\ isPaused s = false /\ isStunned s = false
    /\ isPositionValid (trackPoints pr)
         (vx (tentativePosition (motion controls delta s)))
         (vz (tentativePosition (motion controls delta s))) = Some true
    /\ positions out = mapSet (cartId pr) (position (cart out)) m
    /\ signalled out
       = snd (checkCartCollisions pr (tentativePosition (motion controls delta s)) m)
    /\ position (cart out)
       = (let moved :=
            if fst (checkCartCollisions pr
                      (tentativePosition (motion controls delta s)) m)
            then position s else tentativePosition (motion controls delta s) in
          mkVec (vx moved)
            (getTrackHeightAt (trackPoints pr) (vx moved) (vz moved) + 0.5)
            (vz moved))
    /\ velocity (cart out) = updateVelocity controls delta (velocity s)
    /\ angularVelocity (cart out)
       = updateAngularVelocity controls delta (velocity (cart out))
           (angularVelocity s)
    /\ rotation (cart out) = rotation s + angularVelocity (cart out)
    /\ currentTrackIndex (cart out) = currentTrackIndex c0
    /\ isPaused (cart out) = false /\ pauseTimeLeft (cart out) = pauseTimeLeft s
    /\ isStunned (cart out) = false /\ stunTimeLeft (cart out) = stunTimeLeft s
    /\ hitPoints (cart out) = hitPoints s
    /\ wallHits (cart out) = wallHits s
    /\ cartHits (cart out) = cartHits s
    /\ laps (cart out) = laps (lapAccounting pr s s)
    /\ lastCheckpoint (cart out) = lastCheckpoint (lapAccounting pr s s).
Proof.
  intros Hk.
  destruct (frameKind_drives pr mounted keys delta s m Hk)
    as (_ & Hp & Hs & controls & c0 & Hc & H).
  cbv zeta in H. destruct H as [Hvalid Hrun].
  eexists; exists controls, c0.
  split; [exact Hc |]. split; [exact Hrun |].
  split; [exact Hp |]. split; [exact Hs |].
  split; [exact Hvalid |].
  cbn [cart positions signalled].
  assert (Hsame : isPaused c0 = isPaused s /\ pauseTimeLeft c0 = pauseTimeLeft s
                  /\ isStunned c0 = isStunned s /\ stunTimeLeft c0 = stunTimeLeft s
                  /\ hitPoints c0 = hitPoints s /\ wallHits c0 = wallHits s
                  /\ cartHits c0 = cartHits s /\ laps c0 = laps s
                  /\ lastCheckpoint c0 = lastCheckpoint s).
  { destruct (frameControls_state pr keys s controls c0 Hc) as [-> | [i ->]];
      repeat split; reflexivity. }
  destruct Hsame as (E1 & E2 & E3 & E4 & E5 & E6 & E7 & E8 & E9).
  match goal with
  | |- context [lapAccounting pr s ?c] =>
      destruct (lapAccounting_keeps pr s c) as (-> & -> & -> & -> & -> & -> & ->);
      destruct (lapAccounting_keeps_flags pr s c) as (-> & -> & -> & -> & ->);
      destruct (lapAccounting_result pr s c) as [-> ->]
  end.
  destruct (lapAccounting_result pr s s) as [-> ->].
  cbn [setAngularVelocity setVelocity setRotation setPosition velocity position
       angularVelocity rotation currentTrackIndex isPaused pauseTimeLeft
       isStunned stunTimeLeft hitPoints wallHits cartHits laps lastCheckpoint
       newVelocity newAngularVelocity newRotation motion].
  rewrite E1, E2, E3, E4, E5, E6, E7, E8, E9, Hp, Hs.
  repeat split; reflexivity.
Qed.

Lemma step_shapes (pr : Props) (e : Event) (s s' : Cart) :
  timeAdvances e ->
  stepEvent pr e s = Some s' ->
  s' = s \/ pausedStep s s' \/ stunnedStep s s' \/ wallStep pr s s'
  \/ driveStep pr s s' \/ hitStep pr s s'.
Proof.
  intros Ht Hstep.
  destruct e as [mounted keys delta m |]; cbn [stepEvent timeAdvances] in *.
  - destruct (useFrame pr mounted keys delta s m) as [out |] eqn:Hrun;
      [| discriminate].
    injection Hstep as <-.
    destruct (frameKind_idle pr mounted keys delta s m) as (Hu & Hp & Hs).
    destruct (frameKind pr mounted keys delta s) eqn:K.
    + destruct (Hu eq_refl) as [_ H]. rewrite H in Hrun.
      injection Hrun as <-. left; reflexivity.
    + destruct (Hp eq_refl) as (_ & Hpa & H). rewrite H in Hrun.
      injection Hrun as <-. right; left.
      split; [exact Hpa |]. exists delta. split; [exact Ht | reflexivity].
    + destruct (Hs eq_refl) as (_ & Hpa & Hst & H). rewrite H in Hrun.
      injection Hrun as <-. right; right; left.
      split; [exact Hpa |]. split; [exact Hst |].
      exists delta. split; [exact Ht | reflexivity].
    + rewrite (frameKind_raises pr mounted keys delta s m K) in Hrun. discriminate.
    + destruct (frameKind_wallHit pr mounted keys delta s m K) as (_ & Hpa & Hst & _).
      destruct (wallHit_cart pr mounted keys delta s m K)
        as (closest & nextPoint & Hnear & _ & H).
      rewrite H in Hrun. injection Hrun as <-.
      right; right; right; left.
      split; [exact Hpa |]. split; [exact Hst |].
      exists closest, nextPoint. split; [exact Hnear | reflexivity].
    + destruct (drives_cart pr mounted keys delta s m K)
        as (out' & controls & c0 & Hc & Hrun' & Hpa & Hst & Hvalid & _ & _ & Hpos & H).
      rewrite Hrun in Hrun'. injection Hrun' as <-.
      right; right; right; right; left.
      split; [exact Hpa |]. split; [exact Hst |].
      exists keys, delta, controls, c0,
        (fst (checkCartCollisions pr (tentativePosition (motion controls delta s)) m)).
      split; [exact Ht |]. split; [exact Hc |]. split; [exact Hvalid |].
      split; [exact Hpos | exact H].
  - injection Hstep as <-. right; right; right; right; right.
    unfold hitStep, applyDamage.
    destruct (Z_lt_le_dec 1 (hitPoints s)) as [H | H].
    + left. split; [exact H |]. rewrite takeDamage_alive by exact H. reflexivity.
    + right. split; [exact H |]. rewrite takeDamage_fatal by exact H. reflexivity.
Qed.

Lemma demoHitOnce_reachable : reachable demoPlayer demoHitOnce.
Proof.
  apply (reachable_step demoPlayer (initialCart demoPlayer) demoHitOnce DamageEvent).
  - apply reachable_initial.
  - exact I.
  - reflexivity.
Qed.

(** ** What every reachable state of a cart satisfies *)

(** X1.  Through any run of frames and hits a cart's hit points stay
    between 1 and 10: the hit that would take the last point resets them
    to 10 in the same step, and frames never touch them. *)
Theorem health_stays_in_range (pr : Props) (s : Cart) :
  reachable pr s -> (1 <= hitPoints s <= 10)%Z.
Proof.
  intros Hreach.
  induction Hreach as [| s s' e Hreach IH Ht Hstep]; [cbn; lia |].
  destruct (step_shapes pr e s s' Ht Hstep)
    as [-> | [Hp | [Hs | [Hw | [Hd | Hh]]]]].
  - exact IH.
  - destruct Hp as (_ & delta & _ & ->).
    destruct (Rleb _ 0); exact IH.
  - destruct Hs as (_ & _ & delta & _ & ->).
    destruct (Rleb _ 0); exact IH.
  - destruct Hw as (_ & _ & closest & nextPoint & _ & ->). exact IH.
  - destruct Hd as (_ & _ & keys & delta & controls & c0 & hit & H).
    destruct H as (_ & _ & _ & _ & _ & _ & _ & _ & _ & _ & _ & _ & -> & _).
    exact IH.
  - destruct Hh as [[H ->] | [H ->]]; cbn [hitPoints]; lia.
Qed.

Lemma health_stays_in_range_witness : (1 <= hitPoints demoHitOnce <= 10)%Z.
Proof. exact (health_stays_in_range demoPlayer demoHitOnce demoHitOnce_reachable). Defined.





Lemma countdown_range (delta prev : R) :
  0 <= delta -> 0 <= prev ->
  0 <= countdown delta prev <= prev
  /\ (Rleb (countdown delta prev) 0 = true -> countdown delta prev = 0)
  /\ (Rleb (countdown delta prev) 0 = false -> 0 < countdown delta prev).
Proof.
  intros Hd Hp. unfold countdown, Rmax.
  destruct (Rle_dec 0 (prev - delta)) as [H | H].
  - split; [lra |]. split; intros E.
    + apply Rleb_true in E. lra.
    + apply Rleb_false in E. lra.
  - split; [lra |]. split; intros E.
    + reflexivity.
    + apply Rleb_false in E. lra.
Qed.

(** X3.  The pause and stun flags always agree with their timers: a cart
    is paused exactly when its pause timer is positive and stunned exactly
    when its stun timer is positive; the pause timer never leaves [0, 3]
    nor the stun timer [0, 0.1]. *)
Theorem flags_agree_with_timers (pr : Props) (s : Cart) :
  reachable pr s ->
  (isPaused s = true <-> 0 < pauseTimeLeft s)
  /\ 0 <= pauseTimeLeft s <= 3
  /\ (isStunned s = true <-> 0 < stunTimeLeft s)
  /\ 0 <= stunTimeLeft s <= 0.1.
Proof.
  intros Hreach.
  induction Hreach as [| s s' e Hreach IH Ht Hstep].
  { cbn. repeat split; try discriminate; lra. }
  destruct IH as (IHp & IHpt & IHs & IHst).
  destruct (step_shapes pr e s s' Ht Hstep)
    as [-> | [Hp | [Hs | [Hw | [Hd | Hh]]]]].
  - auto.
  - destruct Hp as (Hpa & delta & Hdelta & ->).
    destruct (countdown_range delta (pauseTimeLeft s) Hdelta (proj1 IHpt))
      as (Hr & Hz & Hnz).
    destruct (Rleb (countdown delta (pauseTimeLeft s)) 0) eqn:E; cbn.
    + rewrite (Hz eq_refl). repeat split; try discriminate; try lra;
        try apply IHs.
    + specialize (Hnz eq_refl). rewrite Hpa.
      repeat split; try lra; try apply IHs; auto.
  - destruct Hs as (Hpa & Hst & delta & Hdelta & ->).
    destruct (countdown_range delta (stunTimeLeft s) Hdelta (proj1 IHst))
      as (Hr & Hz & Hnz).
    destruct (Rleb (countdown delta (stunTimeLeft s)) 0) eqn:E; cbn.
    + rewrite (Hz eq_refl). repeat split; try discriminate; try lra;
        try apply IHp.
    + specialize (Hnz eq_refl). rewrite Hst.
      repeat split; try lra; try apply IHp; auto.
  - destruct Hw as (_ & _ & closest & nextPoint & _ & ->). cbn.
    repeat split; try lra; try apply IHs; auto.
  - destruct Hd as (Hpa & Hst & keys & delta & controls & c0 & hit & H).
    destruct H as (_ & _ & _ & _ & _ & _ & _ & _ & -> & -> & -> & -> & _).
    rewrite Hpa in IHp. rewrite Hst in IHs. auto.
  - destruct Hh as [[H ->] | [H ->]]; cbn.
    + repeat split; try lra; try apply IHp; auto.
    + repeat split; try discriminate; lra.
Qed.

Lemma flags_agree_with_timers_witness :
  isStunned demoHitOnce = true <-> 0 < stunTimeLeft demoHitOnce.
Proof.
  exact (proj1 (proj2 (proj2
           (flags_agree_with_timers demoPlayer demoHitOnce demoHitOnce_reachable)))).
Defined.



(** ** The tracked index, and frames that never raise *)

Lemma checkpointOf_range (pr : Props) (i : nat) :
  trackPoints pr <> [] ->
  (i < List.length (trackPoints pr))%nat ->
  (0 <= checkpointOf pr i <= 3)%Z.
Proof.
  intros Hne Hi. rewrite (checkpointOf_quotient pr i Hne).
  assert (H : (4 * i / List.length (trackPoints pr) < 4)%nat).
  { apply Nat.Div0.div_lt_upper_bound. lia. }
  lia.
Qed.

Lemma isPositionValid_defined (track : list Vector3) (x z : R) :
  track <> [] -> exists b, isPositionValid track x z = Some b.
Proof.
  intros Hne. unfold isPositionValid.
  destruct (findClosest_nearest track x z Hne) as (p & _ & -> & _).
  destruct (nextIndex_defined track (closestIndex (findClosest track x z)) Hne)
    as (q & ->).
  eexists; reflexivity.
Qed.

Lemma frameControls_defined (pr : Props) (keys : Keys) (s : Cart) :
  (currentTrackIndex s < List.length (trackPoints pr))%nat ->
  exists controls c0,
    frameControls pr keys s = Some (controls, c0)
    /\ (currentTrackIndex c0 < List.length (trackPoints pr))%nat
    /\ (isPlayer pr = false -> backward controls = false).
Proof.
  intros Hi. unfold frameControls.
  destruct (isPlayer pr) eqn:Hp.
  { exists keys, s. split; [reflexivity |]. split; [exact Hi | discriminate]. }
  destruct (nth_error (trackPoints pr) (currentTrackIndex s)) as [firstTarget |] eqn:Hf.
  2:{ apply nth_error_None in Hf. lia. }
  destruct (aiTarget_eval pr s firstTarget Hf) as (tp & _ & Htg).
  cbv zeta in Htg.
  destruct (angleDifference_total
              (atan2 (vx tp - vx (position s)) (vz tp - vz (position s)))
              (rotation s)) as (angleDiff & Hangle).
  unfold getAIControls. rewrite Hp, Htg. cbn [advancedIndex targetPoint].
  rewrite Hangle.
  eexists; eexists. split; [reflexivity |].
  split; [| intros _; reflexivity].
  destruct (Rltb _ 3); cbn [currentTrackIndex setCurrentTrackIndex].
  - apply Nat.mod_upper_bound. lia.
  - exact Hi.
Qed.

Lemma frameControls_onTrack (pr : Props) (keys : Keys) (s : Cart)
  (controls : Keys) (c0 : Cart) :
  frameControls pr keys s = Some (controls, c0) ->
  (currentTrackIndex s < List.length (trackPoints pr))%nat ->
  (currentTrackIndex c0 < List.length (trackPoints pr))%nat
  /\ (isPlayer pr = false -> backward controls = false).
Proof.
  intros Hc Hi.
  destruct (frameControls_defined pr keys s Hi) as (controls' & c0' & Hc' & H).
  rewrite Hc in Hc'. injection Hc' as <- <-. exact H.
Qed.

Lemma useFrame_defined (pr : Props) (mounted : bool) (keys : Keys) (delta : R)
  (s : Cart) (m : PosMap) :
  trackPoints pr <> [] ->
  (currentTrackIndex s < List.length (trackPoints pr))%nat ->
  exists out, useFrame pr mounted keys delta s m = Some out.
Proof.
  intros Hne Hi.
  destruct (useFrame pr mounted keys delta s m) as [out |] eqn:Hrun;
    [exists out; reflexivity | exfalso].
  unfold useFrame in Hrun.
  destruct mounted; cbn [negb] in Hrun; [| discriminate].
  destruct (isPaused s); [discriminate |].
  destruct (isStunned s); [discriminate |].
  destruct (frameControls_defined pr keys s Hi) as (controls & c0 & Hc & _).
  rewrite Hc in Hrun. cbv zeta in Hrun.
  match type of Hrun with
  | context [isPositionValid ?t ?x ?z] =>
      destruct (isPositionValid_defined t x z Hne) as ([|] & Hv);
      rewrite Hv in Hrun
  end.
  - destruct (checkCartCollisions pr _ m); discriminate.
  - destruct (resetToTrackCenter_result pr s c0 Hne) as (? & ? & _ & _ & Hr).
    cbv zeta in Hr. rewrite Hr in Hrun. discriminate.
Qed.

Lemma reachable_onTrack (pr : Props) (s : Cart) :
  trackPoints pr <> [] ->
  reachable pr s ->
  (currentTrackIndex s < List.length (trackPoints pr))%nat
  /\ (-1 <= lastCheckpoint s <= 3)%Z.
Proof.
  intros Hne Hreach.
  assert (Hlen : (0 < List.length (trackPoints pr))%nat).
  { destruct (trackPoints pr); [contradiction | cbn; lia]. }
  induction Hreach as [| s s' e Hreach IH Ht Hstep]; [cbn; lia |].
  destruct IH as [IHi IHc].
  destruct (step_shapes pr e s s' Ht Hstep)
    as [-> | [Hp | [Hs | [Hw | [Hd | Hh]]]]].
  - auto.
  - destruct Hp as (_ & delta & _ & ->). destruct (Rleb _ 0); auto.
  - destruct Hs as (_ & _ & delta & _ & ->). destruct (Rleb _ 0); auto.
  - destruct Hw as (_ & _ & closest & nextPoint & [Hnth _] & ->).
    cbn [currentTrackIndex lastCheckpoint]. split; [| exact IHc].
    apply nth_error_Some. rewrite Hnth. discriminate.
  - destruct Hd as (_ & _ & keys & delta & controls & c0 & hit & H).
    destruct H as (_ & Hc & _ & _ & _ & _ & _ & Hi & _ & _ & _ & _ & _ & _ & _
                   & _ & Hl).
    rewrite Hi, Hl.
    split; [apply (frameControls_onTrack pr keys s controls c0 Hc IHi) |].
    destruct (lapAccounting_result pr s s) as [_ ->].
    pose proof (checkpointOf_range pr (currentTrackIndex s) Hne IHi) as Hcp.
    unfold currentCheckpoint.
    destruct (_ =? _)%Z; lia.
  - destruct Hh as [[H ->] | [H ->]]; cbn [currentTrackIndex lastCheckpoint];
      split; try assumption; lia.
Qed.



(** ** What the AI asks for *)

Lemma angleDifference_in_range (targetDirection rotation : R) :
  - PI <= targetDirection - rotation <= PI ->
  angleDifference targetDirection rotation = Some (targetDirection - rotation).
Proof.
  intros [Hlo Hhi]. unfold angleDifference, normalizeAngle.
  destruct (loopFuel_bound (targetDirection - rotation)) as (n & -> & _).
  unfold normalizeWith; simpl.
  destruct (Rlt_dec PI (targetDirection - rotation)); [lra |].
  destruct (Rlt_dec (targetDirection - rotation) (- PI)); [lra |].
  reflexivity.
Qed.

Lemma atan2_along_x (y x : R) : x = 0 -> 0 < y -> atan2 y x = PI / 2.
Proof.
  intros -> Hy. unfold atan2.
  destruct (Rlt_dec 0 0); [lra |].
  destruct (Rlt_dec 0 y); [reflexivity | lra].
Qed.

(** X6.  For an AI cart whose tracked index is on the track,
    [getAIControls] returns.  Its target is the track point
    [floor(lookahead / 3)] places after the tracked index; the angle error
    is the code's [angleDifference] between [atan2] of the horizontal
    offset to that target and the cart's heading: that difference shifted
    by whole turns into [-PI, PI], and the difference itself when it is
    already there.  The controls never ask for [backward], never for
    [left] and [right] together, ask for [forward] exactly when the
    velocity is below the style's target speed, for [left] exactly when
    the angle error is above the style's threshold and for [right] exactly
    when it is below minus the threshold. *)
Theorem ai_controls (pr : Props) (s c : Cart) (firstTarget : Vector3) :
  isPlayer pr = false ->
  nth_error (trackPoints pr) (currentTrackIndex s) = Some firstTarget ->
  exists tg controls c' angleDiff (k : Z),
    aiTarget pr s = Some tg
    /\ nth_error (trackPoints pr)
         ((currentTrackIndex s + lookaheadSteps (aiStyle pr))
          mod List.length (trackPoints pr))%nat
       = Some (targetPoint tg)
    /\ getAIControls pr s c = Some (controls, c')
    /\ (let targetDirection :=
          atan2 (vx (targetPoint tg) - vx (position s))
                (vz (targetPoint tg) - vz (position s)) in
        angleDifference targetDirection (rotation s) = Some angleDiff
        /\ angleDiff = targetDirection - rotation s + 2 * PI * IZR k
        /\ (- PI <= targetDirection - rotation s <= PI ->
            angleDiff = targetDirection - rotation s))
    /\ - PI <= angleDiff <= PI
    /\ backward controls = false
    /\ (forward controls = true <-> velocity s < speedTarget (aiStyle pr))
    /\ (left controls = true <-> turnThreshold (aiStyle pr) < angleDiff)
    /\ (right controls = true <-> angleDiff < - turnThreshold (aiStyle pr))
    /\ ~ (left controls = true /\ right controls = true).
Proof.
  intros Hai Hfirst.
  destruct (aiTarget_eval pr s firstTarget Hfirst) as (tp & Htp & Htg).
  cbv zeta in Htp, Htg.
  destruct (normalizeWith_enough
              (atan2 (vx tp - vx (position s)) (vz tp - vz (position s))
               - rotation s)) as (angleDiff & k & Hrun & Hk & Hrange).
  assert (Hangle : angleDifference
                     (atan2 (vx tp - vx (position s)) (vz tp - vz (position s)))
                     (rotation s) = Some angleDiff).
  { unfold angleDifference, normalizeAngle. apply Hrun. lia. }
  eexists; eexists; eexists; exists angleDiff, k.
  split; [exact Htg |]. cbn [targetPoint].
  split; [exact Htp |].
  split.
  { unfold getAIControls. rewrite Hai, Htg. cbn [advancedIndex targetPoint].
    rewrite Hangle. reflexivity. }
  cbn [forward backward left right].
  split.
  { cbv zeta. split; [exact Hangle |]. split; [exact Hk |].
    intros Hin. rewrite (angleDifference_in_range _ _ Hin) in Hangle.
    injection Hangle as <-. reflexivity. }
  split; [exact Hrange |].
  split; [reflexivity |].
  split; [apply Rltb_true |].
  split; [apply Rltb_true |].
  split; [apply Rltb_true |].
  intros [Hl Hr]. apply Rltb_true in Hl. apply Rltb_true in Hr.
  assert (0 < turnThreshold (aiStyle pr)).
  { unfold turnThreshold. destruct (aiStyle pr); lra. }
  lra.
Qed.

Lemma ai_controls_witness :
  exists c',
    getAIControls demoAI (movingAt 0 0 0 0) (movingAt 0 0 0 0)
    = Some (mkKeys true false true false, c').
Proof.
  destruct (ai_controls demoAI (movingAt 0 0 0 0) (movingAt 0 0 0 0) (mkVec 0 1 0)
              eq_refl eq_refl)
    as (tg & controls & c' & angleDiff & k & _ & Htp & Hrun & Hangle
        & _ & Hb & Hf & Hl & Hr & _).
  rewrite (lookaheadSteps_values (aiStyle demoAI)) in Htp.
  change (Some (mkVec 20 1 0) = Some (targetPoint tg)) in Htp.
  injection Htp as Htp.
  cbv zeta in Hangle. destruct Hangle as (_ & _ & Hsame).
  rewrite <- Htp in Hsame.
  change (vx (position (movingAt 0 0 0 0))) with 0 in Hsame.
  change (vz (position (movingAt 0 0 0 0))) with 0 in Hsame.
  change (rotation (movingAt 0 0 0 0)) with 0 in Hsame.
  cbn [vx vz] in Hsame.
  rewrite (atan2_along_x (20 - 0) (0 - 0)) in Hsame by lra.
  pose proof PI2_1 as Hpi.
  rewrite Hsame in Hl, Hr by lra.
  exists c'. rewrite Hrun. f_equal. f_equal.
  destruct controls as [fw bw lf rt]. cbn [forward backward left right] in *.
  assert (fw = true) as -> by (apply Hf; cbn; lra).
  assert (lf = true) as -> by (apply Hl; cbn; lra).
  assert (rt = false) as ->.
  { destruct rt; [| reflexivity]. destruct Hr as [Hr _].
    specialize (Hr eq_refl). cbn in Hr. lra. }
  rewrite Hb. reflexivity.
Defined.




(** ** The counters *)

(** X8.  The counters count: a hit by another cart adds one to the cart
    hits and leaves wall hits and laps; a frame leaves the cart hits, adds
    one to the wall hits exactly when it is a wall hit, and changes the
    lap counter only when it runs to the end, then by at most one. *)
Theorem counters_count (pr : Props) (e : Event) (s s' : Cart) :
  stepEvent pr e s = Some s' ->
  match e with
  | DamageEvent =>
      cartHits s' = (cartHits s + 1)%nat
      /\ wallHits s' = wallHits s /\ laps s' = laps s
  | FrameEvent mounted keys delta _ =>
      cartHits s' = cartHits s
      /\ wallHits s'
         = (wallHits s
            + match frameKind pr mounted keys delta s with
              | WallHit => 1 | _ => 0
              end)%nat
      /\ (laps s <= laps s' <= laps s + 1)%nat
      /\ (frameKind pr mounted keys delta s <> Drives -> laps s' = laps s)
  end.
Proof.
  intros Hstep.
  destruct e as [mounted keys delta m |]; cbn [stepEvent] in Hstep.
  - destruct (useFrame pr mounted keys delta s m) as [out |] eqn:Hrun;
      [| discriminate].
    injection Hstep as <-.
    destruct (frameKind_idle pr mounted keys delta s m) as (Hu & Hp & Hs).
    destruct (frameKind pr mounted keys delta s) eqn:K.
    + destruct (Hu eq_refl) as [_ H]. rewrite H in Hrun. injection Hrun as <-.
      cbn [cart]. repeat split; intros; clear; lia.
    + destruct (Hp eq_refl) as (_ & _ & H). rewrite H in Hrun.
      injection Hrun as <-. cbn [cart].
      match goal with |- context [Rleb ?a 0] => destruct (Rleb a 0) end;
        cbn; repeat split; intros; clear; lia.
    + destruct (Hs eq_refl) as (_ & _ & _ & H). rewrite H in Hrun.
      injection Hrun as <-. cbn [cart].
      match goal with |- context [Rleb ?a 0] => destruct (Rleb a 0) end;
        cbn; repeat split; intros; clear; lia.
    + rewrite (frameKind_raises pr mounted keys delta s m K) in Hrun. discriminate.
    + destruct (wallHit_cart pr mounted keys delta s m K)
        as (closest & nextPoint & _ & _ & H).
      rewrite H in Hrun. injection Hrun as <-. cbn. repeat split; intros; clear; lia.
    + destruct (drives_cart pr mounted keys delta s m K)
        as (out' & controls & c0 & _ & Hrun' & H).
      rewrite Hrun in Hrun'. injection Hrun' as <-.
      destruct H as (_ & _ & _ & _ & _ & _ & _ & _ & _ & _ & _ & _ & _ & _ & _
                     & Hw & Hc & Hl & _).
      rewrite Hw, Hc, Hl.
      destruct (lapAccounting_result pr s s) as [-> _].
      split; [reflexivity |]. split; [clear; lia |].
      split; [| intros H; contradiction].
      destruct (_ && _)%bool; clear; lia.
  - injection Hstep as <-.
    unfold applyDamage, takeDamage.
    destruct (_ <=? 0)%Z; cbn; repeat split; reflexivity.
Qed.

Lemma counters_count_witness :
  cartHits demoHitOnce = 1%nat /\ wallHits demoHitOnce = 0%nat.
Proof.
  destruct (counters_count demoPlayer DamageEvent (initialCart demoPlayer)
              demoHitOnce eq_refl) as (Hc & Hw & _).
  split; [exact Hc | exact Hw].
Defined.

(** ** How long the pause and the stun last *)

Lemma runEvents_app (pr : Props) (events more : list Event) :
  forall s,
    runEvents pr (events ++ more) s
    = match runEvents pr events s with
      | Some s' => runEvents pr more s'
      | None => None
      end.
Proof.
  induction events as [| e rest IH]; intros s; [reflexivity |].
  cbn [app runEvents]. destruct (stepEvent pr e s); [apply IH | reflexivity].
Qed.

Lemma paused_frame (pr : Props) (keys : Keys) (delta : R) (m : PosMap) (s : Cart) :
  isPaused s = true ->
  stepEvent pr (FrameEvent true keys delta m) s
  = Some (setPauseTimeLeft (countdown delta (pauseTimeLeft s))
            (if Rleb (countdown delta (pauseTimeLeft s)) 0
             then setIsPaused false s else s)).
Proof.
  intros Hp. cbn [stepEvent]. unfold useFrame. cbn [negb]. rewrite Hp. reflexivity.
Qed.

Lemma stunned_frame (pr : Props) (keys : Keys) (delta : R) (m : PosMap) (s : Cart) :
  isPaused s = false -> isStunned s = true ->
  stepEvent pr (FrameEvent true keys delta m) s
  = Some (setStunTimeLeft (countdown delta (stunTimeLeft s))
            (if Rleb (countdown delta (stunTimeLeft s)) 0
             then setIsStunned false s else s)).
Proof.
  intros Hp Hs. cbn [stepEvent]. unfold useFrame. cbn [negb].
  rewrite Hp, Hs. reflexivity.
Qed.

Lemma countdown_running (delta prev : R) :
  delta < prev -> 0 <= delta ->
  countdown delta prev = prev - delta
  /\ Rleb (countdown delta prev) 0 = false.
Proof.
  intros H Hd. unfold countdown. rewrite Rmax_right by lra.
  split; [reflexivity |]. apply Rleb_false. lra.
Qed.

Lemma countdown_done (delta prev : R) :
  prev <= delta ->
  countdown delta prev = 0 /\ Rleb (countdown delta prev) 0 = true.
Proof.
  intros H. unfold countdown. rewrite Rmax_left by lra.
  split; [reflexivity |]. apply Rleb_true. lra.
Qed.

Lemma setPauseTimeLeft_to (a b : R) (s : Cart) :
  a = b -> setPauseTimeLeft a s = setPauseTimeLeft b s.
Proof. intros ->. reflexivity. Qed.

Lemma setPauseTimeLeft_same (s : Cart) : setPauseTimeLeft (pauseTimeLeft s) s = s.
Proof. destruct s. reflexivity. Qed.

Lemma setStunTimeLeft_to (a b : R) (s : Cart) :
  a = b -> setStunTimeLeft a s = setStunTimeLeft b s.
Proof. intros ->. reflexivity. Qed.

Lemma setStunTimeLeft_same (s : Cart) : setStunTimeLeft (stunTimeLeft s) s = s.
Proof. destruct s. reflexivity. Qed.

Lemma pause_runs (pr : Props) (delta : R) (events : list Event) :
  0 < delta ->
  Forall (frameOf delta) events ->
  forall s,
    isPaused s = true ->
    INR (List.length events) * delta < pauseTimeLeft s ->
    runEvents pr events s
    = Some (setPauseTimeLeft
              (pauseTimeLeft s - INR (List.length events) * delta) s).
Proof.
  intros Hd Hall.
  induction Hall as [| e rest (keys & m & ->) Hrest IH]; intros s Hp Ht.
  - cbn [runEvents List.length INR]. f_equal.
    rewrite <- (setPauseTimeLeft_same s) at 1.
    apply setPauseTimeLeft_to. lra.
  - change (List.length (FrameEvent true keys delta m :: rest))
      with (S (List.length rest)) in *.
    rewrite S_INR in *.
    assert (Hn : 0 <= INR (List.length rest)) by apply pos_INR.
    cbn [runEvents]. rewrite paused_frame by exact Hp.
    destruct (countdown_running delta (pauseTimeLeft s)) as [-> ->]; [nra | lra |].
    rewrite IH.
    + f_equal.
      change (setPauseTimeLeft
                (pauseTimeLeft s - delta - INR (List.length rest) * delta) s
              = setPauseTimeLeft
                  (pauseTimeLeft s - (INR (List.length rest) + 1) * delta) s).
      apply setPauseTimeLeft_to. lra.
    + exact Hp.
    + cbn [pauseTimeLeft setPauseTimeLeft]. lra.
Qed.

(** X9.  A pause runs its time out frame by frame.  With frames of
    length [delta] on a mounted cart, a pause with time [T] left is still
    on after [n] frames if [n * delta < T], with [T - n * delta] left and
    nothing else changed (position, velocities, the stun and its timer
    included, whatever the keys and the shared map); the frame that
    reaches [T] ends it with the timer at 0. *)
Theorem pause_lasts (pr : Props) (delta : R) (events : list Event) (last : Event)
  (s : Cart) :
  0 < delta ->
  Forall (frameOf delta) events -> frameOf delta last ->
  isPaused s = true ->
  INR (List.length events) * delta < pauseTimeLeft s ->
  runEvents pr events s
  = Some (setPauseTimeLeft (pauseTimeLeft s - INR (List.length events) * delta) s)
  /\ (pauseTimeLeft s <= INR (S (List.length events)) * delta ->
      runEvents pr (events ++ [last]) s
      = Some (setPauseTimeLeft 0 (setIsPaused false s))).
Proof.
  intros Hd Hall (keys & m & ->) Hp Ht.
  pose proof (pause_runs pr delta events Hd Hall s Hp Ht) as Hrun.
  split; [exact Hrun |].
  intros Hend. rewrite runEvents_app, Hrun. cbn [runEvents].
  rewrite paused_frame by exact Hp.
  rewrite S_INR in Hend.
  destruct (countdown_done delta
              (pauseTimeLeft
                 (setPauseTimeLeft
                    (pauseTimeLeft s - INR (List.length events) * delta) s)))
    as [-> ->].
  - cbn [pauseTimeLeft setPauseTimeLeft]. lra.
  - reflexivity.
Qed.

Lemma demoTick_frameOf (delta : R) : frameOf delta (demoTick delta).
Proof. exists noKeys, []. reflexivity. Qed.

Lemma pause_lasts_witness :
  runEvents demoPlayer [demoTick 1; demoTick 1] demoPaused
  = Some (setPauseTimeLeft (3.0 - INR 2 * 1) demoPaused)
  /\ runEvents demoPlayer [demoTick 1; demoTick 1; demoTick 1] demoPaused
     = Some (setPauseTimeLeft 0 (setIsPaused false demoPaused)).
Proof.
  destruct (pause_lasts demoPlayer 1 [demoTick 1; demoTick 1] (demoTick 1)
              demoPaused) as [Hrun Hend].
  - lra.
  - repeat constructor; apply demoTick_frameOf.
  - apply demoTick_frameOf.
  - reflexivity.
  - cbn. lra.
  - split; [exact Hrun |]. apply Hend. cbn. lra.
Defined.

Lemma stun_runs (pr : Props) (delta : R) (events : list Event) :
  0 < delta ->
  Forall (frameOf delta) events ->
  forall s,
    isPaused s = false -> isStunned s = true ->
    INR (List.length events) * delta < stunTimeLeft s ->
    runEvents pr events s
    = Some (setStunTimeLeft
              (stunTimeLeft s - INR (List.length events) * delta) s).
Proof.
  intros Hd Hall.
  induction Hall as [| e rest (keys & m & ->) Hrest IH]; intros s Hp Hs Ht.
  - cbn [runEvents List.length INR]. f_equal.
    rewrite <- (setStunTimeLeft_same s) at 1.
    apply setStunTimeLeft_to. lra.
  - change (List.length (FrameEvent true keys delta m :: rest))
      with (S (List.length rest)) in *.
    rewrite S_INR in *.
    assert (Hn : 0 <= INR (List.length rest)) by apply pos_INR.
    cbn [runEvents]. rewrite stunned_frame by assumption.
    destruct (countdown_running delta (stunTimeLeft s)) as [-> ->]; [nra | lra |].
    rewrite IH.
    + f_equal.
      change (setStunTimeLeft
                (stunTimeLeft s - delta - INR (List.length rest) * delta) s
              = setStunTimeLeft
                  (stunTimeLeft s - (INR (List.length rest) + 1) * delta) s).
      apply setStunTimeLeft_to. lra.
    + exact Hp.
    + exact Hs.
    + cbn [stunTimeLeft setStunTimeLeft]. lra.
Qed.

(** X10.  The same for the stun of a cart that is not paused: it is still
    on after [n] frames of length [delta] if [n * delta] is below the time
    left, nothing but the timer changing, and the frame that reaches the
    time left clears it. *)
Theorem stun_lasts (pr : Props) (delta : R) (events : list Event) (last : Event)
  (s : Cart) :
  0 < delta ->
  Forall (frameOf delta) events -> frameOf delta last ->
  isPaused s = false -> isStunned s = true ->
  INR (List.length events) * delta < stunTimeLeft s ->
  runEvents pr events s
  = Some (setStunTimeLeft (stunTimeLeft s - INR (List.length events) * delta) s)
  /\ (stunTimeLeft s <= INR (S (List.length events)) * delta ->
      runEvents pr (events ++ [last]) s
      = Some (setStunTimeLeft 0 (setIsStunned false s))).
Proof.
  intros Hd Hall (keys & m & ->) Hp Hs Ht.
  pose proof (stun_runs pr delta events Hd Hall s Hp Hs Ht) as Hrun.
  split; [exact Hrun |].
  intros Hend. rewrite runEvents_app, Hrun. cbn [runEvents].
  rewrite stunned_frame by assumption.
  rewrite S_INR in Hend.
  destruct (countdown_done delta
              (stunTimeLeft
                 (setStunTimeLeft
                    (stunTimeLeft s - INR (List.length events) * delta) s)))
    as [-> ->].
  - cbn [stunTimeLeft setStunTimeLeft]. lra.
  - reflexivity.
Qed.

Lemma stun_lasts_witness :
  runEvents demoPlayer [demoTick 0.04; demoTick 0.04] demoStunned
  = Some (setStunTimeLeft (0.1 - INR 2 * 0.04) demoStunned)
  /\ runEvents demoPlayer [demoTick 0.04; demoTick 0.04; demoTick 0.04] demoStunned
     = Some (setStunTimeLeft 0 (setIsStunned false demoStunned)).
Proof.
  destruct (stun_lasts demoPlayer 0.04 [demoTick 0.04; demoTick 0.04]
              (demoTick 0.04) demoStunned) as [Hrun Hend].
  - lra.
  - repeat constructor; apply demoTick_frameOf.
  - apply demoTick_frameOf.
  - reflexivity.
  - reflexivity.
  - cbn. lra.
  - split; [exact Hrun |]. apply Hend. cbn. lra.
Defined.

(** ** The shared position map *)

Lemma mapGet_mapSet_same (k : string) (v : Vector3) (m : PosMap) :
  mapGet k (mapSet k v m) = Some v.
Proof.
  induction m as [| [k' v'] m IH]; cbn [mapSet mapGet].
  - rewrite String.eqb_refl. reflexivity.
  - destruct (String.eqb_spec k' k) as [E | E]; cbn [mapGet].
    + rewrite String.eqb_refl. reflexivity.
    + destruct (String.eqb_spec k' k); [contradiction | exact IH].
Qed.

Lemma mapGet_mapSet_other (k k0 : string) (v : Vector3) (m : PosMap) :
  k0 <> k -> mapGet k0 (mapSet k v m) = mapGet k0 m.
Proof.
  intros Hne.
  induction m as [| [k' v'] m IH]; cbn [mapSet mapGet].
  - destruct (String.eqb_spec k k0); [congruence | reflexivity].
  - destruct (String.eqb_spec k' k) as [E | E]; cbn [mapGet].
    + subst k'. destruct (String.eqb_spec k k0); [congruence | reflexivity].
    + destruct (String.eqb_spec k' k0); [reflexivity | exact IH].
Qed.

Lemma mapSet_keys (k : string) (v : Vector3) (m : PosMap) :
  map fst (mapSet k v m)
  = match mapGet k m with
    | Some _ => map fst m
    | None => map fst m ++ [k]
    end.
Proof.
  induction m as [| [k' v'] m IH]; cbn [mapSet mapGet map fst app].
  - reflexivity.
  - destruct (String.eqb_spec k' k) as [E | E]; cbn [map fst].
    + subst k'. reflexivity.
    + rewrite IH. destruct (mapGet k m); reflexivity.
Qed.

(** X11.  Only a frame that runs to the end writes the shared map: it
    puts the cart's new position under the cart's own id, leaves every
    other id's entry as it was, and keeps the order of the ids already in
    the map (a first write goes to the end).  A frame that returns early
    (not mounted, paused, stunned, wall hit) leaves the map untouched, so
    after a wall hit the map still holds the position published before. *)
Theorem frame_map_writes (pr : Props) (mounted : bool) (keys : Keys) (delta : R)
  (s : Cart) (m : PosMap) (out : FrameResult) :
  useFrame pr mounted keys delta s m = Some out ->
  (frameKind pr mounted keys delta s = Drives ->
   mapGet (cartId pr) (positions out) = Some (position (cart out))
   /\ (forall id, id <> cartId pr -> mapGet id (positions out) = mapGet id m)
   /\ map fst (positions out)
      = match mapGet (cartId pr) m with
        | Some _ => map fst m
        | None => map fst m ++ [cartId pr]
        end)
  /\ (frameKind pr mounted keys delta s <> Drives -> positions out = m).
Proof.
  intros Hrun. split.
  - intros K.
    destruct (drives_cart pr mounted keys delta s m K)
      as (out' & controls & c0 & _ & Hrun' & _ & _ & _ & Hmap & _).
    rewrite Hrun in Hrun'. injection Hrun' as <-.
    rewrite Hmap.
    split; [apply mapGet_mapSet_same |].
    split; [intros id Hid; apply mapGet_mapSet_other, Hid | apply mapSet_keys].
  - intros K.
    destruct (frameKind_idle pr mounted keys delta s m) as (Hu & Hp & Hs).
    destruct (frameKind pr mounted keys delta s) eqn:E.
    + destruct (Hu eq_refl) as [_ H]. rewrite H in Hrun.
      injection Hrun as <-. reflexivity.
    + destruct (Hp eq_refl) as (_ & _ & H). rewrite H in Hrun.
      injection Hrun as <-. reflexivity.
    + destruct (Hs eq_refl) as (_ & _ & _ & H). rewrite H in Hrun.
      injection Hrun as <-. reflexivity.
    + rewrite (frameKind_raises pr mounted keys delta s m E) in Hrun. discriminate.
    + destruct (wallHit_cart pr mounted keys delta s m E)
        as (closest & nextPoint & _ & _ & H).
      rewrite H in Hrun. injection Hrun as <-. reflexivity.
    + contradiction.
Qed.

Lemma frame_map_writes_witness :
  exists out,
    useFrame demoPlayer true noKeys (1 / 60) (restingAt 0) [] = Some out
    /\ mapGet "player"%string (positions out) = Some (position (cart out))
    /\ map fst (positions out) = ["player"%string].
Proof.
  destruct (useFrame_defined demoPlayer true noKeys (1 / 60) (restingAt 0) [])
    as (out & Hrun); [discriminate | cbn; lia |].
  destruct (frame_map_writes demoPlayer true noKeys (1 / 60) (restingAt 0) [] out
              Hrun) as [Hdrive _].
  destruct (Hdrive demo_drives) as (Hget & _ & Hkeys).
  exists out. split; [exact Hrun |]. split; [exact Hget | exact Hkeys].
Defined.

(** ** How far a frame moves a cart *)

(** X12.  A frame that runs to the end moves the cart, in the horizontal
    plane, by exactly the magnitude of the velocity it stores when no cart
    collision is detected, and not at all when one is; either way by no
    more than that magnitude. *)
Theorem frame_step_length (pr : Props) (mounted : bool) (keys : Keys)
  (delta : R) (s : Cart) (m : PosMap) :
  frameKind pr mounted keys delta s = Drives ->
  exists out controls c0,
    frameControls pr keys s = Some (controls, c0)
    /\ useFrame pr mounted keys delta s m = Some out
    /\ (let moved :=
          dist2d (vx (position (cart out))) (vz (position (cart out)))
                 (vx (position s)) (vz (position s)) in
        moved = (if fst (checkCartCollisions pr
                           (tentativePosition (motion controls delta s)) m)
                 then 0 else Rabs (velocity (cart out)))
        /\ 0 <= moved <= Rabs (velocity (cart out))).
Proof.
  intros K.
  destruct (drives_cart pr mounted keys delta s m K)
    as (out & controls & c0 & Hc & Hrun & _ & _ & _ & _ & _ & Hpos & Hv & _).
  exists out, controls, c0.
  split; [exact Hc |]. split; [exact Hrun |]. cbv zeta.
  rewrite Hpos.
  destruct (fst (checkCartCollisions pr
                   (tentativePosition (motion controls delta s)) m)).
  - rewrite dist2d_same.
    split; [reflexivity |]. split; [lra | apply Rabs_pos].
  - cbn [tentativePosition motion vx vz].
    rewrite step_length. fold (updateVelocity controls delta (velocity s)).
    rewrite <- Hv.
    split; [reflexivity |]. split; [apply Rabs_pos | lra].
Qed.

Lemma frame_step_length_witness :
  (exists out,
      useFrame demoPlayer true forwardKeys (1 / 60) (movingAt 0 (PI / 2) 0.3 0) []
      = Some out
      /\ velocity (cart out) = 0.3008
      /\ dist2d (vx (position (cart out))) (vz (position (cart out))) 0 0 = 0.3008)
  /\ (exists out,
         useFrame demoPlayer true forwardLeftKeys (1 / 60)
           (movingAt 0 (PI / 2) 0.3 0) demoOther = Some out
         /\ velocity (cart out) = 0.3008
         /\ dist2d (vx (position (cart out))) (vz (position (cart out))) 0 0 = 0).
Proof.
  destruct demo_moving_speeds as (Hvl & _ & Hvf & _).
  assert (Hkf : frameKind demoPlayer true forwardKeys (1 / 60)
                  (movingAt 0 (PI / 2) 0.3 0) = Drives).
  { apply demo_moving_kind. rewrite Hvf, Rabs_right; lra. }
  assert (Hkl : frameKind demoPlayer true forwardLeftKeys (1 / 60)
                  (movingAt 0 (PI / 2) 0.3 0) = Drives).
  { apply demo_moving_kind. rewrite Hvl, Rabs_right; lra. }
  split.
  - destruct (frame_step_length demoPlayer true forwardKeys (1 / 60)
                (movingAt 0 (PI / 2) 0.3 0) [] Hkf)
      as (out & controls & c0 & Hc & Hrun & Hmoved & _).
    destruct (drives_stores_motion demoPlayer true forwardKeys (1 / 60)
                (movingAt 0 (PI / 2) 0.3 0) [] forwardKeys
                (movingAt 0 (PI / 2) 0.3 0) Hkf
                (frameControls_player demoPlayer forwardKeys
                   (movingAt 0 (PI / 2) 0.3 0) eq_refl))
      as (out' & Hrun' & Hvel & _).
    rewrite Hrun in Hrun'. injection Hrun' as <-.
    change (velocity (movingAt 0 (PI / 2) 0.3 0)) with 0.3 in Hvel.
    rewrite Hvf in Hvel.
    exists out. split; [exact Hrun |]. split; [exact Hvel |].
    change (vx (position (movingAt 0 (PI / 2) 0.3 0))) with 0 in Hmoved.
    change (vz (position (movingAt 0 (PI / 2) 0.3 0))) with 0 in Hmoved.
    rewrite Hmoved, Hvel. cbn [checkCartCollisions fst].
    apply Rabs_right. lra.
  - destruct (frame_step_length demoPlayer true forwardLeftKeys (1 / 60)
                (movingAt 0 (PI / 2) 0.3 0) demoOther Hkl)
      as (out & controls & c0 & Hc & Hrun & Hmoved & _).
    rewrite frameControls_player in Hc by reflexivity.
    injection Hc as <- <-.
    destruct (drives_stores_motion demoPlayer true forwardLeftKeys (1 / 60)
                (movingAt 0 (PI / 2) 0.3 0) demoOther forwardLeftKeys
                (movingAt 0 (PI / 2) 0.3 0) Hkl
                (frameControls_player demoPlayer forwardLeftKeys
                   (movingAt 0 (PI / 2) 0.3 0) eq_refl))
      as (out' & Hrun' & Hvel & _).
    rewrite Hrun in Hrun'. injection Hrun' as <-.
    change (velocity (movingAt 0 (PI / 2) 0.3 0)) with 0.3 in Hvel.
    rewrite Hvl in Hvel.
    exists out. split; [exact Hrun |]. split; [exact Hvel |].
    change (vx (position (movingAt 0 (PI / 2) 0.3 0))) with 0 in Hmoved.
    change (vz (position (movingAt 0 (PI / 2) 0.3 0))) with 0 in Hmoved.
    rewrite Hmoved, demo_moving_bump. reflexivity.
Defined.

(** ** Track queries *)

Lemma heightScan_follows (x z : R) (pts : list Vector3) :
  forall (i : nat) (acc : Closest) (hacc : option R * R),
    fst hacc = closestDistance acc ->
    (forall p, closestTrackPoint acc = Some p -> closestDistance acc <> None ->
               snd hacc = vy p) ->
    fst (fold_left (heightStep x z) pts hacc)
    = closestDistance (closestLoop x z pts i acc)
    /\ (forall p,
          closestTrackPoint (closestLoop x z pts i acc) = Some p ->
          closestDistance (closestLoop x z pts i acc) <> None ->
          snd (fold_left (heightStep x z) pts hacc) = vy p).
Proof.
  induction pts as [| point rest IH]; intros i acc hacc Hd Hh.
  - cbn. split; [exact Hd | exact Hh].
  - cbn [fold_left closestLoop]. apply IH.
    + unfold heightStep. rewrite Hd.
      destruct (ltInf _ (closestDistance acc)); [reflexivity | exact Hd].
    + unfold heightStep. rewrite Hd.
      destruct (ltInf _ (closestDistance acc)).
      * cbn. intros p Hp _. injection Hp as <-. reflexivity.
      * exact Hh.
Qed.



(** X14.  [isPositionValid] raises only on an empty track.  A position
    it accepts lies within 5.2 (half the track width less the cart radius)
    of its nearest track point; so a position farther than 5.2 from every
    track point is rejected. *)
Theorem isPositionValid_near_centerline (track : list Vector3) (x z : R) :
  (isPositionValid track x z = None <-> track = [])
  /\ (isPositionValid track x z = Some true ->
      exists p,
        nearestAt track x z (closestIndex (findClosest track x z)) p
        /\ distTo x z p <= 5.2)
  /\ (track <> [] ->
      (forall p, In p track -> 5.2 < distTo x z p) ->
      isPositionValid track x z = Some false).
Proof.
  assert (Hshape : track <> [] ->
          exists p b,
            nearestAt track x z (closestIndex (findClosest track x z)) p
            /\ isPositionValid track x z
               = Some (Rleb (distTo x z p) (trackWidth / 2 - cartRadius) && b)%bool).
  { intros Hne.
    destruct (findClosest_nearest track x z Hne) as (p & _ & Hp & Hnear).
    destruct (nextIndex_defined track (closestIndex (findClosest track x z)) Hne)
      as (q & Hq).
    unfold isPositionValid. rewrite Hp, Hq.
    exists p. eexists. split; [exact Hnear |].
    rewrite <- andb_assoc. reflexivity. }
  split; [| split].
  - split.
    + intros Hnone. destruct track as [| p0 rest]; [reflexivity |].
      destruct Hshape as (p & b & _ & H); [discriminate |]. congruence.
    + intros ->. reflexivity.
  - intros Hvalid.
    assert (Hne : track <> []) by (intros ->; discriminate).
    destruct (Hshape Hne) as (p & b & Hnear & H).
    exists p. split; [exact Hnear |].
    rewrite H in Hvalid. injection Hvalid as Hvalid.
    apply andb_prop in Hvalid. destruct Hvalid as [Hle _].
    apply Rleb_true in Hle. unfold trackWidth, cartRadius in Hle. lra.
  - intros Hne Hfar.
    destruct (Hshape Hne) as (p & b & [Hnth _] & ->).
    apply nth_error_In in Hnth. specialize (Hfar p Hnth).
    replace (Rleb (distTo x z p) (trackWidth / 2 - cartRadius)) with false;
      [reflexivity |].
    symmetry. apply Rleb_false. unfold trackWidth, cartRadius. lra.
Qed.

Lemma isPositionValid_near_centerline_witness :
  isPositionValid demoTrack 0 (-6) = Some false.
Proof.
  destruct (isPositionValid_near_centerline demoTrack 0 (-6)) as (_ & _ & H).
  apply H; [discriminate |].
  intros p Hin. unfold distTo.
  apply dist2d_above; [lra |].
  cbn in Hin.
  destruct Hin as [<- | [<- | [<- | [<- | []]]]]; cbn [vx vz]; nra.
Defined.

(** ** The boundary points *)

Lemma dist2d_eq (c ax az x z : R) :
  0 <= c -> (ax - x) ^ 2 + (az - z) ^ 2 = c * c -> dist2d ax az x z = c.
Proof.
  intros Hc H. unfold dist2d. rewrite H. apply sqrt_square, Hc.
Qed.

(** The squared horizontal length of the perpendicular that
    [createTrackGeometry] and [isPositionValid] build from a step
    [(dx, dy, dz)]: at most 1, and 1 on a level step that is not zero. *)
Lemma perpendicular_length (dx dy dz : R) :
  let l := sqrt (dx * dx + dy * dy + dz * dz) in
  let k := 1 / (if Req_dec_T l 0 then 1 else l) in
  0 <= k
  /\ 0 <= k * k * (dx * dx + dz * dz) <= 1
  /\ (dy = 0 -> dx <> 0 \/ dz <> 0 -> k * k * (dx * dx + dz * dz) = 1)
  /\ (dx = 0 -> dz = 0 -> k * k * (dx * dx + dz * dz) = 0).
Proof.
  intros l k.
  assert (HS : 0 <= dx * dx + dy * dy + dz * dz) by nra.
  assert (Hl : 0 <= l) by apply sqrt_pos.
  assert (Hll : l * l = dx * dx + dy * dy + dz * dz) by (apply sqrt_sqrt, HS).
  subst k. destruct (Req_dec_T l 0) as [E | E].
  - rewrite E in Hll.
    assert (dx = 0 /\ dy = 0 /\ dz = 0) as (-> & -> & ->) by (repeat split; nra).
    split; [lra |]. split; [lra |].
    split; [intros _ [H | H]; contradiction | intros; lra].
  - assert (Hpos : 0 < l) by lra.
    assert (Hk : 1 / l * (1 / l) * (l * l) = 1) by (field; lra).
    assert (Hk0 : 0 < 1 / l) by (apply Rdiv_lt_0_compat; lra).
    split; [lra |].
    set (q := 1 / l * (1 / l)) in *.
    assert (Hsq : 0 <= q) by (unfold q; nra).
    assert (Hh : 0 <= dx * dx + dz * dz) by nra.
    assert (Hgap : 0 <= q * (dy * dy)) by (apply Rmult_le_pos; nra).
    assert (Hsum : q * (dx * dx + dz * dz) + q * (dy * dy) = 1).
    { rewrite <- Hk, Hll. ring. }
    split; [| split].
    + split; [apply Rmult_le_pos; assumption | lra].
    + intros Hy _. rewrite Hy in Hsum. lra.
    + intros -> ->. lra.
Qed.

(** On a step that is not level the perpendicular is shorter: the vertical
    part of the step takes its share of the unit length. *)
Lemma perpendicular_slope (dx dy dz : R) :
  let l := sqrt (dx * dx + dy * dy + dz * dz) in
  let k := 1 / (if Req_dec_T l 0 then 1 else l) in
  (dy <> 0 -> k * k * (dx * dx + dz * dz) < 1)
  /\ k * k * (dx * dx + dz * dz) * (dx * dx + dy * dy + dz * dz)
     = dx * dx + dz * dz.
Proof.
  intros l k.
  assert (HS : 0 <= dx * dx + dy * dy + dz * dz) by nra.
  assert (Hl : 0 <= l) by apply sqrt_pos.
  assert (Hll : l * l = dx * dx + dy * dy + dz * dz) by (apply sqrt_sqrt, HS).
  subst k. destruct (Req_dec_T l 0) as [E | E].
  - rewrite E in Hll.
    assert (dx = 0 /\ dy = 0 /\ dz = 0) as (-> & -> & ->) by (repeat split; nra).
    split; [intros H; contradiction | lra].
  - assert (Hpos : 0 < l) by lra.
    assert (Hk : 1 / l * (1 / l) * (l * l) = 1) by (field; lra).
    set (q := 1 / l * (1 / l)) in *.
    assert (Hsq : 0 < q) by (unfold q; apply Rmult_lt_0_compat;
                             apply Rdiv_lt_0_compat; lra).
    assert (Hsum : q * (dx * dx + dz * dz) + q * (dy * dy) = 1).
    { rewrite <- Hk, Hll. ring. }
    split.
    + intros Hy. assert (0 < dy * dy) by nra.
      assert (0 < q * (dy * dy)) by (apply Rmult_lt_0_compat; assumption).
      lra.
    + rewrite <- Hll.
      replace (q * (dx * dx + dz * dz) * (l * l))
        with (q * (l * l) * (dx * dx + dz * dz)) by ring.
      rewrite Hk. ring.
Qed.

Lemma boundaryAt_geometry (track : list Vector3) (index : nat)
  (point innerPoint outerPoint : Vector3) :
  boundaryAt track index point = Some (innerPoint, outerPoint) ->
  exists nextPoint,
    nth_error track ((index + 1) mod List.length track)%nat = Some nextPoint
    /\ vx innerPoint + vx outerPoint = 2 * vx point
    /\ vz innerPoint + vz outerPoint = 2 * vz point
    /\ vy innerPoint = vy point /\ vy outerPoint = vy point
    /\ dist2d (vx innerPoint) (vz innerPoint) (vx point) (vz point)
       = dist2d (vx outerPoint) (vz outerPoint) (vx point) (vz point)
    /\ dist2d (vx innerPoint) (vz innerPoint) (vx point) (vz point) <= 6
    /\ (vy nextPoint = vy point ->
        vx nextPoint <> vx point \/ vz nextPoint <> vz point ->
        dist2d (vx innerPoint) (vz innerPoint) (vx point) (vz point) = 6)
    /\ (vx nextPoint = vx point -> vz nextPoint = vz point ->
        dist2d (vx innerPoint) (vz innerPoint) (vx point) (vz point) = 0)
    /\ (vy nextPoint <> vy point ->
        dist2d (vx innerPoint) (vz innerPoint) (vx point) (vz point) < 6)
    /\ dist2d (vx innerPoint) (vz innerPoint) (vx point) (vz point)
       * length (subVectors nextPoint point)
       = 6 * dist2d (vx nextPoint) (vz nextPoint) (vx point) (vz point)
    /\ (vx innerPoint - vx point) * (vx nextPoint - vx point)
       + (vz innerPoint - vz point) * (vz nextPoint - vz point) = 0.
Proof.
  unfold boundaryAt.
  destruct (nth_error track _) as [nextPoint |]; [| discriminate].
  intros H. injection H as <- <-. exists nextPoint.
  split; [reflexivity |].
  unfold normalize, length, subVectors, multiplyScalar, addVec, trackWidth.
  cbn [vx vy vz].
  set (dx := vx nextPoint - vx point). set (dy := vy nextPoint - vy point).
  set (dz := vz nextPoint - vz point).
  destruct (perpendicular_length dx dy dz) as (Hk & Hrange & Hlevel & Hzero).
  destruct (perpendicular_slope dx dy dz) as (Hslope & Hexact).
  cbv zeta in *.
  set (k := 1 / (if Req_dec_T (sqrt (dx * dx + dy * dy + dz * dz)) 0
                 then 1 else sqrt (dx * dx + dy * dy + dz * dz))) in *.
  set (t := k * k * (dx * dx + dz * dz)) in *.
  assert (Hdist : forall ax az,
             (ax - vx point) ^ 2 + (az - vz point) ^ 2 = 36 * t ->
             dist2d ax az (vx point) (vz point) = 6 * sqrt t).
  { intros ax az H. apply dist2d_eq; [pose proof (sqrt_pos t); lra |].
    replace (6 * sqrt t * (6 * sqrt t)) with (36 * (sqrt t * sqrt t)) by ring.
    rewrite sqrt_sqrt by lra. exact H. }
  match goal with
  | |- context [dist2d ?a ?b (vx point) (vz point)
                = dist2d ?c ?d (vx point) (vz point)] =>
      assert (Hin : dist2d a b (vx point) (vz point) = 6 * sqrt t)
        by (apply Hdist; unfold t; field);
      assert (Hout : dist2d c d (vx point) (vz point) = 6 * sqrt t)
        by (apply Hdist; unfold t; field)
  end.
  split; [lra |]. split; [lra |]. split; [lra |]. split; [lra |].
  rewrite Hin, Hout.
  split; [reflexivity |].
  split; [| split; [| split; [| split; [| split]]]].
  - assert (sqrt t <= 1).
    { rewrite <- sqrt_1. apply sqrt_le_1_alt. lra. }
    lra.
  - intros Hy Hxz.
    rewrite Hlevel; [rewrite sqrt_1; lra | unfold dy; lra |].
    unfold dx, dz. destruct Hxz; [left | right]; lra.
  - intros Hx Hz.
    rewrite Hzero by (unfold dx, dz; lra). rewrite sqrt_0. lra.
  - intros Hy.
    assert (sqrt t < 1).
    { rewrite <- sqrt_1. apply sqrt_lt_1_alt.
      split; [lra | apply Hslope; unfold dy; lra]. }
    lra.
  - unfold dist2d. fold dx dz.
    replace (dx ^ 2 + dz ^ 2) with (dx * dx + dz * dz) by ring.
    rewrite <- Hexact.
    rewrite sqrt_mult by (lra || nra). ring.
  - fold dx dz. field.
Qed.

Lemma boundaryLoop_result (track : list Vector3) (pts : list Vector3) :
  track <> [] ->
  forall index innerPoints outerPoints,
  exists inner outer,
    boundaryLoop track pts index innerPoints outerPoints
    = Some (innerPoints ++ inner, outerPoints ++ outer)
    /\ List.length inner = List.length pts
    /\ List.length outer = List.length pts
    /\ forall j p, nth_error pts j = Some p ->
         exists a b,
           nth_error inner j = Some a /\ nth_error outer j = Some b
           /\ boundaryAt track (index + j) p = Some (a, b).
Proof.
  intros Hne.
  induction pts as [| point rest IH]; intros index innerPoints outerPoints.
  - exists [], []. cbn. rewrite !app_nil_r.
    repeat split. intros [| j] p H; discriminate.
  - cbn [boundaryLoop].
    destruct (boundaryAt track index point) as [[a b] |] eqn:Hb.
    2:{ exfalso. unfold boundaryAt in Hb.
        destruct (nextIndex_defined track index Hne) as (q & Hq).
        rewrite Hq in Hb. discriminate. }
    destruct (IH (S index) (innerPoints ++ [a]) (outerPoints ++ [b]))
      as (inner & outer & Hrun & Hli & Hlo & Hat).
    exists (a :: inner), (b :: outer).
    rewrite Hrun, <- !app_assoc. cbn [app List.length].
    split; [reflexivity |]. split; [lia |]. split; [lia |].
    intros [| j] p Hp; cbn [nth_error] in *.
    + injection Hp as <-. exists a, b. rewrite Nat.add_0_r. auto.
    + destruct (Hat j p Hp) as (a' & b' & Ha & Hb' & Hbd).
      exists a', b'. replace (index + S j)%nat with (S index + j)%nat by lia. auto.
Qed.

(** X15.  [createTrackGeometry] gives one inner and one outer boundary
    point per track point and never fails.  The two are mirror images of
    each other about the track point, at the track point's height, and
    lie at most 6 (half the track width) from it in the horizontal plane:
    exactly 6 where the step to the next track point is level and not
    zero, less than 6 wherever the next point is at another height (the
    direction is normalised with its vertical component: the distance
    times the length of the step in space is 6 times the horizontal
    length of the step), and 0 where the next point is straight above or
    on it.  The offset is at a right angle to the horizontal step. *)
Theorem createTrackGeometry_boundary (track : list Vector3) :
  exists innerPoints outerPoints,
    createTrackGeometry track = Some (innerPoints, outerPoints)
    /\ List.length innerPoints = List.length track
    /\ List.length outerPoints = List.length track
    /\ forall i point, nth_error track i = Some point ->
         exists innerPoint outerPoint nextPoint,
           nth_error innerPoints i = Some innerPoint
           /\ nth_error outerPoints i = Some outerPoint
           /\ nth_error track ((i + 1) mod List.length track)%nat = Some nextPoint
           /\ vx innerPoint + vx outerPoint = 2 * vx point
           /\ vz innerPoint + vz outerPoint = 2 * vz point
           /\ vy innerPoint = vy point /\ vy outerPoint = vy point
           /\ dist2d (vx innerPoint) (vz innerPoint) (vx point) (vz point)
              = dist2d (vx outerPoint) (vz outerPoint) (vx point) (vz point)
           /\ dist2d (vx innerPoint) (vz innerPoint) (vx point) (vz point) <= 6
           /\ (vy nextPoint = vy point ->
               vx nextPoint <> vx point \/ vz nextPoint <> vz point ->
               dist2d (vx innerPoint) (vz innerPoint) (vx point) (vz point) = 6)
           /\ (vx nextPoint = vx point -> vz nextPoint = vz point ->
               dist2d (vx innerPoint) (vz innerPoint) (vx point) (vz point) = 0)
           /\ (vy nextPoint <> vy point ->
               dist2d (vx innerPoint) (vz innerPoint) (vx point) (vz point) < 6)
           /\ dist2d (vx innerPoint) (vz innerPoint) (vx point) (vz point)
              * length (subVectors nextPoint point)
              = 6 * dist2d (vx nextPoint) (vz nextPoint) (vx point) (vz point)
           /\ (vx innerPoint - vx point) * (vx nextPoint - vx point)
              + (vz innerPoint - vz point) * (vz nextPoint - vz point) = 0.
Proof.
  destruct track as [| p0 rest] eqn:Etrack.
  { exists [], []. repeat split. intros [| i] point H; discriminate. }
  rewrite <- Etrack.
  assert (Hne : track <> []) by (rewrite Etrack; discriminate).
  destruct (boundaryLoop_result track track Hne 0 [] [])
    as (inner & outer & Hrun & Hli & Hlo & Hat).
  exists inner, outer.
  split; [exact Hrun |]. split; [exact Hli |]. split; [exact Hlo |].
  intros i point Hp.
  destruct (Hat i point Hp) as (a & b & Ha & Hb & Hbd).
  destruct (boundaryAt_geometry track (0 + i) point a b Hbd)
    as (nextPoint & Hnext & Hgeo).
  exists a, b, nextPoint.
  split; [exact Ha |]. split; [exact Hb |]. split; [exact Hnext | exact Hgeo].
Qed.

(** ** The generated centerline *)

Lemma INR_numPoints : INR numPoints = 32.
Proof. rewrite INR_IZR_INZ. reflexivity. Qed.

Lemma createTrackPath_nth (i : nat) :
  (i < numPoints)%nat -> nth_error createTrackPath i = Some (trackPathPoint i).
Proof.
  intros Hi. unfold createTrackPath.
  rewrite nth_error_map, nth_error_seq.
  destruct (Nat.ltb_spec i numPoints); [reflexivity | lia].
Qed.

(** X16.  [createTrackPath] lays 32 points on the ellipse with half-axes
    45 (x) and 30 (z), none below height 0, starting at (45, 1.5, 0); the
    point 16 places on is the mirror image of a point through the centre
    of the ellipse (in x and z). *)
Theorem createTrackPath_on_ellipse :
  List.length createTrackPath = 32%nat
  /\ nth_error createTrackPath 0 = Some (mkVec 45 1.5 0)
  /\ (forall p, In p createTrackPath ->
        (vx p / 45) ^ 2 + (vz p / 30) ^ 2 = 1 /\ 0 <= vy p)
  /\ (forall i, (i < 16)%nat ->
        exists p q,
          nth_error createTrackPath i = Some p
          /\ nth_error createTrackPath (i + 16) = Some q
          /\ vx q = - vx p /\ vz q = - vz p).
Proof.
  split; [| split; [| split]].
  - unfold createTrackPath. rewrite length_map, length_seq. reflexivity.
  - rewrite createTrackPath_nth by (unfold numPoints; lia).
    unfold trackPathPoint, radiusX, radiusZ. cbn [INR].
    replace (0 / INR numPoints * PI * 2) with 0 by (unfold Rdiv; ring).
    rewrite !Rmult_0_l, sin_0, cos_0, Rmax_right by lra.
    f_equal. f_equal; lra.
  - intros p Hin. unfold createTrackPath in Hin.
    apply in_map_iff in Hin. destruct Hin as (i & <- & _).
    unfold trackPathPoint, radiusX, radiusZ. cbn [vx vy vz].
    split; [| apply Rmax_l].
    set (angle := INR i / INR numPoints * PI * 2).
    replace ((cos angle * 45 / 45) ^ 2 + (sin angle * 30 / 30) ^ 2)
      with (Rsqr (sin angle) + Rsqr (cos angle)) by (unfold Rsqr; field).
    apply sin2_cos2.
  - intros i Hi.
    exists (trackPathPoint i), (trackPathPoint (i + 16)).
    split; [apply createTrackPath_nth; unfold numPoints; lia |].
    split; [apply createTrackPath_nth; unfold numPoints; lia |].
    unfold trackPathPoint, radiusX, radiusZ. cbn [vx vz].
    rewrite plus_INR, INR_numPoints.
    replace (INR 16) with 16 by (rewrite INR_IZR_INZ; reflexivity).
    replace ((INR i + 16) / 32 * PI * 2) with (INR i / 32 * PI * 2 + PI) by field.
    rewrite neg_cos, neg_sin. split; ring.
Qed.

(** ** The bank angle *)

Lemma getTrackHeightAt_point (track : list Vector3) (x z : R) :
  track <> [] -> exists p, In p track /\ getTrackHeightAt track x z = vy p.
Proof.
  intros Hne.
  destruct (findClosest_nearest track x z Hne) as (p & Hd & Hp & [Hnth _]).
  exists p. split; [apply nth_error_In in Hnth; exact Hnth |].
  unfold getTrackHeightAt.
  destruct (heightScan_follows x z track 0
              (mkClosest None (nth_error track 0) 0) (None, 0)) as [_ H].
  - reflexivity.
  - cbn. intros q _ Hq. contradiction.
  - apply H; [exact Hp |]. fold (findClosest track x z). rewrite Hd. discriminate.
Qed.

(** X17.  [getTrackSlope] never pitches the cart, and banks it by the
    arctangent of half the height difference between the right and the
    left sample, held within a quarter turn each way: the bank is [PI / 4]
    once the right sample is 2 or more above the left one, [- PI / 4] once
    it is 2 or more below, and 0 on a track whose points all have the same
    height. *)
Theorem getTrackSlope_bank (track : list Vector3) (x z : R) (direction : Vector3) :
  let bankDiff :=
    snd (sampleHeights track x z direction)
    - fst (sampleHeights track x z direction) in
  let roll := snd (getTrackSlope track x z direction) in
  fst (getTrackSlope track x z direction) = 0
  /\ - PI / 4 <= roll <= PI / 4
  /\ (2 <= bankDiff -> roll = PI / 4)
  /\ (bankDiff <= -2 -> roll = - PI / 4)
  /\ (-2 < bankDiff < 2 -> roll = atan (bankDiff / 2))
  /\ (forall h, (forall p, In p track -> vy p = h) -> roll = 0).
Proof.
  intros bankDiff roll.
  assert (Hroll : roll = Rmax (- PI / 4) (Rmin (PI / 4) (atan (bankDiff / 2)))).
  { subst roll bankDiff. unfold getTrackSlope.
    destruct (sampleHeights track x z direction) as [l r]. cbn [fst snd].
    unfold atan2, sampleDistance.
    destruct (Rlt_dec 0 (1.0 * 2)) as [_ | H]; [| lra].
    do 3 f_equal. lra. }
  assert (Hfst : fst (getTrackSlope track x z direction) = 0).
  { unfold getTrackSlope. destruct (sampleHeights track x z direction). reflexivity. }
  pose proof PI_RGT_0 as Hpi.
  assert (Hhigh : 2 <= bankDiff -> PI / 4 <= atan (bankDiff / 2)).
  { intros H. rewrite <- atan_1.
    destruct (Req_dec (bankDiff / 2) 1) as [-> | Hn]; [apply Rle_refl |].
    left. apply atan_increasing. lra. }
  assert (Hlow : bankDiff <= -2 -> atan (bankDiff / 2) <= - PI / 4).
  { intros H. replace (- PI / 4) with (- (PI / 4)) by lra.
    rewrite <- atan_1, <- atan_opp.
    destruct (Req_dec (bankDiff / 2) (- 1)) as [-> | Hn]; [apply Rle_refl |].
    left. apply atan_increasing. lra. }
  assert (Hmid : -2 < bankDiff < 2 -> - PI / 4 < atan (bankDiff / 2) < PI / 4).
  { intros H. split.
    - replace (- PI / 4) with (- (PI / 4)) by lra.
      rewrite <- atan_1, <- atan_opp. apply atan_increasing. lra.
    - rewrite <- atan_1. apply atan_increasing. lra. }
  split; [exact Hfst |].
  rewrite Hroll.
  split.
  { unfold Rmax, Rmin.
    destruct (Rle_dec (PI / 4) (atan (bankDiff / 2)));
      match goal with
      | |- context [Rle_dec ?a ?b] => destruct (Rle_dec a b)
      end; lra. }
  split.
  { intros H. specialize (Hhigh H).
    rewrite Rmin_left by lra. rewrite Rmax_right by lra. reflexivity. }
  split.
  { intros H. specialize (Hlow H).
    rewrite Rmin_right by lra. rewrite Rmax_left by lra. reflexivity. }
  split.
  { intros H. specialize (Hmid H).
    rewrite Rmin_right by lra. rewrite Rmax_right by lra. reflexivity. }
  intros h Hflat.
  assert (Hzero : bankDiff = 0).
  { subst bankDiff. unfold sampleHeights. cbn [fst snd].
    destruct track as [| p0 rest] eqn:E; [cbn; lra |].
    rewrite <- E in *.
    assert (Hne : track <> []) by (rewrite E; discriminate).
    repeat match goal with
           | |- context [getTrackHeightAt track ?a ?b] =>
               let p := fresh "p" in
               let Hin := fresh "Hin" in
               let Hh := fresh "Hh" in
               destruct (getTrackHeightAt_point track a b Hne) as (p & Hin & Hh);
               rewrite Hh, (Hflat p Hin); clear Hh
           end.
    lra. }
  rewrite Hzero.
  replace (0 / 2) with 0 by lra. rewrite atan_0.
  rewrite Rmin_right by lra. rewrite Rmax_right by lra. reflexivity.
Qed.

(** ** The keyboard *)

Lemma handleKeyboardEvent_flags (k : Keys) (e : KeyboardEvent) :
  let held code flag :=
    match e with
    | KeyDown c => if String.eqb c code then true else flag
    | KeyUp c => if String.eqb c code then false else flag
    end in
  handleKeyboardEvent k e
  = mkKeys (held "ArrowUp"%string (forward k))
           (held "ArrowDown"%string (backward k))
           (held "ArrowLeft"%string (left k))
           (held "ArrowRight"%string (right k)).
Proof.
  destruct k as [f b l r].
  destruct e as [c | c]; cbn [handleKeyboardEvent forward backward left right];
    unfold handleKeyDown, handleKeyUp;
    cbn [forward backward left right];
    destruct (String.eqb_spec c "ArrowUp") as [-> | H1]; try reflexivity;
    destruct (String.eqb_spec c "ArrowDown") as [-> | H2]; try reflexivity;
    destruct (String.eqb_spec c "ArrowLeft") as [-> | H3]; try reflexivity;
    destruct (String.eqb_spec c "ArrowRight") as [-> | H4]; reflexivity.
Qed.

Lemma keys_after (events : list KeyboardEvent) :
  forall k,
    fold_left handleKeyboardEvent events k
    = mkKeys (heldAfter "ArrowUp" (forward k) events)
             (heldAfter "ArrowDown" (backward k) events)
             (heldAfter "ArrowLeft" (left k) events)
             (heldAfter "ArrowRight" (right k) events).
Proof.
  induction events as [| e rest IH]; intros k.
  - destruct k; reflexivity.
  - cbn [fold_left]. rewrite IH, handleKeyboardEvent_flags.
    destruct e; reflexivity.
Qed.

(** X18.  The four flags of [useKeyboardControls] are independent and
    each follows its own arrow key: after any sequence of key events a
    flag is up exactly when the last event of its key was a key-down (and
    down if its key never moved); events of any other key, and of the
    other three arrows, do not touch it. *)
Theorem useKeyboardControls_follows_arrows (events : list KeyboardEvent) :
  useKeyboardControls events
  = mkKeys (heldAfter "ArrowUp" false events)
           (heldAfter "ArrowDown" false events)
           (heldAfter "ArrowLeft" false events)
           (heldAfter "ArrowRight" false events)
  /\ (forall code more,
        code <> "ArrowUp"%string -> code <> "ArrowDown"%string ->
        code <> "ArrowLeft"%string -> code <> "ArrowRight"%string ->
        useKeyboardControls (events ++ [KeyDown code] ++ more)
        = useKeyboardControls (events ++ more)
        /\ useKeyboardControls (events ++ [KeyUp code] ++ more)
           = useKeyboardControls (events ++ more)).
Proof.
  split; [apply (keys_after events noKeys) |].
  intros code more H1 H2 H3 H4.
  unfold useKeyboardControls. rewrite !fold_left_app. cbn [fold_left].
  set (k := fold_left handleKeyboardEvent events noKeys).
  assert (Hd : handleKeyboardEvent k (KeyDown code) = k).
  { rewrite handleKeyboardEvent_flags.
    destruct (String.eqb_spec code "ArrowUp"); [contradiction |].
    destruct (String.eqb_spec code "ArrowDown"); [contradiction |].
    destruct (String.eqb_spec code "ArrowLeft"); [contradiction |].
    destruct (String.eqb_spec code "ArrowRight"); [contradiction |].
    destruct k; reflexivity. }
  assert (Hu : handleKeyboardEvent k (KeyUp code) = k).
  { rewrite handleKeyboardEvent_flags.
    destruct (String.eqb_spec code "ArrowUp"); [contradiction |].
    destruct (String.eqb_spec code "ArrowDown"); [contradiction |].
    destruct (String.eqb_spec code "ArrowLeft"); [contradiction |].
    destruct (String.eqb_spec code "ArrowRight"); [contradiction |].
    destruct k; reflexivity. }
  rewrite Hd, Hu. split; reflexivity.
Qed.

Lemma useKeyboardControls_follows_arrows_witness :
  useKeyboardControls [KeyDown "ArrowUp"; KeyDown "KeyW"; KeyUp "ArrowLeft"]
  = useKeyboardControls [KeyDown "ArrowUp"; KeyUp "ArrowLeft"].
Proof.
  destruct (useKeyboardControls_follows_arrows [KeyDown "ArrowUp"%string])
    as [_ H].
  destruct (H "KeyW"%string [KeyUp "ArrowLeft"%string]) as [Hd _];
    try discriminate.
  exact Hd.
Defined.

(** ** The follow camera *)

(** X19.  In driver view [CameraController] puts the camera 4 above the
    cart and exactly 8 behind it along its heading, whatever the heading;
    in overview it leaves the camera alone. *)
Theorem cameraFrame_follows (cartPosition : Vector3) (cartRotation : R) :
  cameraFrame cartPosition cartRotation true = None
  /\ exists camera,
       cameraFrame cartPosition cartRotation false = Some camera
       /\ vy camera = vy cartPosition + 4
       /\ dist2d (vx camera) (vz camera) (vx cartPosition) (vz cartPosition) = 8
       /\ vx cartPosition = vx camera + 8 * sin cartRotation
       /\ vz cartPosition = vz camera + 8 * cos cartRotation.
Proof.
  split; [reflexivity |].
  unfold cameraFrame, cameraDistance, cameraHeight. cbn [negb].
  eexists. split; [reflexivity |]. cbn [vx vy vz].
  split; [reflexivity |].
  split; [| split; lra].
  replace (vx cartPosition - sin cartRotation * 8)
    with (vx cartPosition + sin cartRotation * (- 8)) by lra.
  replace (vz cartPosition - cos cartRotation * 8)
    with (vz cartPosition + cos cartRotation * (- 8)) by lra.
  rewrite step_length. solve_abs.
Qed.

(** ** The race *)

Lemma useFrame_keeps_health (pr : Props) (mounted : bool) (keys : Keys)
  (delta : R) (s : Cart) (m : PosMap) (out : FrameResult) :
  useFrame pr mounted keys delta s m = Some out ->
  hitPoints (cart out) = hitPoints s
  /\ cartHits (cart out) = cartHits s
  /\ (isStunned s = false ->
      isStunned (cart out) = false /\ stunTimeLeft (cart out) = stunTimeLeft s).
Proof.
  intros Hrun.
  destruct (frameKind_idle pr mounted keys delta s m) as (Hu & Hp & Hs).
  destruct (frameKind pr mounted keys delta s) eqn:K.
  - destruct (Hu eq_refl) as [_ H]. rewrite H in Hrun. injection Hrun as <-.
    cbn [cart]. auto.
  - destruct (Hp eq_refl) as (_ & _ & H). rewrite H in Hrun.
    injection Hrun as <-. cbn [cart].
    match goal with |- context [Rleb ?a 0] => destruct (Rleb a 0) end;
      cbn; auto.
  - destruct (Hs eq_refl) as (_ & _ & Hst & H). rewrite H in Hrun.
    injection Hrun as <-. cbn [cart].
    match goal with |- context [Rleb ?a 0] => destruct (Rleb a 0) end;
      cbn; (split; [reflexivity | split; [reflexivity |]]);
      intros H'; rewrite Hst in H'; discriminate.
  - rewrite (frameKind_raises pr mounted keys delta s m K) in Hrun. discriminate.
  - destruct (wallHit_cart pr mounted keys delta s m K)
      as (closest & nextPoint & _ & _ & H).
    rewrite H in Hrun. injection Hrun as <-. cbn. auto.
  - destruct (drives_cart pr mounted keys delta s m K)
      as (out' & controls & c0 & _ & Hrun' & H).
    rewrite Hrun in Hrun'. injection Hrun' as <-.
    destruct H as (_ & Hst & _ & _ & _ & _ & _ & _ & _ & _ & _ & _ & Hst' & Ht
                   & Hh & _ & Hc & _).
    rewrite Hh, Hc, Hst', Ht. auto.
Qed.

Lemma handleCartCollision_none (ids : list string) (carts : list Cart) :
  fold_left (fun cs id => handleCartCollision trackCartRefs id cs) ids carts
  = carts.
Proof. induction ids as [| id rest IH]; [reflexivity | exact IH]. Qed.

Lemma tick_three (mounted : nat -> bool) (keys : Keys) (delta : R)
  (c0 c1 c2 : Cart) (m : PosMap) :
  tick mounted keys delta ([c0; c1; c2], m)
  = match useFrame playerProps (mounted 0%nat) keys delta c0 m with
    | None => None
    | Some o0 =>
        match useFrame ai1Props (mounted 1%nat) keys delta c1 (positions o0) with
        | None => None
        | Some o1 =>
            match useFrame ai2Props (mounted 2%nat) keys delta c2 (positions o1) with
            | None => None
            | Some o2 => Some ([cart o0; cart o1; cart o2], positions o2)
            end
        end
    end.
Proof.
  unfold tick, roster.
  cbn [List.length seq combine fst snd tickCarts nth_error].
  destruct (useFrame playerProps _ _ _ c0 m) as [o0 |]; [| reflexivity].
  rewrite handleCartCollision_none. cbn [replaceNth nth_error].
  destruct (useFrame ai1Props _ _ _ c1 _) as [o1 |]; [| reflexivity].
  rewrite handleCartCollision_none. cbn [replaceNth nth_error].
  destruct (useFrame ai2Props _ _ _ c2 _) as [o2 |]; [| reflexivity].
  rewrite handleCartCollision_none. reflexivity.
Qed.

Lemma createTrackPath_not_empty : createTrackPath <> [].
Proof.
  intros H. apply (f_equal (@List.length Vector3)) in H.
  unfold createTrackPath in H. rewrite length_map, length_seq in H.
  discriminate.
Qed.

Lemma unharmed_frame (pr : Props) (mounted : bool) (keys : Keys) (delta : R)
  (s : Cart) (m : PosMap) :
  trackPoints pr = createTrackPath ->
  0 <= delta ->
  unharmed pr s ->
  exists out,
    useFrame pr mounted keys delta s m = Some out /\ unharmed pr (cart out).
Proof.
  intros Htrack Hd (Hreach & Hh & Hc & Hst & Ht).
  assert (Hne : trackPoints pr <> []).
  { rewrite Htrack. apply createTrackPath_not_empty. }
  destruct (reachable_onTrack pr s Hne Hreach) as [Hi _].
  destruct (useFrame_defined pr mounted keys delta s m Hne Hi) as (out & Hrun).
  exists out. split; [exact Hrun |].
  destruct (useFrame_keeps_health pr mounted keys delta s m out Hrun)
    as (Hh' & Hc' & Hs').
  destruct (Hs' Hst) as [Hst' Ht'].
  split.
  - apply (reachable_step pr s (cart out) (FrameEvent mounted keys delta m));
      [exact Hreach | exact Hd |].
    cbn [stepEvent]. rewrite Hrun. reflexivity.
  - rewrite Hh', Hc', Hst', Ht'. auto.
Qed.

(** X20.  In the race as [Track] assembles it nobody is ever hurt:
    [cartRefs] stays empty, so [handleCartCollision] finds no cart to call
    [takeDamage] on, and through any number of frames the three carts keep
    10 hit points, 0 cart hits and are never stunned, however many
    collisions are signalled.  On the generated track every frame of the
    race runs without raising. *)
Theorem nobody_is_hurt_in_the_race (race : list Cart * PosMap) :
  raceReachable race ->
  (exists c0 c1 c2 m,
      race = ([c0; c1; c2], m)
      /\ unharmed playerProps c0 /\ unharmed ai1Props c1 /\ unharmed ai2Props c2)
  /\ forall mounted keys delta,
       0 <= delta -> exists race', tick mounted keys delta race = Some race'.
Proof.
  intros Hreach.
  assert (Hinv : exists c0 c1 c2 m,
             race = ([c0; c1; c2], m)
             /\ unharmed playerProps c0 /\ unharmed ai1Props c1
             /\ unharmed ai2Props c2).
  { induction Hreach as [| race race' mounted keys delta Hreach IH Hd Htick].
    - exists (initialCart playerProps), (initialCart ai1Props),
        (initialCart ai2Props), [].
      split; [reflexivity |].
      repeat split; try reflexivity; apply reachable_initial.
    - destruct IH as (c0 & c1 & c2 & m & -> & H0 & H1 & H2).
      rewrite tick_three in Htick.
      destruct (unharmed_frame playerProps (mounted 0%nat) keys delta c0 m
                  eq_refl Hd H0) as (o0 & R0 & U0).
      rewrite R0 in Htick.
      destruct (unharmed_frame ai1Props (mounted 1%nat) keys delta c1
                  (positions o0) eq_refl Hd H1) as (o1 & R1 & U1).
      rewrite R1 in Htick.
      destruct (unharmed_frame ai2Props (mounted 2%nat) keys delta c2
                  (positions o1) eq_refl Hd H2) as (o2 & R2 & U2).
      rewrite R2 in Htick. injection Htick as <-.
      exists (cart o0), (cart o1), (cart o2), (positions o2). auto. }
  split; [exact Hinv |].
  intros mounted keys delta Hd.
  destruct Hinv as (c0 & c1 & c2 & m & -> & H0 & H1 & H2).
  rewrite tick_three.
  destruct (unharmed_frame playerProps (mounted 0%nat) keys delta c0 m
              eq_refl Hd H0) as (o0 & -> & _).
  destruct (unharmed_frame ai1Props (mounted 1%nat) keys delta c1
              (positions o0) eq_refl Hd H1) as (o1 & -> & _).
  destruct (unharmed_frame ai2Props (mounted 2%nat) keys delta c2
              (positions o1) eq_refl Hd H2) as (o2 & -> & _).
  eexists. reflexivity.
Qed.

Lemma nobody_is_hurt_in_the_race_witness :
  exists race',
    tick (fun _ => true) noKeys (1 / 60) initialRace = Some race'.
Proof.
  destruct (nobody_is_hurt_in_the_race initialRace race_initial) as [_ Hrun].
  apply Hrun. lra.
Defined.

(** ** Top speed and steering authority *)

(** X21.  The speed reached by holding [forward] depends on the frame
    time: from rest, with frames of length [delta], the velocity climbs
    frame by frame without ever passing [min(0.384, 19.2 * delta)].  At 60
    frames a second that is 0.32, so the nominal top speed 0.4 (0.384 after
    friction) is out of reach; it takes frames of a fiftieth of a second
    or longer to get there. *)
Theorem forward_speed_limit (delta : R) (n : nat) :
  0 <= delta ->
  0 <= accelerateWith delta n <= Rmin 0.384 (19.2 * delta)
  /\ accelerateWith delta n <= accelerateWith delta (S n).
Proof.
  intros Hd.
  assert (Hstep : forall v,
             0 <= v <= Rmin 0.384 (19.2 * delta) ->
             0 <= updateVelocity forwardKeys delta v <= Rmin 0.384 (19.2 * delta)
             /\ v <= updateVelocity forwardKeys delta v).
  { intros v. unfold updateVelocity, maxSpeed, acceleration, friction.
    cbn [forward forwardKeys]. unfold Rmin.
    destruct (Rle_dec 0.384 (19.2 * delta));
      destruct (Rle_dec 0.4 (v + 0.8 * delta)); intros H; lra. }
  assert (Hinv : 0 <= accelerateWith delta n <= Rmin 0.384 (19.2 * delta)).
  { induction n as [| n IH].
    - unfold accelerateWith, Rmin. cbn [Nat.iter nat_rect].
      destruct (Rle_dec 0.384 (19.2 * delta)); lra.
    - change (accelerateWith delta (S n))
        with (updateVelocity forwardKeys delta (accelerateWith delta n)).
      apply Hstep, IH. }
  split; [exact Hinv |].
  change (accelerateWith delta (S n))
    with (updateVelocity forwardKeys delta (accelerateWith delta n)).
  apply Hstep, Hinv.
Qed.

Lemma forward_speed_limit_witness :
  accelerateWith (1 / 60) 60 <= Rmin 0.384 (19.2 * (1 / 60)).
Proof.
  destruct (forward_speed_limit (1 / 60) 60) as [[_ H] _]; [lra | exact H].
Defined.

(** X22.  Steering needs speed.  The angular velocity a frame computes
    towards the side that is held never exceeds a fifth of the magnitude
    of the frame's velocity ([left] is tested first), and a cart that is
    standing and not turning stays that way whatever is held. *)
Theorem steering_needs_speed (controls : Keys) (delta nv w : R) :
  0 <= delta ->
  (left controls = true ->
   updateAngularVelocity controls delta nv w <= 0.2 * Rabs nv)
  /\ (left controls = false -> right controls = true ->
      - (0.2 * Rabs nv) <= updateAngularVelocity controls delta nv w)
  /\ updateAngularVelocity controls delta 0 0 = 0.
Proof.
  intros Hd.
  unfold updateAngularVelocity, maxSpeed, maxTurnSpeed, turnAcceleration,
    turnFriction.
  assert (He : 0.08 * (Rabs nv / 0.4) = 0.2 * Rabs nv) by lra.
  split; [| split].
  - intros ->. rewrite He. apply Rmin_l.
  - intros -> ->. rewrite He. apply Rmax_l.
  - rewrite Rabs_R0.
    replace (0.08 * (0 / 0.4)) with 0 by lra.
    destruct (left controls); [| destruct (right controls)].
    + apply Rmin_left. lra.
    + replace (- 0) with 0 by lra. apply Rmax_left. lra.
    + lra.
Qed.

Lemma steering_needs_speed_witness :
  updateAngularVelocity (mkKeys false false true false) (1 / 60) 0 0 = 0.
Proof.
  destruct (steering_needs_speed (mkKeys false false true false) (1 / 60) 0 0)
    as (_ & _ & H); [lra | exact H].
Defined.

(** ** One second of [forward] *)

Lemma forwardFrames_frameOf (maps : list PosMap) :
  Forall (frameOf (1 / 60)) (forwardFrames maps).
Proof.
  induction maps as [| m rest IH]; constructor; [| exact IH].
  exists forwardKeys, m. reflexivity.
Qed.

(** The player's frame on a track that is not empty either runs to the
    end or hits the wall. *)
Lemma player_frame_kind (pr : Props) (keys : Keys) (delta : R) (s : Cart) :
  isPlayer pr = true -> trackPoints pr <> [] ->
  isPaused s = false -> isStunned s = false ->
  frameKind pr true keys delta s = Drives
  \/ frameKind pr true keys delta s = WallHit.
Proof.
  intros Hpl Hne Hp Hs. unfold frameKind. rewrite Hp, Hs. cbn [negb].
  rewrite frameControls_player by exact Hpl.
  match goal with
  | |- context [isPositionValid ?t ?x ?z] =>
      destruct (isPositionValid_defined t x z Hne) as ([|] & ->)
  end; [left | right]; reflexivity.
Qed.

(** A run of fewer than 180 frames with [forward] held down, from a
    state with the velocity of [k] such frames, returns: either every
    frame runs to the end and the velocity follows the formula, or one
    frame hits the wall and the pause that follows holds the cart at rest
    to the end. *)
Lemma forward_run (pr : Props) :
  isPlayer pr = true -> trackPoints pr <> [] ->
  forall maps k s,
    (List.length maps < 180)%nat ->
    isPaused s = false -> isStunned s = false ->
    velocity s = accelerate k ->
    exists s',
      runEvents pr (forwardFrames maps) s = Some s'
      /\ ((wallHits s' = wallHits s /\ isPaused s' = false
           /\ isStunned s' = false
           /\ velocity s' = accelerate (k + List.length maps))
          \/ (wallHits s' = (wallHits s + 1)%nat /\ isPaused s' = true
              /\ velocity s' = 0)).
Proof.
  intros Hpl Hne.
  induction maps as [| m rest IH]; intros k s Hlen Hp Hs Hv.
  - exists s. split; [reflexivity |].
    left. cbn [List.length]. rewrite Nat.add_0_r. auto.
  - cbn [forwardFrames map runEvents stepEvent].
    fold (forwardFrames rest).
    cbn [List.length] in Hlen.
    destruct (player_frame_kind pr forwardKeys (1 / 60) s Hpl Hne Hp Hs)
      as [K | K].
    + destruct (drives_cart pr true forwardKeys (1 / 60) s m K)
        as (out & controls & c0 & Hc & Hrun & _ & _ & _ & _ & _ & _ & Hvel
            & _ & _ & _ & Hp' & _ & Hs' & _ & _ & Hw & _).
      rewrite frameControls_player in Hc by exact Hpl.
      injection Hc as <- <-.
      assert (Hv' : velocity (cart out) = accelerate (S k)).
      { rewrite Hvel, Hv. reflexivity. }
      destruct (IH (S k) (cart out)) as (s' & Hrest & H);
        try assumption; [lia |].
      exists s'. rewrite Hrun. split; [exact Hrest |].
      destruct H as [(A & B & C & D) | (A & B & C)].
      * left. rewrite A, Hw. split; [reflexivity |]. split; [exact B |].
        split; [exact C |]. rewrite D. f_equal. cbn [List.length]. lia.
      * right. rewrite A, Hw. auto.
    + destruct (wallHit_cart pr true forwardKeys (1 / 60) s m K)
        as (closest & nextPoint & _ & _ & ->).
      cbn [cart].
      rewrite (pause_runs pr (1 / 60) (forwardFrames rest)).
      * eexists. split; [reflexivity |]. right. cbn. auto.
      * lra.
      * apply forwardFrames_frameOf.
      * reflexivity.
      * cbn [pauseTimeLeft]. unfold forwardFrames. rewrite length_map.
        assert (Hn : INR (List.length rest) < INR 180) by (apply lt_INR; lia).
        replace (INR 180) with 180 in Hn by (rewrite INR_IZR_INZ; reflexivity).
        lra.
Qed.

(** C7, as the code has it.  The player's cart, on a track that is not
    empty, starts at rest, neither paused nor stunned, and gets sixty
    frames of a sixtieth of a second with [forward] held down (the shared
    map in any state in each).  The sixty frames return.  Each frame that
    runs to the end replaces the velocity [v] by [min(0.4, v + 0.8 dt)]
    times 0.96.  If all sixty run to the end the velocity is
    0.32 (1 - 0.96^60), about 0.2924: above 0 and below the top speed 0.4,
    which the cap never touches on the way.  Otherwise one of them hits
    the wall, and the cart ends the second paused with velocity 0 and one
    more wall hit. *)
Theorem accelerate_one_second (pr : Props) (s : Cart) (maps : list PosMap) :
  isPlayer pr = true -> trackPoints pr <> [] ->
  velocity s = 0 -> isPaused s = false -> isStunned s = false ->
  List.length maps = 60%nat ->
  exists s',
    runEvents pr (forwardFrames maps) s = Some s'
    /\ (forall v, updateVelocity forwardKeys (1 / 60) v
                  = Rmin 0.4 (v + 0.8 * (1 / 60)) * 0.96)
    /\ (forall n, accelerate (S n) = (accelerate n + 0.8 * (1 / 60)) * 0.96)
    /\ ((wallHits s' = wallHits s /\ isPaused s' = false
         /\ velocity s' = accelerate 60
         /\ velocity s' = 0.32 * (1 - 0.96 ^ 60)
         /\ 0.29 < velocity s' < 0.295)
        \/ (wallHits s' = (wallHits s + 1)%nat /\ isPaused s' = true
            /\ velocity s' = 0)).
Proof.
  intros Hpl Hne Hv Hp Hs Hlen.
  destruct accelerate_sixty as (Hformula & Hclosed & Hrange & Hrec).
  destruct (forward_run pr Hpl Hne maps 0 s) as (s' & Hrun & H);
    try assumption; [lia |].
  exists s'. split; [exact Hrun |].
  split; [exact Hformula |]. split; [exact Hrec |].
  destruct H as [(A & B & _ & D) | H]; [left | right; exact H].
  rewrite Hlen in D. change (0 + 60)%nat with 60%nat in D.
  split; [exact A |]. split; [exact B |]. split; [exact D |].
  rewrite D. split; [exact Hclosed | exact Hrange].
Qed.

(** *** A straight run on the scenario's track *)

Lemma motion_straight (keys : Keys) (delta : R) (s : Cart) :
  left keys = false -> right keys = false ->
  rotation s = PI / 2 -> angularVelocity s = 0 ->
  newAngularVelocity (motion keys delta s) = 0
  /\ newRotation (motion keys delta s) = PI / 2
  /\ vx (tentativePosition (motion keys delta s))
     = vx (position s) + updateVelocity keys delta (velocity s)
  /\ vz (tentativePosition (motion keys delta s)) = vz (position s).
Proof.
  intros Hl Hr Hrot Hw.
  unfold motion, updateAngularVelocity, turnFriction.
  cbn [newAngularVelocity newRotation tentativePosition vx vz].
  rewrite Hl, Hr, Hrot, Hw.
  replace (PI / 2 + 0 * 0.9) with (PI / 2) by lra.
  rewrite sin_PI2, cos_PI2.
  split; [lra |]. split; [reflexivity |]. split; lra.
Qed.

Lemma cruising_frame (k : nat) (s : Cart) :
  (k < 60)%nat -> cruising k s ->
  exists s1,
    stepEvent demoPlayer (FrameEvent true forwardKeys (1 / 60) []) s = Some s1
    /\ cruising (S k) s1.
Proof.
  intros Hk (Hz & Hx & Hrot & Hw & Hv & Hp & Hs & Hwall).
  pose proof (accelerate_range k) as Ha.
  pose proof (accelerate_range (S k)) as Ha'.
  assert (Hnext : updateVelocity forwardKeys (1 / 60) (velocity s)
                  = accelerate (S k)).
  { rewrite Hv. reflexivity. }
  assert (Hn : INR k <= 59).
  { replace 59 with (INR 59) by (rewrite INR_IZR_INZ; reflexivity).
    apply le_INR. lia. }
  assert (K : frameKind demoPlayer true forwardKeys (1 / 60) s = Drives).
  { apply demo_moving_drives; try assumption; [lra |].
    rewrite Hnext, Rabs_right; lra. }
  destruct (drives_cart demoPlayer true forwardKeys (1 / 60) s [] K)
    as (out & controls & c0 & Hc & Hrun & _ & _ & _ & _ & _ & Hpos & Hvel
        & Hang & Hr & _ & Hp' & _ & Hs' & _ & _ & Hwh & _).
  rewrite frameControls_player in Hc by reflexivity.
  injection Hc as <- <-.
  destruct (motion_straight forwardKeys (1 / 60) s eq_refl eq_refl Hrot Hw)
    as (Hmw & Hmr & Hmx & Hmz).
  cbn [checkCartCollisions fst] in Hpos. cbv zeta in Hpos.
  exists (cart out). cbn [stepEvent]. rewrite Hrun.
  split; [reflexivity |].
  assert (Hang' : angularVelocity (cart out) = 0).
  { rewrite Hang. unfold updateAngularVelocity, turnFriction.
    cbn [left right forwardKeys]. rewrite Hw. lra. }
  unfold cruising. rewrite Hpos. cbn [vx vz].
  rewrite Hmx, Hmz, Hnext, S_INR.
  split; [exact Hz |]. split; [lra |].
  split; [rewrite Hr, Hang', Hrot; lra |].
  split; [exact Hang' |].
  split; [rewrite Hvel; exact Hnext |].
  split; [exact Hp' |]. split; [exact Hs' |].
  rewrite Hwh. exact Hwall.
Qed.

Lemma cruising_run (n : nat) :
  forall k s,
    (k + n <= 60)%nat -> cruising k s ->
    exists s',
      runEvents demoPlayer (forwardFrames (repeat [] n)) s = Some s'
      /\ cruising (k + n) s'.
Proof.
  induction n as [| n IH]; intros k s Hk Hc.
  - exists s. rewrite Nat.add_0_r. split; [reflexivity | exact Hc].
  - destruct (cruising_frame k s) as (s1 & Hstep & Hc1); [lia | exact Hc |].
    destruct (IH (S k) s1) as (s' & Hrun & Hc'); [lia | exact Hc1 |].
    exists s'. cbn [repeat forwardFrames map runEvents].
    fold (forwardFrames (repeat [] n)). rewrite Hstep.
    replace (k + S n)%nat with (S k + n)%nat by lia.
    split; [exact Hrun | exact Hc'].
Qed.

Lemma cruising_start : cruising 0 (restingAt 0).
Proof.
  unfold cruising. cbn [restingAt position vx vz rotation angularVelocity
                        velocity isPaused isStunned wallHits INR].
  repeat split; try reflexivity; lra.
Qed.

(** The player of the scenario, at rest on track point 0 and heading
    along the track, drives through all sixty frames. *)
Lemma demo_one_second :
  exists s',
    runEvents demoPlayer (forwardFrames (repeat [] 60)) (restingAt 0) = Some s'
    /\ wallHits s' = 0%nat
    /\ velocity s' = accelerate 60.
Proof.
  destruct (cruising_run 60 0 (restingAt 0)) as (s' & Hrun & Hc);
    [lia | exact cruising_start |].
  destruct Hc as (_ & _ & _ & _ & Hv & _ & _ & Hw).
  exists s'. split; [exact Hrun |]. split; [exact Hw | exact Hv].
Qed.

Lemma accelerate_one_second_witness :
  exists s',
    runEvents demoPlayer (forwardFrames (repeat [] 60)) (restingAt 0) = Some s'
    /\ 0.29 < velocity s' < 0.295.
Proof.
  assert (Hne : trackPoints demoPlayer <> []) by discriminate.
  destruct (accelerate_one_second demoPlayer (restingAt 0) (repeat [] 60)
              eq_refl Hne eq_refl eq_refl eq_refl eq_refl)
    as (s' & Hrun & _ & _ & H).
  exists s'. split; [exact Hrun |].
  destruct H as [(_ & _ & _ & _ & Hv) | (Hhit & _)]; [exact Hv |].
  destruct demo_one_second as (s'' & Hrun' & Hw & _).
  rewrite Hrun in Hrun'. injection Hrun' as <-.
  rewrite Hw in Hhit. discriminate Hhit.
Defined.

(** C7, as the claim has it, fails: the player of the scenario starts at
    rest on track point 0, heading along the track, and holds [forward]
    for sixty frames of a sixtieth of a second.  Every frame runs to the
    end, and the velocity after the last one is 0.32 (1 - 0.96^60), not
    [min(maxSpeed, 0)], which is 0. *)
Lemma accelerate_one_second_not_zero :
  exists s',
    runEvents demoPlayer (forwardFrames (repeat [] 60)) (restingAt 0) = Some s'
    /\ wallHits s' = 0%nat
    /\ velocity s' = accelerate 60
    /\ velocity s' <> Rmin maxSpeed 0.
Proof.
  destruct demo_one_second as (s' & Hrun & Hw & Hv).
  exists s'. split; [exact Hrun |]. split; [exact Hw |]. split; [exact Hv |].
  rewrite Hv. exact accelerate_sixty_not_zero.
Qed.
